(** * RK_MPI_SAsolver_hybrid: the distributed adaptive Runge-Kutta-Merson solver

    A shallow embedding of
    [modules/RK_MPI_SAsolver_hybrid/RK_MPI_SAsolver_hybrid.c]
    (sparse chunk layout, pre-flight negotiation, the step attempt, the
    command word and the outer loop of [RK_MPI_SA_solve]) and the
    properties of it that the specification states.

    Conventions of the embedding.
    - [FLOAT] is the [double] build ([_DEFAULT_FP_PRECISION == FP_DOUBLE]):
      IEEE 754 binary64, Rocq's primitive floats.  [powF] is the C library's
      [pow]; it is not part of the repository and is a parameter.
    - [int] and [long] values are integers in [Z]; the additions the code
      performs on them wrap around at 32 and 64 bits.
    - A [FLOAT *] is the store it points to, a total map from offsets to
      values, so that [p + chunk_start] followed by [q[i]] is the map read or
      written at [chunk_start + i].
    - The ranks of the communicator run in lock step: every collective
      ([MPI_Allreduce], [MPI_Reduce], [MPI_Bcast]) is a function of the
      states of all ranks at that program point.  The threads of one rank
      are not modelled: the OpenMP work-sharing loops are run in index
      order by one thread. *)

From Stdlib Require Import ZArith List Bool Lia Floats FinFun Sorted.
From Stdlib Require String.
Import ListNotations.

Set Warnings "-inexact-float".

Open Scope Z_scope.

(* ================================================================== *)
(** ** Machine integers *)

Definition wrap (w : Z) (z : Z) : Z := (z + 2 ^ (w - 1)) mod 2 ^ w - 2 ^ (w - 1).

Definition INT_MIN : Z := - 2 ^ 31.
Definition INT_MAX : Z := 2 ^ 31 - 1.
Definition LONG_MAX : Z := 2 ^ 63 - 1.

(** [a + b] on [int] and [l++] on [long]. *)
Definition int_add (a b : Z) : Z := wrap 32 (a + b).
Definition long_incr (l : Z) : Z := wrap 64 (l + 1).

Definition in_int (z : Z) : Prop := INT_MIN <= z <= INT_MAX.

(** [for(i=0;i<m;i++)]: the values [i] takes. *)
Definition upto (m : Z) : list Z := map Z.of_nat (seq 0 (Z.to_nat m)).

(** [a[i]] on an [int] or [FLOAT] array held as a list; a read outside
    the array (undefined in C) yields [d]. *)
Definition arr_get {A : Type} (d : A) (a : list A) (i : Z) : A :=
  if i <? 0 then d else nth (Z.to_nat i) a d.

(* ================================================================== *)
(** ** Floating point *)

Definition FLOAT : Type := float.

(** A store of [FLOAT]s addressed by offset. *)
Definition buffer : Type := Z -> FLOAT.

Definition store (b : buffer) (i : Z) (v : FLOAT) : buffer :=
  fun j => if j =? i then v else b j.

(** C's [a > b], [a <= b], [a == 0] on [FLOAT]. *)
Definition fgt (a b : FLOAT) : bool := PrimFloat.ltb b a.
Definition flt (a b : FLOAT) : bool := PrimFloat.ltb a b.
Definition fle (a b : FLOAT) : bool := PrimFloat.leb a b.
Definition feq (a b : FLOAT) : bool := PrimFloat.eqb a b.
Definition fabsF (a : FLOAT) : FLOAT := PrimFloat.abs a.
Definition isfinite (a : FLOAT) : bool := PrimFloat.is_finite a.

(* ================================================================== *)
(** ** The chunk layout and the solution structure *)

(** [RK_MEM_DIST], in the order of its initialiser
    [{ n_chunks, chunk_start, chunk_size, chunk_eps_mult }]. *)
Record RK_MEM_DIST : Type := {
  n_chunks : Z;
  chunk_start : list Z;
  chunk_size : list Z;
  chunk_eps_mult : list FLOAT
}.

Definition start_of (n : RK_MEM_DIST) (k : Z) : Z := arr_get 0 (chunk_start n) k.
Definition size_of (n : RK_MEM_DIST) (k : Z) : Z := arr_get 0 (chunk_size n) k.
Definition eps_mult_of (n : RK_MEM_DIST) (k : Z) : FLOAT :=
  arr_get 0%float (chunk_eps_mult n) k.

(** The right hand side [f(t,x,dest)]: it reads [x] and fills [dest];
    the result is the new contents of [dest]. *)
Definition RK_RightHandSide : Type := FLOAT -> buffer -> buffer -> buffer.

(** The file-scope variables of the solver (one copy per rank).  [K1] is
    [None] while it is [NULL]. *)
Record Statics : Type := {
  K1 : option buffer;
  K3 : buffer;
  K4 : buffer;
  K5 : buffer;
  aux : buffer;
  max_n : Z;
  handle_NAN : Z;
  last_NAN : Z;
  MPIrank : Z;
  MPIprocs : Z;
  MPImaster : Z
}.

Definition uninitialised (g : Statics) : bool :=
  (max_n g =? 0) || match K1 g with None => true | Some _ => false end.

(* ================================================================== *)
(** ** RK_MPI_SA_check_mem *)

(** The body of the [for] loop over the chunks; [inl c] is [return(c)]
    from inside the loop, [inr offset] is the loop left normally. *)
Fixpoint check_mem_loop (n : RK_MEM_DIST) (ks : list Z) (offset : Z) : Z + Z :=
  match ks with
  | [] => inr offset
  | i :: rest =>
      let prev_offset := offset in
      let offset := start_of n i in
      if offset <? prev_offset then inl (-6)
      else
        let prev_offset := offset in
        let offset := int_add offset (size_of n i) in
        if offset <=? prev_offset then inl (-6)
        else check_mem_loop n rest offset
  end.

(** The function reads the statics and the layout; the statics it leaves
    are returned next to the code. *)
Definition RK_MPI_SA_check_mem (n : RK_MEM_DIST) (g : Statics) : Z * Statics :=
  let n_chunks := n_chunks n in
  let offset := 0 in
  if uninitialised g then (-3, g)
  else if n_chunks <=? 0 then (-7, g)
  else
    match check_mem_loop n (upto n_chunks) offset with
    | inl c => (c, g)
    | inr offset => if offset >? max_n g then (-5, g) else (0, g)
    end.

(** *** The placement rules, stated on the layout *)

(** Where chunk [k] may start at the earliest: offset 0 for the first
    chunk, the end of its predecessor for the others. *)
Definition pred_end (n : RK_MEM_DIST) (k : Z) : Z :=
  if k =? 0 then 0 else start_of n (k - 1) + size_of n (k - 1).

Definition chunk_placed (n : RK_MEM_DIST) (k : Z) : Prop :=
  pred_end n k <= start_of n k /\ 0 < size_of n k.

Definition chunk_misplaced (n : RK_MEM_DIST) (k : Z) : Prop :=
  start_of n k < pred_end n k \/ size_of n k <= 0.

Definition last_end (n : RK_MEM_DIST) : Z :=
  start_of n (n_chunks n - 1) + size_of n (n_chunks n - 1).

(** The starts, the sizes and the chunk ends are representable [int]s. *)
Definition layout_in_int (n : RK_MEM_DIST) : Prop :=
  forall k, 0 <= k < n_chunks n ->
    in_int (start_of n k) /\ in_int (size_of n k) /\
    in_int (start_of n k + size_of n k).

(* ================================================================== *)
(** ** The solution structure *)

(** Modelled from the spec: the header [RK_MPI_SAsolver.h] that declares
    the error control modes is not among the sources; the two modes of
    [delta_mode] (spec 4.2) are numbered in the order GLOBAL, LOCAL. *)
Definition DELTA_GLOBAL : Z := 0.
Definition DELTA_LOCAL : Z := 1.

(** Modelled from the spec: the header [RK_MPI_SAsolver.h] that defines the
    commands is not among the sources; the command word is a bit set
    (spec 4.3) and the bits are those the sibling header
    [RK_MPI_Asolver.h] gives to the same names. *)
Definition RKA_CMD_h_TOO_SMALL : Z := 1.
Definition RKA_CMD_NAN : Z := 2.
Definition RKA_CMD_UPDATE : Z := 4.
Definition RKA_CMD_FINISHED : Z := 8.
Definition RKA_CMD_NEXTFINISH : Z := 16.
Definition RKA_CMD_BREAK : Z := 32.

(** [command & c] as a condition, [command |= c]. *)
Definition has (command c : Z) : bool := negb (Z.land command c =? 0).
Definition add_cmd (command c : Z) : Z := Z.lor command c.

(** What [Service_Callback] can read through its [const] pointer to the
    solution structure: the data members. *)
Record SolutionView : Type := {
  v_n : option RK_MEM_DIST;
  v_t : FLOAT;
  v_x : option buffer;
  v_h : FLOAT;
  v_h_min : FLOAT;
  v_delta : FLOAT;
  v_delta_mode : Z;
  v_steps : Z;
  v_steps_total : Z
}.

(** [RK_MPI_S_SOLUTION], in the order of its initialiser in the drivers.
    A pointer member is [None] while it is [NULL].  [meta_f] is given the
    number of its earlier invocations, on which alone its choice may
    depend. *)
Record RK_MPI_S_SOLUTION : Type := {
  sys_n : option RK_MEM_DIST;
  sys_t : FLOAT;
  sys_x : option buffer;
  meta_f : option (nat -> RK_RightHandSide);
  sys_h : FLOAT;
  h_min : FLOAT;
  delta : FLOAT;
  delta_mode : Z;
  DDLBF_Rearrange : option (RK_MEM_DIST -> RK_MEM_DIST);
  Service_Callback : option (FLOAT -> SolutionView -> Z);
  steps : Z;
  steps_total : Z
}.

Definition view (s : RK_MPI_S_SOLUTION) : SolutionView :=
  {| v_n := sys_n s; v_t := sys_t s; v_x := sys_x s; v_h := sys_h s;
     v_h_min := h_min s; v_delta := delta s; v_delta_mode := delta_mode s;
     v_steps := steps s; v_steps_total := steps_total s |}.

Definition zeros : buffer := fun _ => 0%float.

(** [*p] for the two pointers that the pre-flight check has found
    non-[NULL]. *)
Definition the_x (s : RK_MPI_S_SOLUTION) : buffer :=
  match sys_x s with Some b => b | None => zeros end.
Definition the_K1 (g : Statics) : buffer :=
  match K1 g with Some b => b | None => zeros end.

(** Assignments to the members of the solution structure. *)
Definition set_sys_n (v : RK_MEM_DIST) (s : RK_MPI_S_SOLUTION) :=
  {| sys_n := Some v; sys_t := sys_t s; sys_x := sys_x s; meta_f := meta_f s;
     sys_h := sys_h s; h_min := h_min s; delta := delta s;
     delta_mode := delta_mode s; DDLBF_Rearrange := DDLBF_Rearrange s;
     Service_Callback := Service_Callback s; steps := steps s;
     steps_total := steps_total s |}.
Definition set_sys_t (v : FLOAT) (s : RK_MPI_S_SOLUTION) :=
  {| sys_n := sys_n s; sys_t := v; sys_x := sys_x s; meta_f := meta_f s;
     sys_h := sys_h s; h_min := h_min s; delta := delta s;
     delta_mode := delta_mode s; DDLBF_Rearrange := DDLBF_Rearrange s;
     Service_Callback := Service_Callback s; steps := steps s;
     steps_total := steps_total s |}.
Definition set_sys_x (v : buffer) (s : RK_MPI_S_SOLUTION) :=
  {| sys_n := sys_n s; sys_t := sys_t s; sys_x := Some v; meta_f := meta_f s;
     sys_h := sys_h s; h_min := h_min s; delta := delta s;
     delta_mode := delta_mode s; DDLBF_Rearrange := DDLBF_Rearrange s;
     Service_Callback := Service_Callback s; steps := steps s;
     steps_total := steps_total s |}.
Definition set_sys_h (v : FLOAT) (s : RK_MPI_S_SOLUTION) :=
  {| sys_n := sys_n s; sys_t := sys_t s; sys_x := sys_x s; meta_f := meta_f s;
     sys_h := v; h_min := h_min s; delta := delta s;
     delta_mode := delta_mode s; DDLBF_Rearrange := DDLBF_Rearrange s;
     Service_Callback := Service_Callback s; steps := steps s;
     steps_total := steps_total s |}.
Definition set_steps (v : Z) (s : RK_MPI_S_SOLUTION) :=
  {| sys_n := sys_n s; sys_t := sys_t s; sys_x := sys_x s; meta_f := meta_f s;
     sys_h := sys_h s; h_min := h_min s; delta := delta s;
     delta_mode := delta_mode s; DDLBF_Rearrange := DDLBF_Rearrange s;
     Service_Callback := Service_Callback s; steps := v;
     steps_total := steps_total s |}.
Definition set_steps_total (v : Z) (s : RK_MPI_S_SOLUTION) :=
  {| sys_n := sys_n s; sys_t := sys_t s; sys_x := sys_x s; meta_f := meta_f s;
     sys_h := sys_h s; h_min := h_min s; delta := delta s;
     delta_mode := delta_mode s; DDLBF_Rearrange := DDLBF_Rearrange s;
     Service_Callback := Service_Callback s; steps := steps s;
     steps_total := v |}.

(** Assignments to the statics. *)
Definition set_K1 (v : buffer) (g : Statics) :=
  {| K1 := Some v; K3 := K3 g; K4 := K4 g; K5 := K5 g; aux := aux g;
     max_n := max_n g; handle_NAN := handle_NAN g; last_NAN := last_NAN g;
     MPIrank := MPIrank g; MPIprocs := MPIprocs g; MPImaster := MPImaster g |}.
Definition set_K3 (v : buffer) (g : Statics) :=
  {| K1 := K1 g; K3 := v; K4 := K4 g; K5 := K5 g; aux := aux g;
     max_n := max_n g; handle_NAN := handle_NAN g; last_NAN := last_NAN g;
     MPIrank := MPIrank g; MPIprocs := MPIprocs g; MPImaster := MPImaster g |}.
Definition set_K4 (v : buffer) (g : Statics) :=
  {| K1 := K1 g; K3 := K3 g; K4 := v; K5 := K5 g; aux := aux g;
     max_n := max_n g; handle_NAN := handle_NAN g; last_NAN := last_NAN g;
     MPIrank := MPIrank g; MPIprocs := MPIprocs g; MPImaster := MPImaster g |}.
Definition set_K5 (v : buffer) (g : Statics) :=
  {| K1 := K1 g; K3 := K3 g; K4 := K4 g; K5 := v; aux := aux g;
     max_n := max_n g; handle_NAN := handle_NAN g; last_NAN := last_NAN g;
     MPIrank := MPIrank g; MPIprocs := MPIprocs g; MPImaster := MPImaster g |}.
Definition set_aux (v : buffer) (g : Statics) :=
  {| K1 := K1 g; K3 := K3 g; K4 := K4 g; K5 := K5 g; aux := v;
     max_n := max_n g; handle_NAN := handle_NAN g; last_NAN := last_NAN g;
     MPIrank := MPIrank g; MPIprocs := MPIprocs g; MPImaster := MPImaster g |}.
Definition set_handle_NAN (v : Z) (g : Statics) :=
  {| K1 := K1 g; K3 := K3 g; K4 := K4 g; K5 := K5 g; aux := aux g;
     max_n := max_n g; handle_NAN := v; last_NAN := last_NAN g;
     MPIrank := MPIrank g; MPIprocs := MPIprocs g; MPImaster := MPImaster g |}.
Definition set_last_NAN (v : Z) (g : Statics) :=
  {| K1 := K1 g; K3 := K3 g; K4 := K4 g; K5 := K5 g; aux := aux g;
     max_n := max_n g; handle_NAN := handle_NAN g; last_NAN := v;
     MPIrank := MPIrank g; MPIprocs := MPIprocs g; MPImaster := MPImaster g |}.

Definition is_master (g : Statics) : bool := MPIrank g =? MPImaster g.

(** [RK_MPI_SA_handle_NAN] and [RK_MPI_SA_check_NAN]. *)
Definition RK_MPI_SA_handle_NAN (hN : Z) (g : Statics) : Statics :=
  set_handle_NAN (if hN =? 0 then 0 else 1) g.
Definition RK_MPI_SA_check_NAN (g : Statics) : Z := last_NAN g.

(* ================================================================== *)
(** ** One rank inside RK_MPI_SA_solve *)

(** The array a right hand side call fills. [K2] has no array of its own:
    [FLOAT * K2=K3]. *)
Inductive Karray : Type := in_K1 | in_K3 | in_K4 | in_K5.

(** One evaluation of the right hand side, as the solver issued it: the
    time, the contents of the array passed as [x], and the destination. *)
Record RhsCall : Type := {
  call_t : FLOAT;
  call_x : buffer;
  call_dest : Karray
}.

(** What a rank keeps between calls: its statics, the solution structure
    it passes, and two records kept for the statements below: the right
    hand side evaluations issued so far (latest first) and the number of
    [meta_f] invocations. *)
Record Rank : Type := {
  st : Statics;
  sys : RK_MPI_S_SOLUTION;
  rhs_calls : list RhsCall;
  meta_calls : nat
}.

(** The automatic variables of [RK_MPI_SA_solve]. *)
Record Locals : Type := {
  l_final_time : FLOAT;
  l_t : FLOAT;
  l_h : FLOAT;
  l_new_h : FLOAT;
  l_h_min : FLOAT;
  l_delta : FLOAT;
  l_delta_mode : Z;
  l_n : RK_MEM_DIST;
  l_n_chunks : Z;
  l_f : RK_RightHandSide;
  l_command : Z;
  l_eps : FLOAT;
  l_max_eps : FLOAT;
  l_NAN_occurred_local : Z
}.

Definition set_l_t (v : FLOAT) (l : Locals) :=
  {| l_final_time := l_final_time l; l_t := v; l_h := l_h l;
     l_new_h := l_new_h l; l_h_min := l_h_min l; l_delta := l_delta l;
     l_delta_mode := l_delta_mode l; l_n := l_n l;
     l_n_chunks := l_n_chunks l; l_f := l_f l; l_command := l_command l;
     l_eps := l_eps l; l_max_eps := l_max_eps l;
     l_NAN_occurred_local := l_NAN_occurred_local l |}.
Definition set_l_h (v : FLOAT) (l : Locals) :=
  {| l_final_time := l_final_time l; l_t := l_t l; l_h := v;
     l_new_h := l_new_h l; l_h_min := l_h_min l; l_delta := l_delta l;
     l_delta_mode := l_delta_mode l; l_n := l_n l;
     l_n_chunks := l_n_chunks l; l_f := l_f l; l_command := l_command l;
     l_eps := l_eps l; l_max_eps := l_max_eps l;
     l_NAN_occurred_local := l_NAN_occurred_local l |}.
Definition set_l_new_h (v : FLOAT) (l : Locals) :=
  {| l_final_time := l_final_time l; l_t := l_t l; l_h := l_h l;
     l_new_h := v; l_h_min := l_h_min l; l_delta := l_delta l;
     l_delta_mode := l_delta_mode l; l_n := l_n l;
     l_n_chunks := l_n_chunks l; l_f := l_f l; l_command := l_command l;
     l_eps := l_eps l; l_max_eps := l_max_eps l;
     l_NAN_occurred_local := l_NAN_occurred_local l |}.
Definition set_l_n (v : RK_MEM_DIST) (l : Locals) :=
  {| l_final_time := l_final_time l; l_t := l_t l; l_h := l_h l;
     l_new_h := l_new_h l; l_h_min := l_h_min l; l_delta := l_delta l;
     l_delta_mode := l_delta_mode l; l_n := v;
     l_n_chunks := l_n_chunks l; l_f := l_f l; l_command := l_command l;
     l_eps := l_eps l; l_max_eps := l_max_eps l;
     l_NAN_occurred_local := l_NAN_occurred_local l |}.
Definition set_l_n_chunks (v : Z) (l : Locals) :=
  {| l_final_time := l_final_time l; l_t := l_t l; l_h := l_h l;
     l_new_h := l_new_h l; l_h_min := l_h_min l; l_delta := l_delta l;
     l_delta_mode := l_delta_mode l; l_n := l_n l;
     l_n_chunks := v; l_f := l_f l; l_command := l_command l;
     l_eps := l_eps l; l_max_eps := l_max_eps l;
     l_NAN_occurred_local := l_NAN_occurred_local l |}.
Definition set_l_f (v : RK_RightHandSide) (l : Locals) :=
  {| l_final_time := l_final_time l; l_t := l_t l; l_h := l_h l;
     l_new_h := l_new_h l; l_h_min := l_h_min l; l_delta := l_delta l;
     l_delta_mode := l_delta_mode l; l_n := l_n l;
     l_n_chunks := l_n_chunks l; l_f := v; l_command := l_command l;
     l_eps := l_eps l; l_max_eps := l_max_eps l;
     l_NAN_occurred_local := l_NAN_occurred_local l |}.
Definition set_l_command (v : Z) (l : Locals) :=
  {| l_final_time := l_final_time l; l_t := l_t l; l_h := l_h l;
     l_new_h := l_new_h l; l_h_min := l_h_min l; l_delta := l_delta l;
     l_delta_mode := l_delta_mode l; l_n := l_n l;
     l_n_chunks := l_n_chunks l; l_f := l_f l; l_command := v;
     l_eps := l_eps l; l_max_eps := l_max_eps l;
     l_NAN_occurred_local := l_NAN_occurred_local l |}.
Definition set_l_eps (v : FLOAT) (l : Locals) :=
  {| l_final_time := l_final_time l; l_t := l_t l; l_h := l_h l;
     l_new_h := l_new_h l; l_h_min := l_h_min l; l_delta := l_delta l;
     l_delta_mode := l_delta_mode l; l_n := l_n l;
     l_n_chunks := l_n_chunks l; l_f := l_f l; l_command := l_command l;
     l_eps := v; l_max_eps := l_max_eps l;
     l_NAN_occurred_local := l_NAN_occurred_local l |}.
Definition set_l_max_eps (v : FLOAT) (l : Locals) :=
  {| l_final_time := l_final_time l; l_t := l_t l; l_h := l_h l;
     l_new_h := l_new_h l; l_h_min := l_h_min l; l_delta := l_delta l;
     l_delta_mode := l_delta_mode l; l_n := l_n l;
     l_n_chunks := l_n_chunks l; l_f := l_f l; l_command := l_command l;
     l_eps := l_eps l; l_max_eps := v;
     l_NAN_occurred_local := l_NAN_occurred_local l |}.
Definition set_l_NAN_occurred_local (v : Z) (l : Locals) :=
  {| l_final_time := l_final_time l; l_t := l_t l; l_h := l_h l;
     l_new_h := l_new_h l; l_h_min := l_h_min l; l_delta := l_delta l;
     l_delta_mode := l_delta_mode l; l_n := l_n l;
     l_n_chunks := l_n_chunks l; l_f := l_f l; l_command := l_command l;
     l_eps := l_eps l; l_max_eps := l_max_eps l;
     l_NAN_occurred_local := v |}.

(** An activation of [RK_MPI_SA_solve] on a rank. *)
Record Frame : Type := {
  rk : Rank;
  loc : Locals
}.

Definition on_st (u : Statics -> Statics) (a : Frame) : Frame :=
  {| rk := {| st := u (st (rk a)); sys := sys (rk a);
              rhs_calls := rhs_calls (rk a); meta_calls := meta_calls (rk a) |};
     loc := loc a |}.
Definition on_sys (u : RK_MPI_S_SOLUTION -> RK_MPI_S_SOLUTION) (a : Frame) : Frame :=
  {| rk := {| st := st (rk a); sys := u (sys (rk a));
              rhs_calls := rhs_calls (rk a); meta_calls := meta_calls (rk a) |};
     loc := loc a |}.
Definition on_loc (u : Locals -> Locals) (a : Frame) : Frame :=
  {| rk := rk a; loc := u (loc a) |}.

(** The index space of the loop over chunk [k],
    [for(i=0;i<chunk_size;i++)], and of the two nested loops
    [for(k=0;k<n_chunks;k++) ... for(i=0;i<chunk_size;i++)]: the pairs of
    a chunk number and an offset [chunk_start+i], in the order they are
    visited. *)
Definition chunk_cells (n : RK_MEM_DIST) (k : Z) : list (Z * Z) :=
  map (fun i => (k, start_of n k + i)) (upto (size_of n k)).
Definition cells (n : RK_MEM_DIST) (n_chunks : Z) : list (Z * Z) :=
  flat_map (chunk_cells n) (upto n_chunks).

(** A kernel [q[i] = body] run over all chunks on the array [q]. *)
Definition for_chunks (n : RK_MEM_DIST) (n_chunks : Z)
    (body : Z -> buffer -> FLOAT) (q : buffer) : buffer :=
  fold_left (fun q c => store q (snd c) (body (snd c) q)) (cells n n_chunks) q.

(** A group of processes: the master rank of the communicator and the
    other ranks. *)
Record Cluster (A : Type) : Type := {
  root : A;
  peers : list A
}.
Arguments root {A} _.
Arguments peers {A} _.
Arguments Build_Cluster {A} _ _.

Definition ranks {A : Type} (c : Cluster A) : list A := root c :: peers c.
Definition each {A B : Type} (u : A -> B) (c : Cluster A) : Cluster B :=
  {| root := u (root c); peers := map u (peers c) |}.

(** [if(e>eps) eps=e]. *)
Definition max_step (eps e : FLOAT) : FLOAT := if fgt e eps then e else eps.

(** The reduction operators of the collectives: [MPI_MAX] on [FLOAT],
    [MPI_BOR] and [MPI_MIN] on [int]. *)
Definition MPI_MAX (a b : FLOAT) : FLOAT := if flt a b then b else a.
Definition reduce {A V : Type} (op : V -> V -> V) (get : A -> V) (c : Cluster A) : V :=
  fold_left op (map get (peers c)) (get (root c)).

(* ================================================================== *)
(** ** RK_MPI_SA_solve *)

(** What the build supplies: [powF], the C library's [pow] at the
    precision of [FLOAT], and whether [__OPENMP31] is defined (the [max]
    reduction of [eps] is then the language's own, and is otherwise
    folded by hand through [eps_thread_max]). *)
Class Build : Type := {
  powF : FLOAT -> FLOAT -> FLOAT;
  OPENMP31 : bool
}.

(** [while(1) { body }], where the body says whether to [break] and
    with which value: the state and the value the loop is left with, or
    [None] when it is still running after [fuel] iterations. *)
Fixpoint while_1 {St V : Type} (body : St -> St * option V) (fuel : nat) (s : St)
    : option (St * V) :=
  match fuel with
  | O => None
  | S fuel =>
      match body s with
      | (s, Some v) => Some (s, v)
      | (s, None) => while_1 body fuel s
      end
  end.

Section Solver.

Context {build : Build}.

Open Scope float_scope.

(** *** The pre-flight check *)

(** What stands for [*n] while [n] is [NULL]; the pre-flight check keeps
    the solver from reading it. *)
Definition no_layout : RK_MEM_DIST :=
  {| n_chunks := 0; chunk_start := []; chunk_size := []; chunk_eps_mult := [] |}.

(** The value of [error_code] when the rank reaches [MPI_Allreduce]. *)
Definition preflight (r : Rank) : Z :=
  let system := sys r in
  let error_code := 0%Z in
  let error_code :=
    match sys_n system with
    | None => (-5)%Z
    | Some n =>
        let n_chunks := n_chunks n in
        if (int_add (start_of n (n_chunks - 1)) (size_of n (n_chunks - 1))
              >? max_n (st r))%Z
        then (-5)%Z else error_code
    end in
  let error_code := if uninitialised (st r) then (-3)%Z else error_code in
  let error_code :=
    match sys_x system, meta_f system with
    | Some _, Some _ => error_code
    | _, _ => (-2)%Z
    end in
  if is_master (st r) && fle (delta system) 0 then (-2)%Z else error_code.

(** [if(system->meta_f != NULL) f=system->meta_f();] and the other
    initialisations of the automatic variables. *)
Definition enter (final_time : FLOAT) (r : Rank) : Frame :=
  let system := sys r in
  let n := match sys_n system with
           | Some n => n
           | None => no_layout
           end in
  {| rk := {| st := st r; sys := system; rhs_calls := rhs_calls r;
              meta_calls := match meta_f system with
                            | Some _ => S (meta_calls r)
                            | None => meta_calls r
                            end |};
     loc := {| l_final_time := final_time;
               l_t := sys_t system;
               l_h := sys_h system;
               l_new_h := 0;
               l_h_min := h_min system;
               l_delta := delta system;
               l_delta_mode := delta_mode system;
               l_n := n;
               l_n_chunks := n_chunks n;
               l_f := match meta_f system with
                      | Some m => m (meta_calls r)
                      | None => fun _ _ dest => dest
                      end;
               l_command := 0;
               l_eps := 0;
               l_max_eps := 0;
               l_NAN_occurred_local := 0 |} |}.

(** What the rank returns after [MPI_Allreduce] has delivered the
    minimum of the error codes, when that is negative. *)
Definition refuse (error_code : Z) : Z :=
  if negb (error_code =? 0)%Z then error_code else (-6)%Z.

(** *** Before the loop *)

(** The automatic reversal and the initial adjustment of [h], done by
    the master rank. *)
Definition adjust (a : Frame) : Frame :=
  if is_master (st (rk a)) then
    let final_time := l_final_time (loc a) in
    let t := l_t (loc a) in
    let h := l_h (loc a) in
    let h := if (fgt final_time t && flt h 0) || (flt final_time t && fgt h 0)
             then h * (-1) else h in
    if feq h 0 || fle (fabsF (final_time - t)) (fabsF h)
    then on_loc (fun l => set_l_command (add_cmd (l_command l) RKA_CMD_FINISHED)
                            (set_l_h (final_time - t) l)) a
    else on_loc (set_l_h h) a
  else a.

(** The six [MPI_Bcast]s from the master rank. *)
Definition receive (m : Frame) (a : Frame) : Frame :=
  let l := loc a in
  {| rk := {| st := set_handle_NAN (handle_NAN (st (rk m))) (st (rk a));
              sys := sys (rk a); rhs_calls := rhs_calls (rk a);
              meta_calls := meta_calls (rk a) |};
     loc := {| l_final_time := l_final_time (loc m);
               l_t := l_t (loc m);
               l_h := l_h (loc m);
               l_new_h := l_new_h l;
               l_h_min := l_h_min l;
               l_delta := l_delta (loc m);
               l_delta_mode := l_delta_mode (loc m);
               l_n := l_n l;
               l_n_chunks := l_n_chunks l;
               l_f := l_f l;
               l_command := l_command l;
               l_eps := l_eps l;
               l_max_eps := l_max_eps l;
               l_NAN_occurred_local := l_NAN_occurred_local l |} |}.

Definition start (c : Cluster Frame) : Cluster Frame :=
  let c := each (on_st (set_last_NAN 0)) c in
  let c := each adjust c in
  each (receive (root c)) c.

(** *** The coefficients *)

(** [f(tt,arg,dest)]. *)
Definition call_f (dest : Karray) (tt : FLOAT) (arg : buffer) (a : Frame) : Frame :=
  let f := l_f (loc a) in
  let g := st (rk a) in
  {| rk := {| st := match dest with
                    | in_K1 => set_K1 (f tt arg (the_K1 g)) g
                    | in_K3 => set_K3 (f tt arg (K3 g)) g
                    | in_K4 => set_K4 (f tt arg (K4 g)) g
                    | in_K5 => set_K5 (f tt arg (K5 g)) g
                    end;
              sys := sys (rk a);
              rhs_calls := {| call_t := tt; call_x := arg; call_dest := dest |}
                             :: rhs_calls (rk a);
              meta_calls := meta_calls (rk a) |};
     loc := loc a |}.

(** One of the four loops that fill [aux] with the argument of the next
    right hand side evaluation. *)
Definition stage (body : Z -> FLOAT) (a : Frame) : Frame :=
  on_st (set_aux (for_chunks (l_n (loc a)) (l_n_chunks (loc a))
                    (fun i _ => body i) (aux (st (rk a))))) a.

(** The five blocks of the loop body that fill K1, K2 (in the array of
    K3), K3, K4 and K5.  None of them assigns [t], [h] or [x]. *)
Definition eval_K1 (a : Frame) : Frame :=
  call_f in_K1 (l_t (loc a)) (the_x (sys (rk a))) a.

Definition eval_K2 (a : Frame) : Frame :=
  let h3 := l_h (loc a) / 3 in
  let x := the_x (sys (rk a)) in
  let a := stage (fun i => the_K1 (st (rk a)) i * h3 + x i) a in
  call_f in_K3 (l_t (loc a) + h3) (aux (st (rk a))) a.

Definition eval_K3 (a : Frame) : Frame :=
  let h3 := l_h (loc a) / 3 in
  let h6 := l_h (loc a) / 6 in
  let x := the_x (sys (rk a)) in
  let a := stage (fun i => (the_K1 (st (rk a)) i + K3 (st (rk a)) i) * h6 + x i) a in
  call_f in_K3 (l_t (loc a) + h3) (aux (st (rk a))) a.

Definition eval_K4 (a : Frame) : Frame :=
  let h2 := l_h (loc a) / 2 in
  let h8 := l_h (loc a) / 8 in
  let x := the_x (sys (rk a)) in
  let a := stage (fun i => (the_K1 (st (rk a)) i + 3 * K3 (st (rk a)) i) * h8 + x i) a in
  call_f in_K4 (l_t (loc a) + h2) (aux (st (rk a))) a.

Definition eval_K5 (a : Frame) : Frame :=
  let h := l_h (loc a) in
  let x := the_x (sys (rk a)) in
  let a := stage (fun i => (0.5 * the_K1 (st (rk a)) i - 1.5 * K3 (st (rk a)) i
                             + 2 * K4 (st (rk a)) i) * h + x i) a in
  call_f in_K5 (l_t (loc a) + h) (aux (st (rk a))) a.

Definition coefficients (a : Frame) : Frame :=
  eval_K5 (eval_K4 (eval_K3 (eval_K2 (eval_K1 a)))).

(** *** The error estimate *)

(** [e] at one place of the index space. *)
Definition merson_e (g : Statics) (n : RK_MEM_DIST) (c : Z * Z) : FLOAT :=
  let i := snd c in
  eps_mult_of n (fst c)
  * fabsF (0.2 * the_K1 g i - 0.9 * K3 g i + 0.8 * K4 g i - 0.1 * K5 g i).

(** The scan under [if(handle_NAN)], left by [goto nan_occurred] at the
    first [e] that is not finite: [eps] and [NAN_occurred_local]. *)
Fixpoint nan_scan (es : list FLOAT) (eps : FLOAT) : FLOAT * Z :=
  match es with
  | [] => (eps, 0%Z)
  | e :: rest =>
      if negb (isfinite e) then (eps, 1%Z)
      else nan_scan rest (max_step eps e)
  end.

(** The loops of the [else] branch, in their two versions. *)
Definition plain_scan (g : Statics) (n : RK_MEM_DIST) (n_chunks : Z) : FLOAT :=
  if OPENMP31 then
    fold_left max_step (map (merson_e g n) (cells n n_chunks)) 0
  else
    fold_left
      (fun eps k =>
         let eps_thread_max :=
           fold_left max_step (map (merson_e g n) (chunk_cells n k)) 0 in
         if fgt eps_thread_max eps then eps_thread_max else eps)
      (upto n_chunks) 0.

(** [eps] and [NAN_occurred_local] after the error estimate. *)
Definition scan (g : Statics) (n : RK_MEM_DIST) (n_chunks : Z) : FLOAT * Z :=
  if negb (handle_NAN g =? 0)%Z
  then nan_scan (map (merson_e g n) (cells n n_chunks)) 0
  else (plain_scan g n n_chunks, 0%Z).

Definition estimate (a : Frame) : Frame :=
  let a := on_sys (fun s => set_steps_total (long_incr (steps_total s)) s) a in
  let found := scan (st (rk a)) (l_n (loc a)) (l_n_chunks (loc a)) in
  on_loc (fun l => set_l_NAN_occurred_local (snd found) (set_l_eps (fst found) l)) a.

(** After [MPI_Reduce] with [MPI_BOR]: what the master does with
    [NAN_occurred_global]. *)
Definition nan_vote (NAN_occurred_global : Z) (a : Frame) : Frame :=
  if negb (handle_NAN (st (rk a)) =? 0)%Z && is_master (st (rk a))
     && negb (NAN_occurred_global =? 0)%Z
  then
    let l := loc a in
    let command := add_cmd (l_command l) RKA_CMD_NAN in
    let command :=
      if flt (l_h l / (l_final_time l - l_t l)) 1e-11
      then add_cmd command RKA_CMD_h_TOO_SMALL else command in
    on_loc (set_l_command command) a
  else a.

(** After [MPI_Allreduce] with [MPI_MAX] has delivered [max_eps]: the
    new time step, and on the master the decision. *)
Definition decide (max_eps : FLOAT) (a : Frame) : Frame :=
  let l := loc a in
  let h := l_h l in
  let h3 := h / 3 in
  let max_eps := if (l_delta_mode l =? DELTA_LOCAL)%Z
                 then max_eps * fabsF h3 else max_eps in
  let new_h := (if fgt max_eps 0 then powF (l_delta l / max_eps) 0.2 * 0.8
                else 2) * h in
  let command := l_command l in
  let command :=
    if is_master (st (rk a)) then
      if flt max_eps (l_delta l) || flt (fabsF h) (l_h_min l) then
        let command := add_cmd command RKA_CMD_UPDATE in
        if fle (fabsF (l_final_time l - (l_t l + h))) (fabsF new_h)
        then add_cmd command RKA_CMD_NEXTFINISH else command
      else command
    else command in
  on_loc (fun l => set_l_command command
                     (set_l_new_h new_h (set_l_max_eps max_eps l))) a.

(** [MPI_Bcast(&command,...)]. *)
Definition bcast_command (c : Cluster Frame) : Cluster Frame :=
  each (on_loc (set_l_command (l_command (loc (root c))))) c.

(** The step attempt up to the first broadcast of the command. *)
Definition propose (c : Cluster Frame) : Cluster Frame :=
  let c := each (fun a => estimate (coefficients a)) c in
  let c := each (nan_vote (reduce Z.lor (fun a => l_NAN_occurred_local (loc a)) c)) c in
  let c := each (decide (reduce MPI_MAX (fun a => l_eps (loc a)) c)) c in
  bcast_command c.

(** *** Handling the command *)

(** [RKA_CMD_NAN] with [RKA_CMD_h_TOO_SMALL]: the rank leaves the loop
    with [return_value = -4]. *)
Definition give_up_NAN (a : Frame) : Frame :=
  let a := on_st (set_last_NAN 1) a in
  on_sys (set_sys_t (l_t (loc a))) a.

(** [RKA_CMD_NAN] alone: try again with a smaller time step. *)
Definition retry_NAN (a : Frame) : Frame :=
  let a := on_st (set_last_NAN 1) a in
  on_loc (fun l => set_l_command 0 (set_l_h (l_h l / 10) l)) a.

(** [RKA_CMD_UPDATE], up to the second broadcast of the command. *)
Definition update (a : Frame) : Frame :=
  let h := l_h (loc a) in
  let h3 := h / 3 in
  let a := on_loc (fun l => set_l_t (l_t l + h) l) a in
  let g := st (rk a) in
  let a := on_sys (fun s =>
             set_sys_x (for_chunks (l_n (loc a)) (l_n_chunks (loc a))
                          (fun i q => q i + h3 * (0.5 * (the_K1 g i + K5 g i)
                                                  + 2 * K4 g i))
                          (the_x s)) s) a in
  let a := on_sys (fun s => set_steps (long_incr (steps s)) s) a in
  match Service_Callback (sys (rk a)) with
  | None => a
  | Some callback =>
      let a := on_sys (fun s => set_sys_h h (set_sys_t (l_t (loc a)) s)) a in
      if negb (callback (l_final_time (loc a)) (view (sys (rk a))) =? 0)%Z
      then on_loc (fun l => set_l_command (add_cmd (l_command l) RKA_CMD_BREAK) l) a
      else a
  end.

(** Leaving the loop on [RKA_CMD_BREAK] with [return_value = 1]. *)
Definition interrupted (a : Frame) : Frame :=
  on_sys (fun s => set_sys_h (l_new_h (loc a)) (set_sys_t (l_t (loc a)) s)) a.

(** [DDLBF_Rearrange] and [meta_f] after a successful step. *)
Definition rearrange (a : Frame) : Frame :=
  let a :=
    match DDLBF_Rearrange (sys (rk a)) with
    | None => a
    | Some callback =>
        let n := callback (l_n (loc a)) in
        on_loc (fun l => set_l_n_chunks (n_chunks n) (set_l_n n l))
               (on_sys (set_sys_n n) a)
    end in
  match meta_f (sys (rk a)) with
  | None => a
  | Some m =>
      {| rk := {| st := st (rk a); sys := sys (rk a);
                  rhs_calls := rhs_calls (rk a);
                  meta_calls := S (meta_calls (rk a)) |};
         loc := set_l_f (m (meta_calls (rk a))) (loc a) |}
  end.

(** The last [omp single] block of the loop body. *)
Definition advance (a : Frame) : Frame :=
  let l := loc a in
  if has (l_command l) RKA_CMD_NEXTFINISH then
    let a := on_sys (set_sys_h (l_new_h l)) a in
    on_loc (fun l => set_l_command RKA_CMD_FINISHED
                       (set_l_h (l_final_time l - l_t l) l)) a
  else
    on_loc (fun l => set_l_h (l_new_h l) (set_l_command 0 l)) a.

(** One iteration of [while(1)] on all ranks: the states after it, and
    [Some return_value] when the ranks have left the loop. *)
Definition attempt (c : Cluster Frame) : Cluster Frame * option Z :=
  let c := propose c in
  let command := l_command (loc (root c)) in
  if has command RKA_CMD_NAN then
    if has command RKA_CMD_h_TOO_SMALL
    then (each give_up_NAN c, Some (-4)%Z)
    else (each retry_NAN c, None)
  else if has command RKA_CMD_UPDATE then
    let c := bcast_command (each update c) in
    let command := l_command (loc (root c)) in
    if has command RKA_CMD_FINISHED then (c, Some 0%Z)
    else if has command RKA_CMD_BREAK then (each interrupted c, Some 1%Z)
    else (each (fun a => advance (rearrange a)) c, None)
  else (each advance c, None).

(** The loop, for at most [fuel] iterations; [None] when the ranks are
    still inside it after that many. *)
Definition iterate (fuel : nat) (c : Cluster Frame) : option (Cluster Frame * Z) :=
  while_1 attempt fuel c.

(** [if(!return_value) system->t=t; return(return_value);] *)
Definition leave (return_value : Z) (a : Frame) : Z * Rank :=
  (return_value,
   rk (if (return_value =? 0)%Z then on_sys (set_sys_t (l_t (loc a))) a else a)).

(** The call of [RK_MPI_SA_solve(final_time, system)] made by every rank
    of the communicator, each with its own arguments.  The result is what
    each rank is returned and left with; [None] when the ranks are still
    in the loop after [fuel] step attempts. *)
Definition RK_MPI_SA_solve (fuel : nat) (c : Cluster (FLOAT * Rank))
    : option (Cluster (Z * Rank)) :=
  let codes := each (fun p => preflight (snd p)) c in
  let c := each (fun p => enter (fst p) (snd p)) c in
  let errcode_from_others := reduce Z.min (fun e => e) codes in
  if (errcode_from_others <? 0)%Z then
    Some {| root := (refuse (root codes), rk (root c));
            peers := map (fun p => (refuse (fst p), rk (snd p)))
                         (combine (peers codes) (peers c)) |}
  else
    match iterate fuel (start c) with
    | Some (c, return_value) => Some (each (leave return_value) c)
    | None => None
    end.

End Solver.

(* ================================================================== *)
(** ** RK_MPI_SA_init and RK_MPI_SA_cleanup *)

(** What a call of [RK_MPI_SA_init] finds around it: the answers of
    [MPI_Comm_rank] and [MPI_Comm_size] for the communicator ([None] when
    the call does not return [MPI_SUCCESS]), and the blocks the five calls
    of [malloc] deliver, with the contents they happen to have ([None]
    for [NULL]). *)
Record InitEnv : Type := {
  comm_rank : option Z;
  comm_size : option Z;
  malloc_K1 : option buffer;
  malloc_K3 : option buffer;
  malloc_K4 : option buffer;
  malloc_K5 : option buffer;
  malloc_aux : option buffer
}.

(** Of the five pointers only [K1] is ever compared with [NULL] after
    the allocation, and the statics keep the contents of the other four
    blocks only; [zeros] stands for the contents of a block that was not
    delivered. *)
Definition the_block (m : option buffer) : buffer :=
  match m with Some b => b | None => zeros end.

Definition set_MPIrank (v : Z) (g : Statics) :=
  {| K1 := K1 g; K3 := K3 g; K4 := K4 g; K5 := K5 g; aux := aux g;
     max_n := max_n g; handle_NAN := handle_NAN g; last_NAN := last_NAN g;
     MPIrank := v; MPIprocs := MPIprocs g; MPImaster := MPImaster g |}.
Definition set_MPIprocs (v : Z) (g : Statics) :=
  {| K1 := K1 g; K3 := K3 g; K4 := K4 g; K5 := K5 g; aux := aux g;
     max_n := max_n g; handle_NAN := handle_NAN g; last_NAN := last_NAN g;
     MPIrank := MPIrank g; MPIprocs := v; MPImaster := MPImaster g |}.
Definition set_MPImaster (v : Z) (g : Statics) :=
  {| K1 := K1 g; K3 := K3 g; K4 := K4 g; K5 := K5 g; aux := aux g;
     max_n := max_n g; handle_NAN := handle_NAN g; last_NAN := last_NAN g;
     MPIrank := MPIrank g; MPIprocs := MPIprocs g; MPImaster := v |}.
Definition set_max_n (v : Z) (g : Statics) :=
  {| K1 := K1 g; K3 := K3 g; K4 := K4 g; K5 := K5 g; aux := aux g;
     max_n := v; handle_NAN := handle_NAN g; last_NAN := last_NAN g;
     MPIrank := MPIrank g; MPIprocs := MPIprocs g; MPImaster := MPImaster g |}.

(** The five assignments of the results of [malloc(size)] to [K1],
    [K3], [K4], [K5] and [aux]. *)
Definition allocate (env : InitEnv) (g : Statics) : Statics :=
  {| K1 := malloc_K1 env; K3 := the_block (malloc_K3 env);
     K4 := the_block (malloc_K4 env); K5 := the_block (malloc_K5 env);
     aux := the_block (malloc_aux env);
     max_n := max_n g; handle_NAN := handle_NAN g; last_NAN := last_NAN g;
     MPIrank := MPIrank g; MPIprocs := MPIprocs g; MPImaster := MPImaster g |}.

(** [RK_MPI_SA_init(max_block_size, comm, master_rank)]: the code
    returned and the statics left.  [MPI_Comm_size] is not asked when
    [MPI_Comm_rank] has failed.  After [free] the pointers keep their
    values. *)
Definition RK_MPI_SA_init (max_block_size : Z) (env : InitEnv) (master_rank : Z)
    (g : Statics) : Z * Statics :=
  match comm_rank env with
  | None => (-4, g)
  | Some rank =>
      let g := set_MPIrank rank g in
      match comm_size env with
      | None => (-4, g)
      | Some procs =>
          let g := set_MPIprocs procs g in
          if negb (max_n g =? 0) then (-3, g)
          else if max_block_size <=? 0 then (-2, g)
          else
            let g := allocate env g in
            match malloc_aux env with
            | None => (-1, g)
            | Some _ =>
                let g := set_max_n max_block_size g in
                let g := set_last_NAN 0 g in
                let g := set_MPImaster master_rank g in
                (0, g)
            end
      end
  end.

(** [RK_MPI_SA_cleanup()]. *)
Definition RK_MPI_SA_cleanup (g : Statics) : Z * Statics :=
  if uninitialised g then (-3, g)
  else
    let g := set_max_n 0 g in
    (0, g).

(** The statics of a process before the first call of
    [RK_MPI_SA_init]: [K1=NULL], [max_n=0], [handle_NAN=0], [last_NAN=0];
    the other variables have no initialiser. *)
Definition g_fresh (others : Statics) : Statics :=
  {| K1 := None; K3 := K3 others; K4 := K4 others; K5 := K5 others;
     aux := aux others; max_n := 0; handle_NAN := 0; last_NAN := 0;
     MPIrank := MPIrank others; MPIprocs := MPIprocs others;
     MPImaster := MPImaster others |}.

(** An environment in which every call succeeds. *)
Definition env_ok (rank procs : Z) : InitEnv :=
  {| comm_rank := Some rank; comm_size := Some procs;
     malloc_K1 := Some zeros; malloc_K3 := Some zeros; malloc_K4 := Some zeros;
     malloc_K5 := Some zeros; malloc_aux := Some zeros |}.

(** An environment in which the first block is not delivered and the
    last one is. *)
Definition env_short (rank procs : Z) : InitEnv :=
  {| comm_rank := Some rank; comm_size := Some procs;
     malloc_K1 := None; malloc_K3 := Some zeros; malloc_K4 := Some zeros;
     malloc_K5 := Some zeros; malloc_aux := Some zeros |}.
(* ================================================================== *)
(** ** The driver apps/intertrack-hybrid-S-freezing/intertrack.c

    What the driver does around its calls of the solver: the translation
    of ranks that decides which process is the master, the share of the
    grid rows of each rank, the chunk layout it builds for its block of
    the grid, and the tables of messages for the codes of
    [RK_MPI_SA_init] and [RK_MPI_SA_check_mem].  The [int] arithmetic of
    the driver is written in [Z]; the theorems about it assume that the
    size of the block is a representable [int], and then no intermediate
    value is outside the range. *)

Module intertrack.

(** [a[i] = v] on an array held as a list; a write outside the array
    (undefined in C) leaves the list as it is. *)
Fixpoint arr_set_nat {A : Type} (a : list A) (i : nat) (v : A) : list A :=
  match a, i with
  | [], _ => []
  | _ :: rest, O => v :: rest
  | x :: rest, S i => x :: arr_set_nat rest i v
  end.

Definition arr_set {A : Type} (a : list A) (i : Z) (v : A) : list A :=
  if i <? 0 then a else arr_set_nat a (Z.to_nat i) v.

(** *** The rank permutation *)

(** [BuildRankMap(master_rank)]: the contents of [MPIrankmap]
    ([MPIprocs] entries) after the call. *)
Definition BuildRankMap (MPIprocs master_rank : Z) : list Z :=
  let MPIrankmap := upto MPIprocs in
  let MPIrankmap := arr_set MPIrankmap master_rank 0 in
  arr_set MPIrankmap 0 master_rank.

(** [if(MPImaster<0 || MPImaster>=MPIprocs) MPImaster=0;] *)
Definition clamp_master (MPIprocs MPImaster : Z) : Z :=
  if (MPImaster <? 0) || (MPImaster >=? MPIprocs) then 0 else MPImaster.

(** [for(q=0;q<MPIprocs;q++) if(MPIrankmap[q]==MPIrank) { MPIrank=q; break; }]:
    the value of [MPIrank] after the loop. *)
Definition virtual_rank (MPIprocs : Z) (MPIrankmap : list Z) (MPIrank : Z) : Z :=
  match find (fun q => arr_get 0 MPIrankmap q =? MPIrank) (upto MPIprocs) with
  | Some q => q
  | None => MPIrank
  end.

(** The start of [main]: the master rank given on the command line is
    put into range, the map is built, and [MPIrank] becomes the virtual
    rank.  The result is [(MPImaster, MPIrankmap, MPIrank)]. *)
Definition translate_ranks (MPIprocs master_arg real_rank : Z) : Z * list Z * Z :=
  let MPImaster := clamp_master MPIprocs master_arg in
  let MPIrankmap := BuildRankMap MPIprocs MPImaster in
  (MPImaster, MPIrankmap, virtual_rank MPIprocs MPIrankmap real_rank).

(** *** The rows of a rank *)

(** [n3] and [first_row] of the (virtual) rank [MPIrank]; [/] and [%] on
    [int] truncate. *)
Definition rows (total_n3 MPIprocs MPIrank : Z) : Z * Z :=
  let n3 := total_n3 ÷ MPIprocs in
  let first_row := MPIrank * n3 in
  if MPIrank <? Z.rem total_n3 MPIprocs
  then (n3 + 1, first_row + MPIrank)
  else (n3, first_row + Z.rem total_n3 MPIprocs).

(** *** The chunk layout *)

(** The dimensions of the block of one rank. *)
Record Grid : Type := {
  n1 : Z;
  n2 : Z;
  n3 : Z;
  bcond_thickness : Z
}.

Section Layout.

(** The number of unknown fields; the macro is defined in a header of the
    model, and the driver is embedded for any value of it. *)
Variable VAR_COUNT : Z.
Variable d : Grid.

Definition N1 : Z := n1 d + 2 * bcond_thickness d.
Definition N2 : Z := n2 d + 2 * bcond_thickness d.
Definition N3 : Z := n3 d + 2 * bcond_thickness d.
Definition rowsize : Z := N1 * N2.
Definition subgridSIZE : Z := rowsize * N3.

(** The three nested [for] loops over [q], [k] and [j] with [c++] in the
    body: the values assigned to the entries [0], [1], ... of an array. *)
Definition fill {A : Type} (v : Z -> Z -> Z -> A) : list A :=
  flat_map (fun q =>
    flat_map (fun k =>
      map (fun j => v q k j) (upto (n2 d)))
      (upto (n3 d)))
    (upto VAR_COUNT).

(** [RK_MEM_DIST mem_dist = { n_chunks, chunk_start, chunk_size, chunk_eps_mult }] *)
Definition mem_dist : RK_MEM_DIST :=
  {| n_chunks := VAR_COUNT * n2 d * n3 d;
     chunk_start :=
       fill (fun q k j => q * subgridSIZE + (k + bcond_thickness d) * rowsize
                          + (j + bcond_thickness d) * N1 + bcond_thickness d);
     chunk_size := fill (fun _ _ _ => n1 d);
     chunk_eps_mult := fill (fun _ _ _ => 1%float) |}.

(** [q=RK_MPI_SA_init(VAR_COUNT*subgridSIZE, MPI_COMM_WORLD, MPImaster)]
    followed by [RK_MPI_SA_check_mem(&mem_dist)]: the two codes. *)
Definition init_and_check (env : InitEnv) (MPImaster : Z) (g : Statics) : Z * Z :=
  let (q, g) := RK_MPI_SA_init (VAR_COUNT * subgridSIZE) env MPImaster g in
  (q, fst (RK_MPI_SA_check_mem mem_dist g)).

End Layout.

(** *** The messages *)

Section Messages.

Import String.StringSyntax.
Local Open Scope string_scope.

Definition RK_Init_errors : list String.string :=
  [ "RK_MPI_SA_init: Not enough memory.";
    "Invalid block dimension." ].

Definition RK_mem_dist_errors : list String.string :=
  [ String.EmptyString; String.EmptyString;
    "RK_MPI_SA_check_mem: unitialized.";
    String.EmptyString;
    "RK_MPI_SA_check_mem: chunks out of memory";
    "RK_MPI_SA_check_mem: invalid chunk specification";
    "RK_MPI_SA_check_mem: number of chunks is negative or zero" ].

End Messages.

(** [err_messg[index]]; [None] for a read outside the table (undefined
    in C). *)
Definition entry (err_messg : list String.string) (index : Z) : option String.string :=
  if index <? 0 then None else nth_error err_messg (Z.to_nat index).

(** [CheckErrorAcrossRanks(error, code, err_messg)] on the master, for
    more than one process: [errors] holds the gathered [error] of each
    rank in the order of the real ranks.  The result lists, for each [i]
    that the loop reports, [i] and the index at which [err_messg] is
    read, [errors[MPIrankmap[i]]-1]. *)
Definition reports (MPIprocs : Z) (MPIrankmap errors : list Z) : list (Z * Z) :=
  flat_map (fun i =>
              if arr_get 0 errors i =? 0 then []
              else [(i, arr_get 0 errors (arr_get 0 MPIrankmap i) - 1)])
           (upto MPIprocs).

(** The same for one process: [err_messg[error-1]] is printed when
    [error] is not 0. *)
Inductive Report : Type :=
| no_error
| message (s : String.string)
| outside_table.

Definition report_single (err_messg : list String.string) (error : Z) : Report :=
  if error =? 0 then no_error
  else match entry err_messg (error - 1) with
       | Some s => message s
       | None => outside_table
       end.

End intertrack.

(* ================================================================== *)
(** ** Vocabulary of the statements *)

(** The offsets of [x] that lie inside a chunk, in the order the loops
    visit them. *)
Definition offsets (n : RK_MEM_DIST) (n_chunks : Z) : list Z :=
  map snd (cells n n_chunks).

(** The layout [n] with other error weights. *)
Definition with_eps_mult (m : list FLOAT) (n : RK_MEM_DIST) : RK_MEM_DIST :=
  {| n_chunks := n_chunks n; chunk_start := chunk_start n;
     chunk_size := chunk_size n; chunk_eps_mult := m |}.

Definition LONG_MIN : Z := - 2 ^ 63.

(** A counter that can be incremented without leaving [long]. *)
Definition can_count (v : Z) : Prop := LONG_MIN <= v < LONG_MAX.

(** The state after [k] iterations of a loop, or the one it was left
    with if it ended before. *)
Fixpoint state_after {St V : Type} (body : St -> St * option V) (k : nat) (s : St) : St :=
  match k with
  | O => s
  | S k =>
      match body s with
      | (s', Some _) => s'
      | (s', None) => state_after body k s'
      end
  end.

Section AttemptVocabulary.

Context {build : Build}.

(** The ranks when they meet in the collectives of a step attempt: the
    coefficients are computed and the local error estimate is taken. *)
Definition measured (c : Cluster Frame) : Cluster Frame :=
  each (fun a => estimate (coefficients a)) c.

(** What [MPI_Reduce] delivers to the master and [MPI_Allreduce] to
    every rank in the attempt that starts from [c]. *)
Definition NAN_occurred_global (c : Cluster Frame) : Z :=
  reduce Z.lor (fun a => l_NAN_occurred_local (loc a)) (measured c).
Definition all_max_eps (c : Cluster Frame) : FLOAT :=
  reduce MPI_MAX (fun a => l_eps (loc a)) (measured c).

(** The command word the master broadcasts in that attempt. *)
Definition command_of (c : Cluster Frame) : Z :=
  l_command (loc (root (propose c))).

(** The command of a rank after the master has looked at
    [NAN_occurred_global]. *)
Definition nan_command (G : Z) (a : Frame) : Z :=
  if negb (handle_NAN (st (rk a)) =? 0) && is_master (st (rk a)) && negb (G =? 0)
  then
    let command := add_cmd (l_command (loc a)) RKA_CMD_NAN in
    if flt (l_h (loc a) / (l_final_time (loc a) - l_t (loc a)))%float 1e-11%float
    then add_cmd command RKA_CMD_h_TOO_SMALL else command
  else l_command (loc a).

(** A rank when the command [command] has reached it, and after its
    part of an accepted step when the second broadcast has delivered
    [command2]. *)
Definition proposal (G : Z) (M : FLOAT) (command : Z) (a : Frame) : Frame :=
  on_loc (set_l_command command)
         (decide M (nan_vote G (estimate (coefficients a)))).
Definition accepted (command2 : Z) (a : Frame) : Frame :=
  on_loc (set_l_command command2) (update a).

(** The command of the master when the loop body is entered: nothing,
    or [RKA_CMD_FINISHED] when the step to come ends at [final_time]. *)
Definition loop_top (c : Cluster Frame) : Prop :=
  l_command (loc (root c)) = 0 \/ l_command (loc (root c)) = RKA_CMD_FINISHED.

(** The error the tolerance is compared with: the reduced error, under
    [DELTA_LOCAL] times [|h/3|]. *)
Definition reported_eps (max_eps : FLOAT) (a : Frame) : FLOAT :=
  if l_delta_mode (loc a) =? DELTA_LOCAL
  then (max_eps * fabsF (l_h (loc a) / 3))%float else max_eps.

(** The proposed next step. *)
Definition h_new (max_eps : FLOAT) (a : Frame) : FLOAT :=
  let eps := reported_eps max_eps a in
  if fgt eps 0%float
  then (0.8 * powF (l_delta (loc a) / eps) 0.2 * l_h (loc a))%float
  else (2 * l_h (loc a))%float.

(** The two comparisons the master makes on an acceptable error, and
    the command it broadcasts, on the frame [a] it entered the iteration
    with. *)
Definition accepts (max_eps : FLOAT) (a : Frame) : bool :=
  flt (reported_eps max_eps a) (l_delta (loc a))
  || flt (fabsF (l_h (loc a))) (l_h_min (loc a)).

Definition next_finishes (max_eps : FLOAT) (a : Frame) : bool :=
  fle (fabsF (l_final_time (loc a) - (l_t (loc a) + l_h (loc a)))%float)
      (fabsF (h_new max_eps a)).

Definition master_command (G : Z) (max_eps : FLOAT) (a : Frame) : Z :=
  let command := nan_command G a in
  if is_master (st (rk a)) then
    if accepts max_eps a then
      let command := add_cmd command RKA_CMD_UPDATE in
      if next_finishes max_eps a
      then add_cmd command RKA_CMD_NEXTFINISH else command
    else command
  else command.

(** The error estimates of a rank in the attempt that starts from [a]:
    [e] at every place of its chunks, in the order of the loops. *)
Definition rank_errors (a : Frame) : list FLOAT :=
  map (merson_e (st (rk (coefficients a))) (l_n (loc a)))
      (cells (l_n (loc a)) (l_n_chunks (loc a))).

Definition all_errors (c : Cluster Frame) : list FLOAT :=
  flat_map rank_errors (ranks c).

(** [m] is the maximum of the estimates [es]: it is one of them, or the
    0 the search starts from, and none of them is above it (a NaN is
    above nothing). *)
Definition is_maximum (m : FLOAT) (es : list FLOAT) : Prop :=
  (m = 0%float \/ In m es) /\ forall e, In e es -> flt m e = false.

(** One turn of the search that merges the maxima of the parts [E k],
    as the loop with [eps_thread_max] does. *)
Definition merge_part {K : Type} (E : K -> list FLOAT) (eps : FLOAT) (k : K) : FLOAT :=
  if fgt (fold_left max_step (E k) 0%float) eps
  then fold_left max_step (E k) 0%float else eps.

(** The scan of the rank runs over all its chunks: NaN handling is off,
    or every estimate is finite. *)
Definition scanned_fully (a : Frame) : Prop :=
  handle_NAN (st (rk a)) = 0 \/ forallb isfinite (rank_errors a) = true.

(** The command of a rank after the decision on the reduced error. *)
Definition decided_command (M : FLOAT) (b : Frame) : Z :=
  if is_master (st (rk b)) then
    if flt (reported_eps M b) (l_delta (loc b))
       || flt (fabsF (l_h (loc b))) (l_h_min (loc b))
    then
      let command := add_cmd (l_command (loc b)) RKA_CMD_UPDATE in
      if fle (fabsF (l_final_time (loc b) - (l_t (loc b) + l_h (loc b)))%float)
             (fabsF (h_new M b))
      then add_cmd command RKA_CMD_NEXTFINISH else command
    else l_command (loc b)
  else l_command (loc b).

(** [eps] of a rank when the ranks meet in [MPI_Allreduce]. *)
Definition eps_of (a : Frame) : FLOAT :=
  fst (scan (st (rk (coefficients a))) (l_n (loc a)) (l_n_chunks (loc a))).

(** The array [x] after the update loop of an accepted step. *)
Definition updated_x (a : Frame) : buffer :=
  for_chunks (l_n (loc a)) (l_n_chunks (loc a))
    (fun i q => (q i + l_h (loc a) / 3
                       * (0.5 * (the_K1 (st (rk a)) i + K5 (st (rk a)) i)
                          + 2 * K4 (st (rk a)) i))%float)
    (the_x (sys (rk a))).

(** What a step attempt does to a rank, from the frame [a] before it
    to the frame [a'] after it: [steps_total] is counted up; the step
    is taken; the step is refused and the proposed [h_new] is the next
    [h]. *)
Definition counted_once (a a' : Frame) : Prop :=
  can_count (steps_total (sys (rk a))) ->
  steps_total (sys (rk a')) = steps_total (sys (rk a)) + 1.

Definition step_taken (a a' : Frame) : Prop :=
  let g := st (rk (coefficients a)) in
  let inside := offsets (l_n (loc a)) (l_n_chunks (loc a)) in
  (NoDup inside ->
   forall i, In i inside ->
     the_x (sys (rk a')) i =
     (the_x (sys (rk a)) i
      + l_h (loc a) / 3 * (0.5 * (the_K1 g i + K5 g i) + 2 * K4 g i))%float) /\
  l_t (loc a') = (l_t (loc a) + l_h (loc a))%float /\
  (can_count (steps (sys (rk a))) ->
   steps (sys (rk a')) = steps (sys (rk a)) + 1).

Definition step_refused (max_eps : FLOAT) (a a' : Frame) : Prop :=
  sys_x (sys (rk a')) = sys_x (sys (rk a)) /\
  sys_t (sys (rk a')) = sys_t (sys (rk a)) /\
  l_t (loc a') = l_t (loc a) /\
  steps (sys (rk a')) = steps (sys (rk a)) /\
  l_h (loc a') = h_new max_eps a.


(** The test of the master for a time step too small to divide further,
    and the same test on absolute values. *)
Definition nan_floor (a : Frame) : bool :=
  flt (l_h (loc a) / (l_final_time (loc a) - l_t (loc a)))%float 1e-11%float.



(** The frames after [k] more iterations of the loop, or those the loop
    was left with if it ended before. *)
Definition after_attempts (k : nat) (c : Cluster Frame) : Cluster Frame :=
  state_after attempt k c.

(** The frames of the ranks when they enter the loop. *)
Definition at_loop (c : Cluster (FLOAT * Rank)) : Cluster Frame :=
  start (each (fun p => enter (fst p) (snd p)) c).

(** The frame of the master after its adjustment of [h], which is what
    the six broadcasts send, and the frame of the rank [p] when it has
    received them. *)
Definition master_frame (c : Cluster (FLOAT * Rank)) : Frame :=
  adjust (on_st (set_last_NAN 0) (enter (fst (root c)) (snd (root c)))).

Definition entering (c : Cluster (FLOAT * Rank)) (p : FLOAT * Rank) : Frame :=
  receive (master_frame c) (adjust (on_st (set_last_NAN 0) (enter (fst p) (snd p)))).

End AttemptVocabulary.

(** The layouts a rank goes through: the one it passes to
    [RK_MPI_SA_solve], and those [DDLBF_Rearrange] makes of it. *)
Definition rearranged (r : Rank) (k : nat) : RK_MEM_DIST :=
  Nat.iter k
    (match DDLBF_Rearrange (sys r) with Some callback => callback | None => fun n => n end)
    (match sys_n (sys r) with Some n => n | None => no_layout end).

(** The offset [i] lies in a gap: it is inside no chunk of any of these
    layouts. *)
Definition in_gap (r : Rank) (i : Z) : Prop :=
  forall k, ~ In i (offsets (rearranged r k) (n_chunks (rearranged r k))).

(** The array [x] of the frame [a] holds outside the chunks what the
    rank [r] passed in. *)
Definition gaps_kept (r : Rank) (s : RK_MPI_S_SOLUTION) : Prop :=
  forall i, in_gap r i -> the_x s i = the_x (sys r) i.

(** What one block leaves as it was, and what it evaluates. *)
Record block_of (dest : Karray) (tt : FLOAT) (arg : buffer) (a b : Frame) : Prop := {
  block_loc : loc b = loc a;
  block_sys : sys (rk b) = sys (rk a);
  block_meta : meta_calls (rk b) = meta_calls (rk a);
  block_calls :
    rhs_calls (rk b) =
    {| call_t := tt; call_x := arg; call_dest := dest |} :: rhs_calls (rk a);
  block_aux : aux (st (rk b)) =
              match dest with in_K1 => aux (st (rk a)) | _ => arg end;
  block_K1 : the_K1 (st (rk b)) =
             match dest with
             | in_K1 => l_f (loc a) tt arg (the_K1 (st (rk a)))
             | _ => the_K1 (st (rk a))
             end;
  block_K3 : K3 (st (rk b)) =
             match dest with
             | in_K3 => l_f (loc a) tt arg (K3 (st (rk a)))
             | _ => K3 (st (rk a))
             end;
  block_K4 : K4 (st (rk b)) =
             match dest with
             | in_K4 => l_f (loc a) tt arg (K4 (st (rk a)))
             | _ => K4 (st (rk a))
             end;
  block_K5 : K5 (st (rk b)) =
             match dest with
             | in_K5 => l_f (loc a) tt arg (K5 (st (rk a)))
             | _ => K5 (st (rk a))
             end;
  block_other :
    max_n (st (rk b)) = max_n (st (rk a)) /\
    handle_NAN (st (rk b)) = handle_NAN (st (rk a)) /\
    last_NAN (st (rk b)) = last_NAN (st (rk a)) /\
    MPIrank (st (rk b)) = MPIrank (st (rk a)) /\
    MPImaster (st (rk b)) = MPImaster (st (rk a))
}.


(** What the loop keeps of a rank [r] in its frame [a]. *)
Definition framed (r : Rank) (a : Frame) : Prop :=
  DDLBF_Rearrange (sys (rk a)) = DDLBF_Rearrange (sys r) /\
  (exists k, l_n (loc a) = rearranged r k) /\
  l_n_chunks (loc a) = n_chunks (l_n (loc a)) /\
  gaps_kept r (sys (rk a)).

(** A step that touches neither [x], nor the layout, nor the callback. *)
Definition untouched (a b : Frame) : Prop :=
  DDLBF_Rearrange (sys (rk b)) = DDLBF_Rearrange (sys (rk a)) /\
  l_n (loc b) = l_n (loc a) /\
  l_n_chunks (loc b) = l_n_chunks (loc a) /\
  sys_x (sys (rk b)) = sys_x (sys (rk a)).

(* ================================================================== *)
(** ** Sample data *)

(** An initialised solver for blocks of at most 8 values, on the only
    rank of its communicator. *)
Definition g_ready : Statics :=
  {| K1 := Some zeros; K3 := zeros; K4 := zeros; K5 := zeros; aux := zeros;
     max_n := 8; handle_NAN := 0; last_NAN := 0;
     MPIrank := 0; MPIprocs := 1; MPImaster := 0 |}.

(** Two chunks [0,3) and [4,6), with a gap at offset 3. *)
Definition layout_two : RK_MEM_DIST :=
  {| n_chunks := 2; chunk_start := [0; 4]; chunk_size := [3; 2];
     chunk_eps_mult := [1%float; 1%float] |}.


(** One chunk [0,2) whose error weight is negative. *)
Definition layout_neg : RK_MEM_DIST :=
  {| n_chunks := 1; chunk_start := [0]; chunk_size := [2];
     chunk_eps_mult := [(-1)%float] |}.

(** A build for the samples: no OpenMP 3.1 reduction, and for [powF] a
    Newton iteration for the fifth root, the only power the solver asks
    for. *)
Fixpoint root5 (k : nat) (x y : FLOAT) : FLOAT :=
  match k with
  | O => y
  | S k => root5 k x ((4 * y + x / (y * y * y * y)) / 5)%float
  end.

Definition sample_build : Build :=
  {| powF := fun a _ => root5 60 a 1%float; OPENMP31 := false |}.

(** The statics of rank [rank] of two, with rank 0 as the master;
    [aux] still holds what was in the allocated memory. *)
Definition g_of (rank : Z) : Statics :=
  {| K1 := Some zeros; K3 := zeros; K4 := zeros; K5 := zeros;
     aux := fun _ => 7%float;
     max_n := 8; handle_NAN := 0; last_NAN := 0;
     MPIrank := rank; MPIprocs := 2; MPImaster := 0 |}.

(** Exponential decay [x' = -x] from [x = 1] at [t = 0], on the layout
    [layout_two]. *)
Definition decay : RK_RightHandSide := fun _ x _ i => (- x i)%float.

Definition sess_decay : RK_MPI_S_SOLUTION :=
  {| sys_n := Some layout_two; sys_t := 0%float; sys_x := Some (fun _ => 1%float);
     meta_f := Some (fun _ => decay); sys_h := 0.1%float; h_min := 0%float;
     delta := 1e-6%float; delta_mode := DELTA_GLOBAL;
     DDLBF_Rearrange := None; Service_Callback := None;
     steps := 0; steps_total := 0 |}.

Definition r_decay : Rank :=
  {| st := g_of 0; sys := sess_decay; rhs_calls := []; meta_calls := 0 |}.

(** The call [RK_MPI_SA_solve(1, ...)] on the only rank, and the call
    with [final_time] equal to [t]. *)
Definition c_decay : Cluster (FLOAT * Rank) :=
  {| root := (1%float, r_decay); peers := [] |}.

Definition c_same : Cluster (FLOAT * Rank) :=
  {| root := (0%float, r_decay); peers := [] |}.

(** A right hand side that is infinite at offset 0 and [t^4] at offset
    1, solved with NaN handling on. *)
Definition blow_up : RK_RightHandSide :=
  fun t _ dest i =>
    if i =? 0 then infinity
    else if i =? 1 then (t * t * t * t)%float else dest i.

Definition sess_nan : RK_MPI_S_SOLUTION :=
  {| sys_n := Some layout_two; sys_t := 0%float; sys_x := Some (fun _ => 1%float);
     meta_f := Some (fun _ => blow_up); sys_h := 1%float; h_min := 0%float;
     delta := 1e-6%float; delta_mode := DELTA_GLOBAL;
     DDLBF_Rearrange := None; Service_Callback := None;
     steps := 0; steps_total := 0 |}.

Definition r_nan : Rank :=
  {| st := RK_MPI_SA_handle_NAN 1 (g_of 0); sys := sess_nan;
     rhs_calls := []; meta_calls := 0 |}.

Definition c_nan : Cluster (FLOAT * Rank) :=
  {| root := (10%float, r_nan); peers := [] |}.

(** Two ranks, of which the second passes no layout. *)
Definition r_lost : Rank :=
  {| st := g_of 1;
     sys := {| sys_n := None; sys_t := 0%float; sys_x := Some (fun _ => 1%float);
               meta_f := Some (fun _ => decay); sys_h := 0.1%float;
               h_min := 0%float; delta := 1e-6%float; delta_mode := DELTA_GLOBAL;
               DDLBF_Rearrange := None; Service_Callback := None;
               steps := 0; steps_total := 0 |};
     rhs_calls := []; meta_calls := 0 |}.

Definition c_pair : Cluster (FLOAT * Rank) :=
  {| root := (1%float, r_decay); peers := [(1%float, r_lost)] |}.

(** Two ranks that solve the decay problem together; the second passes
    another [final_time]. *)
Definition r_peer : Rank :=
  {| st := g_of 1; sys := sess_decay; rhs_calls := []; meta_calls := 0 |}.

Definition c_two : Cluster (FLOAT * Rank) :=
  {| root := (1%float, r_decay); peers := [(5%float, r_peer)] |}.

(** The decay problem with a [Service_Callback] that asks to stop after
    the first step, and the decay problem up to a [final_time] that the
    second step reaches. *)
Definition r_break : Rank :=
  {| st := g_of 0;
     sys := {| sys_n := Some layout_two; sys_t := 0%float;
               sys_x := Some (fun _ => 1%float);
               meta_f := Some (fun _ => decay); sys_h := 0.1%float;
               h_min := 0%float; delta := 1e-6%float; delta_mode := DELTA_GLOBAL;
               DDLBF_Rearrange := None;
               Service_Callback := Some (fun _ _ => 1);
               steps := 0; steps_total := 0 |};
     rhs_calls := []; meta_calls := 0 |}.

Definition c_break : Cluster (FLOAT * Rank) :=
  {| root := (1%float, r_break); peers := [] |}.

Definition c_near : Cluster (FLOAT * Rank) :=
  {| root := (0.15%float, r_decay); peers := [] |}.

(* ================================================================== *)
(** ** The ways a step attempt ends *)

(** What the ranks do with the command of a step attempt: leave the
    loop on a NaN with a time step too small; try again with [h/10];
    take the step and leave the loop, either at [final_time] or because
    [Service_Callback] asked for it; take the step and go on; go on
    without taking the step.  An accepted step carries the command of the
    second broadcast. *)
Inductive Outcome : Type :=
| nan_break
| nan_retry
| step_last (command2 : Z)
| step_break (command2 : Z)
| step_next (command2 : Z)
| step_again.

Definition outcome_of (command command2 : Z) : Outcome :=
  if has command RKA_CMD_NAN then
    if has command RKA_CMD_h_TOO_SMALL then nan_break else nan_retry
  else if has command RKA_CMD_UPDATE then
    if has command2 RKA_CMD_FINISHED then step_last command2
    else if has command2 RKA_CMD_BREAK then step_break command2
    else step_next command2
  else step_again.

(** The value the loop is left with, if it is left. *)
Definition returned (o : Outcome) : option Z :=
  match o with
  | nan_break => Some (-4)
  | step_last _ => Some 0
  | step_break _ => Some 1
  | nan_retry | step_next _ | step_again => None
  end.

Section Outcomes.

Context {build : Build}.

(** The rest of the loop body on a rank that has received the command. *)
Definition finish (o : Outcome) (b : Frame) : Frame :=
  match o with
  | nan_break => give_up_NAN b
  | nan_retry => retry_NAN b
  | step_last command2 => accepted command2 b
  | step_break command2 => interrupted (accepted command2 b)
  | step_next command2 => advance (rearrange (accepted command2 b))
  | step_again => advance b
  end.

(** The outcome of the attempt that starts from [c]. *)
Definition outcome (c : Cluster Frame) : Outcome :=
  outcome_of (command_of c)
    (l_command (loc (update (proposal (NAN_occurred_global c) (all_max_eps c)
                               (command_of c) (root c))))).

End Outcomes.

(** What no block of the loop body assigns: the values that were
    broadcast before the loop except [t] and [h], the tolerance data, the
    identity of the rank, the NaN handling switch and the callbacks. *)
Definition settings_kept (a b : Frame) : Prop :=
  l_final_time (loc b) = l_final_time (loc a) /\
  l_delta (loc b) = l_delta (loc a) /\
  l_delta_mode (loc b) = l_delta_mode (loc a) /\
  l_h_min (loc b) = l_h_min (loc a) /\
  handle_NAN (st (rk b)) = handle_NAN (st (rk a)) /\
  MPIrank (st (rk b)) = MPIrank (st (rk a)) /\
  MPImaster (st (rk b)) = MPImaster (st (rk a)) /\
  max_n (st (rk b)) = max_n (st (rk a)) /\
  Service_Callback (sys (rk b)) = Service_Callback (sys (rk a)) /\
  meta_f (sys (rk b)) = meta_f (sys (rk a)) /\
  DDLBF_Rearrange (sys (rk b)) = DDLBF_Rearrange (sys (rk a)).

(** The ranks hold the same values of what the master has broadcast. *)
Definition same_step (a b : Frame) : Prop :=
  l_final_time (loc b) = l_final_time (loc a) /\
  l_t (loc b) = l_t (loc a) /\
  l_h (loc b) = l_h (loc a) /\
  l_delta (loc b) = l_delta (loc a) /\
  l_delta_mode (loc b) = l_delta_mode (loc a) /\
  handle_NAN (st (rk b)) = handle_NAN (st (rk a)).

Definition in_step (c : Cluster Frame) : Prop :=
  forall a, In a (ranks c) -> same_step (root c) a.

(** [k] step attempts lie between the frames [a] and [a']: the counter
    of attempts and the right hand side evaluations. *)
Definition attempts_between (k : nat) (a a' : Frame) : Prop :=
  steps_total (sys (rk a')) = Nat.iter k long_incr (steps_total (sys (rk a))) /\
  length (rhs_calls (rk a')) = (5 * k + length (rhs_calls (rk a)))%nat /\
  skipn (5 * k) (rhs_calls (rk a')) = rhs_calls (rk a).

(** What [Service_Callback] is shown after the update of an accepted
    step, and whether the callback of the rank asks to stop. *)
Definition callback_view (b : Frame) : SolutionView :=
  view (set_sys_h (l_h (loc b))
          (set_sys_t (l_t (loc b) + l_h (loc b))%float
             (set_steps (long_incr (steps (sys (rk b))))
                (set_sys_x (updated_x b) (sys (rk b)))))).

Definition callback_breaks (b : Frame) : bool :=
  match Service_Callback (sys (rk b)) with
  | None => false
  | Some callback => negb (callback (l_final_time (loc b)) (callback_view b) =? 0)
  end.

(** The state the loop is in after some attempts, seen from the frames
    [c] it was entered with. *)
Definition looping (c s : Cluster Frame) : Prop :=
  loop_top s /\ settings_kept (root c) (root s) /\
  forall a, In a (ranks s) ->
    (last_NAN (st (rk a)) = 0 \/ last_NAN (st (rk a)) = 1) /\
    (handle_NAN (st (rk (root c))) = 0 -> last_NAN (st (rk a)) = 0).

Definition left_with (c s : Cluster Frame) (v : Z) : Prop :=
  In v [0; 1; -4] /\
  (v = -4 -> handle_NAN (st (rk (root c))) <> 0) /\
  (v = 1 -> Service_Callback (sys (rk (root c))) <> None) /\
  forall a, In a (ranks s) ->
    (last_NAN (st (rk a)) = 0 \/ last_NAN (st (rk a)) = 1) /\
    (v = -4 -> last_NAN (st (rk a)) = 1) /\
    (handle_NAN (st (rk (root c))) = 0 -> last_NAN (st (rk a)) = 0).


(** The communicator answers both queries of [RK_MPI_SA_init]; and in
    addition the first and the last block are delivered. *)
Definition answers (env : InitEnv) : Prop :=
  comm_rank env <> None /\ comm_size env <> None.

Definition delivers (env : InitEnv) : Prop :=
  answers env /\ malloc_K1 env <> None /\ malloc_aux env <> None.

(** The step is taken in the attempt. *)
Definition taken (o : Outcome) : bool :=
  match o with
  | step_last _ | step_break _ | step_next _ => true
  | nan_break | nan_retry | step_again => false
  end.

(** Between the frames [a] and [a'] lie [k] step attempts, of which [j]
    were steps taken. *)
Definition steps_between (k j : nat) (a a' : Frame) : Prop :=
  steps_total (sys (rk a')) = Nat.iter k long_incr (steps_total (sys (rk a))) /\
  steps (sys (rk a')) = Nat.iter j long_incr (steps (sys (rk a))).

(** What [RK_MPI_SA_solve] has no assignment to: the tolerance data and
    the callbacks of the solution structure, and the data of
    [RK_MPI_SA_init] in the statics. *)
Definition config_kept (r r' : Rank) : Prop :=
  h_min (sys r') = h_min (sys r) /\
  delta (sys r') = delta (sys r) /\
  delta_mode (sys r') = delta_mode (sys r) /\
  meta_f (sys r') = meta_f (sys r) /\
  DDLBF_Rearrange (sys r') = DDLBF_Rearrange (sys r) /\
  Service_Callback (sys r') = Service_Callback (sys r) /\
  max_n (st r') = max_n (st r) /\
  MPIrank (st r') = MPIrank (st r) /\
  MPIprocs (st r') = MPIprocs (st r) /\
  MPImaster (st r') = MPImaster (st r).

(** The permutation of the ranks in which 0 and the master rank change
    places. *)
Definition swapped (master_rank i : Z) : Z :=
  if i =? 0 then master_rank else if i =? master_rank then 0 else i.

(* ================================================================== *)
(** * Properties *)

(** ** Facts of binary64 arithmetic used below *)

Module FloatFacts.

Lemma SFltb_trans x y z :
  SFltb x y = true -> SFltb y z = true -> SFltb x z = true.
Proof.
  unfold SFltb, SFcompare.
  destruct x as [sx|sx| |sx mx ex], y as [sy|sy| |sy my ey],
           z as [sz|sz| |sz mz ez];
    try destruct sx; try destruct sy; try destruct sz;
    try discriminate; try reflexivity;
    rewrite ?Pos.compare_cont_spec; simpl; intros H1 H2;
    destruct (Z.compare_spec ex ey), (Z.compare_spec ey ez),
             (Z.compare_spec ex ez);
    try discriminate; try lia; try reflexivity; subst;
    destruct (Pos.compare_spec mx my), (Pos.compare_spec my mz),
             (Pos.compare_spec mx mz);
    simpl in *; try discriminate; try lia; try reflexivity.
Qed.

Lemma SFltb_irrefl x : SFltb x x = false.
Proof.
  unfold SFltb, SFcompare.
  destruct x as [s|s| |s m e]; try destruct s; try reflexivity;
    rewrite Z.compare_refl, ?Pos.compare_cont_spec; simpl;
    rewrite Pos.compare_refl; reflexivity.
Qed.

Definition SFnotnan (x : spec_float) : bool :=
  match x with S754_nan => false | _ => true end.

Lemma SFltb_between x y z :
  SFnotnan y = true -> SFltb x z = true ->
  SFltb x y = true \/ SFltb y z = true.
Proof.
  unfold SFltb, SFcompare.
  destruct x as [sx|sx| |sx mx ex], y as [sy|sy| |sy my ey],
           z as [sz|sz| |sz mz ez];
    try destruct sx; try destruct sy; try destruct sz;
    try discriminate; auto;
    rewrite ?Pos.compare_cont_spec; simpl; intros _ H1;
    destruct (Z.compare_spec ex ey), (Z.compare_spec ey ez),
             (Z.compare_spec ex ez);
    try discriminate; try lia; auto; subst;
    destruct (Pos.compare_spec mx my), (Pos.compare_spec my mz),
             (Pos.compare_spec mx mz);
    simpl in *; try discriminate; try lia; auto.
Qed.

Lemma is_nan_SF a : is_nan a = negb (SFnotnan (Prim2SF a)).
Proof.
  unfold is_nan. rewrite eqb_spec. unfold SFeqb, SFcompare.
  destruct (Prim2SF a) as [s|s| |s m e]; try destruct s; try reflexivity;
    rewrite Z.compare_refl, ?Pos.compare_cont_spec; simpl;
    rewrite Pos.compare_refl; reflexivity.
Qed.

(** [<] on [FLOAT] is a strict order, and any value that is not a NaN
    lies on one side of two ordered ones. *)
Lemma flt_trans a b c : flt a b = true -> flt b c = true -> flt a c = true.
Proof. unfold flt. rewrite !ltb_spec. apply SFltb_trans. Qed.

Lemma flt_irrefl a : flt a a = false.
Proof. unfold flt. rewrite ltb_spec. apply SFltb_irrefl. Qed.

Lemma flt_between a b c :
  is_nan b = false -> flt a c = true -> flt a b = true \/ flt b c = true.
Proof.
  unfold flt. rewrite is_nan_SF, !ltb_spec. intros Hb.
  apply SFltb_between. now destruct (SFnotnan (Prim2SF b)).
Qed.

Lemma flt_not_nan a b : flt a b = true -> is_nan a = false /\ is_nan b = false.
Proof.
  unfold flt. rewrite !is_nan_SF, ltb_spec. unfold SFltb, SFcompare.
  destruct (Prim2SF a), (Prim2SF b); try discriminate; intros _; split; reflexivity.
Qed.

Lemma zero_not_nan : is_nan 0%float = false.
Proof. reflexivity. Qed.

(** No absolute value is below zero. *)
Lemma fabsF_not_below_zero (h m : FLOAT) :
  feq m 0%float = true -> flt (fabsF h) m = false.
Proof.
  unfold feq, flt, fabsF. rewrite eqb_spec, ltb_spec, abs_spec.
  change (Prim2SF 0) with (S754_zero false).
  unfold SFeqb, SFltb, SFcompare.
  destruct (Prim2SF h) as [s|s| |s mh e], (Prim2SF m) as [s'|s'| |s' m' e'];
    simpl; try destruct s'; try discriminate; try reflexivity.
Qed.


(** Multiplication and addition commute. *)
Lemma fmul_comm (a b : FLOAT) : (a * b = b * a)%float.
Proof.
  apply Prim2SF_inj. rewrite !mul_spec. unfold SF64mul, SFmul.
  destruct (Prim2SF a) as [sa|sa| |sa ma ea], (Prim2SF b) as [sb|sb| |sb mb eb];
    rewrite ?(xorb_comm sa sb); try reflexivity.
  rewrite Pos.mul_comm, Z.add_comm. reflexivity.
Qed.

Lemma fadd_comm (a b : FLOAT) : (a + b = b + a)%float.
Proof.
  apply Prim2SF_inj. rewrite !add_spec. unfold SF64add, SFadd.
  destruct (Prim2SF a) as [sa|sa| |sa ma ea], (Prim2SF b) as [sb|sb| |sb mb eb];
    try reflexivity; try (destruct sa, sb; reflexivity).
  rewrite (Z.min_comm ea eb), Z.add_comm. reflexivity.
Qed.


(** A finite value is a zero or a finite number. *)
Lemma isfinite_SF t :
  isfinite t = true ->
  match Prim2SF t with S754_zero _ | S754_finite _ _ _ => True | _ => False end.
Proof.
  unfold isfinite, is_finite, is_infinity. rewrite is_nan_SF, eqb_spec, abs_spec.
  change (Prim2SF infinity) with (S754_infinity false).
  destruct (Prim2SF t) as [s|s| |s m e]; cbn; try discriminate; auto.
Qed.

(** [t - t] is zero for a finite [t], and adding it changes nothing that
    [==] can see. *)
Lemma fsub_self t : isfinite t = true -> (t - t)%float = 0%float.
Proof.
  intros H. apply isfinite_SF in H. apply Prim2SF_inj. rewrite sub_spec.
  change (Prim2SF 0) with (S754_zero false).
  destruct (Prim2SF t) as [s|s| |s m e]; try contradiction.
  - destruct s; reflexivity.
  - unfold SF64sub, SFsub. rewrite Z.min_id, Z.sub_diag. reflexivity.
Qed.

Lemma fadd_zero_eq t : isfinite t = true -> feq (t + 0)%float t = true.
Proof.
  intros H. apply isfinite_SF in H. unfold feq. rewrite eqb_spec, add_spec.
  change (Prim2SF 0) with (S754_zero false).
  destruct (Prim2SF t) as [s|s| |s m e]; try contradiction.
  - destruct s; reflexivity.
  - unfold SF64add, SFadd, SFeqb, SFcompare.
    destruct s; rewrite Z.compare_refl, Pos.compare_cont_spec, Pos.compare_refl;
      reflexivity.
Qed.

(** Zero is below or equal to every absolute value that is a number. *)
Lemma zero_le_fabsF h : is_nan h = false -> fle (fabsF 0%float) (fabsF h) = true.
Proof.
  unfold fle, fabsF. rewrite is_nan_SF, leb_spec, !abs_spec.
  change (Prim2SF 0) with (S754_zero false).
  destruct (Prim2SF h) as [s|s| |s m e]; cbn; try discriminate; reflexivity.
Qed.

(** Two values that are not NaNs are ordered one way or the other, or
    equal. *)
Lemma SFltb_total x y :
  SFnotnan x = true -> SFnotnan y = true -> SFltb x y = false ->
  SFltb y x = true \/ SFeqb x y = true.
Proof.
  unfold SFltb, SFeqb, SFcompare.
  destruct x as [sx|sx| |sx mx ex], y as [sy|sy| |sy my ey];
    try destruct sx; try destruct sy;
    try discriminate; auto;
    rewrite ?Pos.compare_cont_spec; simpl; intros _ _ H1;
    destruct (Z.compare_spec ex ey), (Z.compare_spec ey ex);
    try discriminate; try lia; auto; subst;
    destruct (Pos.compare_spec mx my), (Pos.compare_spec my mx);
    simpl in *; try discriminate; try lia; auto.
Qed.

Lemma flt_total a b :
  is_nan a = false -> is_nan b = false -> flt a b = false ->
  flt b a = true \/ feq a b = true.
Proof.
  unfold flt, feq. rewrite !is_nan_SF, !ltb_spec, eqb_spec.
  intros Ha Hb. apply SFltb_total.
  - now destruct (SFnotnan (Prim2SF a)).
  - now destruct (SFnotnan (Prim2SF b)).
Qed.

End FloatFacts.

(* ================================================================== *)
(** ** The layout check *)

Lemma wrap_int_id z : in_int z -> wrap 32 z = z.
Proof.
  unfold in_int, INT_MIN, INT_MAX, wrap. intros H.
  change (2 ^ (32 - 1)) with 2147483648. change (2 ^ 32) with 4294967296.
  change (2 ^ 31) with 2147483648 in H.
  rewrite Z.mod_small; lia.
Qed.

Lemma upto_seq m : upto m = map Z.of_nat (seq 0 (Z.to_nat m)).
Proof. reflexivity. Qed.

Lemma pred_end_succ n a :
  pred_end n (Z.of_nat (S a)) = start_of n (Z.of_nat a) + size_of n (Z.of_nat a).
Proof.
  unfold pred_end.
  destruct (Z.eqb_spec (Z.of_nat (S a)) 0) as [E|_]; [lia|].
  replace (Z.of_nat (S a) - 1) with (Z.of_nat a) by lia. reflexivity.
Qed.

Lemma chunk_placed_or_not n k : chunk_placed n k \/ chunk_misplaced n k.
Proof. unfold chunk_placed, chunk_misplaced. lia. Qed.

Lemma chunk_placed_not_misplaced n k : chunk_placed n k -> chunk_misplaced n k -> False.
Proof. unfold chunk_placed, chunk_misplaced. lia. Qed.

Section CheckLoop.

Variable n : RK_MEM_DIST.

(** One turn of the loop, the sum being representable. *)
Lemma check_mem_loop_cons a rest :
  in_int (start_of n (Z.of_nat a) + size_of n (Z.of_nat a)) ->
  check_mem_loop n (Z.of_nat a :: rest) (pred_end n (Z.of_nat a)) =
    if (start_of n (Z.of_nat a) <? pred_end n (Z.of_nat a))
       || (size_of n (Z.of_nat a) <=? 0)
    then inl (-6)
    else check_mem_loop n rest (pred_end n (Z.of_nat (S a))).
Proof.
  intros Hs. cbn [check_mem_loop]. unfold int_add. rewrite (wrap_int_id _ Hs).
  rewrite pred_end_succ.
  destruct (Z.ltb_spec (start_of n (Z.of_nat a)) (pred_end n (Z.of_nat a)));
    [reflexivity|].
  cbn [orb].
  destruct (Z.leb_spec (start_of n (Z.of_nat a) + size_of n (Z.of_nat a))
                       (start_of n (Z.of_nat a)));
  destruct (Z.leb_spec (size_of n (Z.of_nat a)) 0); try lia; reflexivity.
Qed.

Lemma check_mem_loop_placed len : forall a,
  (forall k, Z.of_nat a <= k < Z.of_nat (a + len) ->
     in_int (start_of n k + size_of n k) /\ chunk_placed n k) ->
  check_mem_loop n (map Z.of_nat (seq a len)) (pred_end n (Z.of_nat a)) =
    inr (pred_end n (Z.of_nat (a + len))).
Proof.
  induction len as [|len IH]; intros a H.
  - cbn. now rewrite Nat.add_0_r.
  - cbn [seq map].
    destruct (H (Z.of_nat a)) as [Hi [Hp Hz]]; [lia|].
    rewrite (check_mem_loop_cons _ _ Hi).
    destruct (Z.ltb_spec (start_of n (Z.of_nat a)) (pred_end n (Z.of_nat a)));
      [lia|].
    destruct (Z.leb_spec (size_of n (Z.of_nat a)) 0); [lia|].
    cbn [orb]. rewrite IH.
    + now replace (S a + len)%nat with (a + S len)%nat by lia.
    + intros k Hk. apply H. lia.
Qed.

Lemma check_mem_loop_misplaced len : forall a,
  (forall k, Z.of_nat a <= k < Z.of_nat (a + len) ->
     in_int (start_of n k + size_of n k)) ->
  (exists k, Z.of_nat a <= k < Z.of_nat (a + len) /\ chunk_misplaced n k) ->
  check_mem_loop n (map Z.of_nat (seq a len)) (pred_end n (Z.of_nat a)) =
    inl (-6).
Proof.
  induction len as [|len IH]; intros a Hi [k [Hk Hm]].
  - lia.
  - cbn [seq map]. rewrite check_mem_loop_cons by (apply Hi; lia).
    destruct (Z.ltb_spec (start_of n (Z.of_nat a)) (pred_end n (Z.of_nat a)));
      [reflexivity|].
    destruct (Z.leb_spec (size_of n (Z.of_nat a)) 0); [reflexivity|].
    cbn [orb]. apply IH.
    + intros j Hj. apply Hi. lia.
    + exists k. split; [|exact Hm].
      destruct (Z.eq_dec k (Z.of_nat a)) as [->|Hne]; [|lia].
      exfalso. unfold chunk_misplaced in Hm. lia.
Qed.

End CheckLoop.

Lemma pred_end_n_chunks n : 0 < n_chunks n -> pred_end n (n_chunks n) = last_end n.
Proof.
  intros H. unfold pred_end, last_end.
  destruct (Z.eqb_spec (n_chunks n) 0); [lia|reflexivity].
Qed.


Lemma layout_two_in_int : layout_in_int layout_two.
Proof.
  intros k Hk. change (n_chunks layout_two) with 2 in Hk.
  assert (E : k = 0 \/ k = 1) by lia.
  destruct E as [-> | ->]; vm_compute; intuition discriminate.
Qed.




(** *** The error weights *)

Lemma check_mem_loop_with_eps_mult m n ks : forall offset,
  check_mem_loop (with_eps_mult m n) ks offset = check_mem_loop n ks offset.
Proof.
  induction ks as [|k ks IH]; intros offset; [reflexivity|].
  cbn [check_mem_loop].
  change (start_of (with_eps_mult m n) k) with (start_of n k).
  change (size_of (with_eps_mult m n) k) with (size_of n k).
  destruct (start_of n k <? offset); [reflexivity|].
  destruct (int_add (start_of n k) (size_of n k) <=? start_of n k); [reflexivity|].
  apply IH.
Qed.

(** C9, as the code has it.  [RK_MPI_SA_check_mem] never reads
    [chunk_eps_mult]: whatever the error weights of a layout are replaced
    by, it returns the same code, so the weights play no part in
    whether a layout validates. *)
Theorem check_mem_ignores_eps_mult (n : RK_MEM_DIST) (m : list FLOAT) (g : Statics) :
  RK_MPI_SA_check_mem (with_eps_mult m n) g = RK_MPI_SA_check_mem n g.
Proof.
  unfold RK_MPI_SA_check_mem.
  change (n_chunks (with_eps_mult m n)) with (n_chunks n).
  rewrite check_mem_loop_with_eps_mult. reflexivity.
Qed.

(** C9, as the specification states it, fails: the chunk of
    [layout_neg] is well ordered, positively sized and within capacity,
    its error weight is negative, and the layout validates with 0. *)
Lemma check_mem_accepts_negative_weight :
  uninitialised g_ready = false /\
  (forall k, 0 <= k < n_chunks layout_neg -> chunk_placed layout_neg k) /\
  last_end layout_neg <= max_n g_ready /\
  (exists i, 0 <= i < n_chunks layout_neg /\
             fle (eps_mult_of layout_neg i) 0%float = true) /\
  fst (RK_MPI_SA_check_mem layout_neg g_ready) = 0.
Proof.
  split; [reflexivity|]. split.
  - intros k Hk. change (n_chunks layout_neg) with 1 in Hk.
    assert (E : k = 0) by lia. subst k. vm_compute. intuition discriminate.
  - split; [vm_compute; discriminate|]. split; [|reflexivity].
    exists 0. split; [vm_compute; intuition discriminate|reflexivity].
Qed.

(* ================================================================== *)
(** ** Clusters *)

Lemma ranks_each {A B : Type} (u : A -> B) (c : Cluster A) :
  ranks (each u c) = map u (ranks c).
Proof. reflexivity. Qed.

Lemma each_each {A B C : Type} (u : A -> B) (v : B -> C) (c : Cluster A) :
  each v (each u c) = each (fun a => v (u a)) c.
Proof. unfold each. cbn. now rewrite map_map. Qed.


Lemma root_each {A B : Type} (u : A -> B) (c : Cluster A) :
  root (each u c) = u (root c).
Proof. reflexivity. Qed.

(** A relation between every rank before and after a rank-wise step. *)
Lemma Forall2_each {A B : Type} (P : A -> B -> Prop) (u : A -> B) (c : Cluster A) :
  (forall a, In a (ranks c) -> P a (u a)) ->
  Forall2 P (ranks c) (ranks (each u c)).
Proof.
  rewrite ranks_each. induction (ranks c) as [|a l IH]; intros H; cbn.
  - constructor.
  - constructor; [apply H; now left|]. apply IH. intros b Hb. apply H. now right.
Qed.

Lemma Forall_each {A B : Type} (P : B -> Prop) (u : A -> B) (c : Cluster A) :
  (forall a, In a (ranks c) -> P (u a)) -> Forall P (ranks (each u c)).
Proof.
  rewrite ranks_each. intros H. apply Forall_forall. intros b Hb.
  apply in_map_iff in Hb. destruct Hb as [a [<- Ha]]. now apply H.
Qed.

(* ================================================================== *)
(** ** The kernels over the chunks *)

Lemma store_same b i v : store b i v i = v.
Proof. unfold store. now rewrite Z.eqb_refl. Qed.

Lemma store_other b i v j : j <> i -> store b i v j = b j.
Proof. unfold store. intros H. destruct (Z.eqb_spec j i); [contradiction|reflexivity]. Qed.

Section Kernels.

Variable body : Z -> buffer -> FLOAT.

Let run (cs : list (Z * Z)) (q : buffer) : buffer :=
  fold_left (fun q c => store q (snd c) (body (snd c) q)) cs q.

(** A kernel leaves the array alone outside the chunks. *)
Lemma run_outside cs : forall q j, ~ In j (map snd cs) -> run cs q j = q j.
Proof.
  induction cs as [|c cs IH]; intros q j Hj; [reflexivity|].
  cbn in *. unfold run in IH. rewrite IH by tauto.
  apply store_other. intros E. apply Hj. left. congruence.
Qed.

(** An offset visited once holds what the body gave for it, computed on
    an array that agrees there with the one at the start. *)
Lemma run_inside_once cs : forall q j,
  NoDup (map snd cs) -> In j (map snd cs) ->
  exists q', q' j = q j /\ run cs q j = body j q'.
Proof.
  induction cs as [|c cs IH]; intros q j Hnd Hj; [contradiction|].
  cbn in *. inversion Hnd as [|? ? Hnot Hnd']; subst.
  destruct Hj as [E | Hin].
  - subst j. exists q. split; [reflexivity|].
    fold (run cs (store q (snd c) (body (snd c) q))).
    rewrite run_outside by exact Hnot. apply store_same.
  - destruct (IH (store q (snd c) (body (snd c) q)) j Hnd' Hin) as [q' [Hq' Hr]].
    exists q'. split; [|exact Hr].
    rewrite Hq'. apply store_other. intros E. subst j. contradiction.
Qed.

End Kernels.

Lemma for_chunks_outside n n_chunks body q j :
  ~ In j (offsets n n_chunks) -> for_chunks n n_chunks body q j = q j.
Proof. apply run_outside. Qed.

(** A kernel whose body does not read the array it writes. *)
Lemma for_chunks_inside n n_chunks (g : Z -> FLOAT) q j :
  In j (offsets n n_chunks) ->
  for_chunks n n_chunks (fun i _ => g i) q j = g j.
Proof.
  unfold for_chunks, offsets. generalize (cells n n_chunks) as cs.
  intros cs. revert q. induction cs as [|c cs IH]; intros q Hj; [contradiction|].
  cbn in *. destruct (in_dec Z.eq_dec j (map snd cs)) as [Hin|Hout].
  - now apply IH.
  - destruct Hj as [E|Hin]; [|contradiction]. subst j.
    rewrite (run_outside (fun i _ => g i)) by exact Hout. apply store_same.
Qed.

(** The kernel [q[i] += g] on chunks that do not overlap. *)
Lemma for_chunks_update n n_chunks (g : Z -> FLOAT) q j :
  NoDup (offsets n n_chunks) -> In j (offsets n n_chunks) ->
  for_chunks n n_chunks (fun i q => (q i + g i)%float) q j = (q j + g j)%float.
Proof.
  intros Hnd Hj.
  destruct (run_inside_once (fun i q => (q i + g i)%float) _ q j Hnd Hj)
    as [q' [Hq' Hr]].
  unfold for_chunks. rewrite Hr, Hq'. reflexivity.
Qed.

(* ================================================================== *)
(** ** Loops *)

(** An invariant of the body of a loop holds when the loop is left, and
    after any number of iterations. *)
Lemma while_1_invariant {St V : Type} (body : St -> St * option V) (I : St -> Prop) :
  (forall s, I s -> I (fst (body s))) ->
  forall fuel s s' v, while_1 body fuel s = Some (s', v) -> I s -> I s'.
Proof.
  intros Hbody. induction fuel as [|fuel IH]; intros s s' v H Hs; [discriminate|].
  cbn [while_1] in H. pose proof (Hbody s Hs) as Hs'.
  destruct (body s) as [s1 [v1|]].
  - injection H as E1 E2. rewrite <- E1. exact Hs'.
  - exact (IH s1 s' v H Hs').
Qed.

Lemma state_after_invariant {St V : Type} (body : St -> St * option V) (I : St -> Prop) :
  (forall s, I s -> I (fst (body s))) ->
  forall k s, I s -> I (state_after body k s).
Proof.
  intros Hbody. induction k as [|k IH]; intros s Hs; [exact Hs|].
  cbn [state_after]. pose proof (Hbody s Hs) as Hs'.
  destruct (body s) as [s1 [v1|]]; [exact Hs'|]. now apply IH.
Qed.

Lemma while_1_S {St V : Type} (body : St -> St * option V) fuel s :
  while_1 body (S fuel) s =
  match body s with
  | (s', Some v) => Some (s', v)
  | (s', None) => while_1 body fuel s'
  end.
Proof. reflexivity. Qed.


(* ================================================================== *)
(** ** Chunks of a well placed layout do not overlap *)

Lemma upto_succ (m : nat) : upto (Z.of_nat (S m)) = upto (Z.of_nat m) ++ [Z.of_nat m].
Proof.
  unfold upto. rewrite !Nat2Z.id, seq_S, map_app. reflexivity.
Qed.

Lemma in_upto m i : In i (upto m) <-> 0 <= i < m.
Proof.
  unfold upto. rewrite in_map_iff. split.
  - intros [k [<- Hk]]. apply in_seq in Hk. lia.
  - intros H. exists (Z.to_nat i). split; [lia|]. apply in_seq. lia.
Qed.

Lemma NoDup_upto m : NoDup (upto m).
Proof.
  unfold upto. apply Injective_map_NoDup; [|apply seq_NoDup].
  intros a b. lia.
Qed.

Lemma in_chunk_offsets n k j :
  In j (map snd (chunk_cells n k)) <-> start_of n k <= j < start_of n k + size_of n k.
Proof.
  unfold chunk_cells. rewrite map_map. cbn [snd]. rewrite in_map_iff. split.
  - intros [i [<- Hi]]. apply in_upto in Hi. lia.
  - intros H. exists (j - start_of n k). split; [lia|]. apply in_upto. lia.
Qed.

Lemma NoDup_chunk_offsets n k : NoDup (map snd (chunk_cells n k)).
Proof.
  unfold chunk_cells. rewrite map_map. cbn [snd].
  apply Injective_map_NoDup; [|apply NoDup_upto].
  intros a b. lia.
Qed.

Lemma offsets_succ n (m : nat) :
  offsets n (Z.of_nat (S m)) =
  offsets n (Z.of_nat m) ++ map snd (chunk_cells n (Z.of_nat m)).
Proof.
  unfold offsets, cells. rewrite upto_succ, flat_map_app, map_app. cbn.
  now rewrite app_nil_r.
Qed.

(** An offset is inside a chunk exactly when some chunk's range holds
    it. *)
Lemma in_offsets n n_chunks j :
  In j (offsets n n_chunks) <->
  exists k, 0 <= k < n_chunks /\ start_of n k <= j < start_of n k + size_of n k.
Proof.
  unfold offsets, cells. rewrite in_map_iff. split.
  - intros [[k j'] [E Hin]]. cbn in E. subst j'.
    apply in_flat_map in Hin. destruct Hin as [k' [Hk' Hin]].
    exists k'. split; [now apply in_upto|].
    apply in_chunk_offsets. apply in_map_iff. now exists (k, j).
  - intros [k [Hk Hj]]. apply in_chunk_offsets in Hj.
    apply in_map_iff in Hj. destruct Hj as [[k' j'] [E Hin]]. cbn in E. subst j'.
    exists (k', j). split; [reflexivity|].
    apply in_flat_map. exists k. split; [now apply in_upto|exact Hin].
Qed.

Lemma placed_offsets n (m : nat) :
  (forall k, 0 <= k < Z.of_nat m -> chunk_placed n k) ->
  NoDup (offsets n (Z.of_nat m)) /\
  forall j, In j (offsets n (Z.of_nat m)) -> j < pred_end n (Z.of_nat m).
Proof.
  induction m as [|m IH]; intros H.
  - split; [constructor|intros j []].
  - destruct IH as [Hnd Hlt]; [intros k Hk; apply H; lia|].
    destruct (H (Z.of_nat m)) as [Hstart Hsize]; [lia|].
    rewrite offsets_succ, pred_end_succ. split.
    + apply NoDup_app; [exact Hnd|apply NoDup_chunk_offsets|].
      intros j Hj Hj'. apply Hlt in Hj. apply in_chunk_offsets in Hj'. lia.
    + intros j Hj. apply in_app_or in Hj. destruct Hj as [Hj|Hj].
      * apply Hlt in Hj. lia.
      * apply in_chunk_offsets in Hj. lia.
Qed.

(** The chunks of a layout whose every chunk is well placed are pairwise
    disjoint: no offset is visited twice. *)
Lemma placed_NoDup n :
  (forall k, 0 <= k < n_chunks n -> chunk_placed n k) ->
  NoDup (offsets n (n_chunks n)).
Proof.
  intros H. destruct (Z.le_gt_cases (n_chunks n) 0) as [Hle|Hgt].
  - unfold offsets, cells, upto.
    replace (Z.to_nat (n_chunks n)) with 0%nat by lia. constructor.
  - rewrite <- (Z2Nat.id (n_chunks n)) by lia.
    apply placed_offsets. intros k Hk. apply H. lia.
Qed.

(* ================================================================== *)
(** ** Layouts that RK_MPI_SA_check_mem accepts *)

Lemma placed_or_misplaced_below n (m : nat) :
  (forall k, 0 <= k < Z.of_nat m -> chunk_placed n k) \/
  (exists k, 0 <= k < Z.of_nat m /\ chunk_misplaced n k).
Proof.
  induction m as [|m [IH|[k [Hk Hm]]]].
  - left. intros k Hk. lia.
  - destruct (chunk_placed_or_not n (Z.of_nat m)) as [Hp|Hp].
    + left. intros k Hk.
      destruct (Z.eq_dec k (Z.of_nat m)) as [->|Hne]; [exact Hp|apply IH; lia].
    + right. exists (Z.of_nat m). split; [lia|exact Hp].
  - right. exists k. split; [lia|exact Hm].
Qed.

Lemma pred_end_not_negative n (m : nat) :
  (forall k, 0 <= k < Z.of_nat m -> chunk_placed n k) ->
  forall a : nat, (a <= m)%nat -> 0 <= pred_end n (Z.of_nat a).
Proof.
  intros H a. induction a as [|a IH]; intros Ha; [cbn; lia|].
  rewrite pred_end_succ.
  destruct (H (Z.of_nat a)) as [H1 H2]; [lia|].
  assert (0 <= pred_end n (Z.of_nat a)) by (apply IH; lia). lia.
Qed.

(** The value [RK_MPI_SA_check_mem] returns when the solver is
    initialised and the layout has chunks. *)
Lemma check_mem_placed n g :
  layout_in_int n -> uninitialised g = false -> 0 < n_chunks n ->
  (forall k, 0 <= k < n_chunks n -> chunk_placed n k) ->
  fst (RK_MPI_SA_check_mem n g) = if last_end n >? max_n g then -5 else 0.
Proof.
  intros Hint Hu Hpos Hall. unfold RK_MPI_SA_check_mem. rewrite Hu.
  destruct (Z.leb_spec (n_chunks n) 0); [lia|].
  rewrite upto_seq. change 0 with (pred_end n (Z.of_nat 0)) at 1.
  rewrite check_mem_loop_placed.
  - rewrite Nat.add_0_l, Z2Nat.id, pred_end_n_chunks by lia.
    destruct (last_end n >? max_n g); reflexivity.
  - intros k Hk. split; [apply Hint; lia | apply Hall; lia].
Qed.

Lemma check_mem_misplaced n g :
  layout_in_int n -> uninitialised g = false -> 0 < n_chunks n ->
  (exists k, 0 <= k < n_chunks n /\ chunk_misplaced n k) ->
  fst (RK_MPI_SA_check_mem n g) = -6.
Proof.
  intros Hint Hu Hpos [k [Hk Hm]]. unfold RK_MPI_SA_check_mem. rewrite Hu.
  destruct (Z.leb_spec (n_chunks n) 0); [lia|].
  rewrite upto_seq. change 0 with (pred_end n (Z.of_nat 0)) at 1.
  rewrite check_mem_loop_misplaced; [reflexivity| |].
  - intros j Hj. apply Hint. lia.
  - exists k. split; [lia|exact Hm].
Qed.

Lemma check_mem_zero_valid n g :
  layout_in_int n ->
  fst (RK_MPI_SA_check_mem n g) = 0 ->
  uninitialised g = false /\ 0 < n_chunks n /\
  (forall k, 0 <= k < n_chunks n -> chunk_placed n k) /\
  last_end n <= max_n g.
Proof.
  intros Hint H0.
  destruct (uninitialised g) eqn:Hu.
  { unfold RK_MPI_SA_check_mem in H0. rewrite Hu in H0. discriminate H0. }
  destruct (Z.leb_spec (n_chunks n) 0) as [Hle|Hpos].
  { unfold RK_MPI_SA_check_mem in H0. rewrite Hu in H0.
    destruct (Z.leb_spec (n_chunks n) 0); [discriminate H0 | lia]. }
  destruct (placed_or_misplaced_below n (Z.to_nat (n_chunks n))) as [Hall|Hex].
  - assert (Hall' : forall k, 0 <= k < n_chunks n -> chunk_placed n k)
      by (intros k Hk; apply Hall; lia).
    rewrite (check_mem_placed n g Hint Hu Hpos Hall') in H0.
    destruct (Z.gtb_spec (last_end n) (max_n g)); [discriminate H0|].
    split; [reflexivity|]. split; [exact Hpos|]. split; [exact Hall'|assumption].
  - rewrite check_mem_misplaced in H0; try assumption; [discriminate H0|].
    destruct Hex as [k [Hk Hm]]. exists k. split; [lia|exact Hm].
Qed.

(** The code 0 is returned for the valid layouts only: an initialised
    solver, at least one chunk, every chunk placed after its predecessor
    with a positive size, and the last chunk ending within [max_n]. *)
Theorem check_mem_zero_iff (n : RK_MEM_DIST) (g : Statics) :
  layout_in_int n ->
  (fst (RK_MPI_SA_check_mem n g) = 0 <->
   uninitialised g = false /\ 0 < n_chunks n /\
   (forall k, 0 <= k < n_chunks n -> chunk_placed n k) /\
   last_end n <= max_n g).
Proof.
  intros Hint. split.
  - now apply check_mem_zero_valid.
  - intros (Hu & Hpos & Hall & Hcap).
    rewrite (check_mem_placed n g Hint Hu Hpos Hall).
    destruct (Z.gtb_spec (last_end n) (max_n g)); [lia|reflexivity].
Qed.

Lemma check_mem_zero_iff_witness :
  fst (RK_MPI_SA_check_mem layout_two g_ready) = 0 <->
  uninitialised g_ready = false /\ 0 < n_chunks layout_two /\
  (forall k, 0 <= k < n_chunks layout_two -> chunk_placed layout_two k) /\
  last_end layout_two <= max_n g_ready.
Proof. exact (check_mem_zero_iff layout_two g_ready layout_two_in_int). Defined.

(** The chunks of a layout that [RK_MPI_SA_check_mem] accepts are
    pairwise disjoint and lie within the allocated block: no offset is
    visited twice by a loop over the chunks, and every offset visited is
    in [0, max_n). *)
Theorem validated_offsets (n : RK_MEM_DIST) (g : Statics) :
  layout_in_int n ->
  fst (RK_MPI_SA_check_mem n g) = 0 ->
  NoDup (offsets n (n_chunks n)) /\
  forall j, In j (offsets n (n_chunks n)) -> 0 <= j < max_n g.
Proof.
  intros Hint H0.
  destruct (check_mem_zero_valid n g Hint H0) as (_ & Hpos & Hall & Hcap).
  split; [now apply placed_NoDup|].
  intros j Hj.
  assert (Hall' : forall k, 0 <= k < Z.of_nat (Z.to_nat (n_chunks n)) -> chunk_placed n k)
    by (intros k Hk; apply Hall; lia).
  split.
  - apply in_offsets in Hj. destruct Hj as (k & Hk & Hj).
    pose proof (pred_end_not_negative n _ Hall' (Z.to_nat k) ltac:(lia)) as Hge.
    rewrite Z2Nat.id in Hge by lia.
    destruct (Hall k Hk) as [Hs _]. lia.
  - destruct (placed_offsets n _ Hall') as [_ Hlt].
    rewrite Z2Nat.id in Hlt by lia. apply Hlt in Hj.
    rewrite pred_end_n_chunks in Hj by lia. lia.
Qed.

Lemma validated_offsets_witness :
  fst (RK_MPI_SA_check_mem layout_two g_ready) = 0 /\
  NoDup (offsets layout_two (n_chunks layout_two)) /\
  forall j, In j (offsets layout_two (n_chunks layout_two)) -> 0 <= j < max_n g_ready.
Proof.
  split; [reflexivity|].
  exact (validated_offsets layout_two g_ready layout_two_in_int eq_refl).
Defined.

(* ================================================================== *)
(** ** The five evaluations of the right hand side *)

Section Coefficients.

Open Scope float_scope.

Lemma stage_inside body a i :
  In i (offsets (l_n (loc a)) (l_n_chunks (loc a))) ->
  aux (st (rk (stage body a))) i = body i.
Proof. intros H. cbn. now apply for_chunks_inside. Qed.

Lemma stage_outside body a i :
  ~ In i (offsets (l_n (loc a)) (l_n_chunks (loc a))) ->
  aux (st (rk (stage body a))) i = aux (st (rk a)) i.
Proof. intros H. cbn. now apply for_chunks_outside. Qed.

Lemma eval_K1_block a :
  block_of in_K1 (l_t (loc a)) (the_x (sys (rk a))) a (eval_K1 a).
Proof. constructor; try reflexivity. repeat split. Qed.

Lemma eval_K2_block a :
  block_of in_K3 (l_t (loc a) + l_h (loc a) / 3) (aux (st (rk (eval_K2 a)))) a
           (eval_K2 a).
Proof. constructor; try reflexivity. repeat split. Qed.

Lemma eval_K3_block a :
  block_of in_K3 (l_t (loc a) + l_h (loc a) / 3) (aux (st (rk (eval_K3 a)))) a
           (eval_K3 a).
Proof. constructor; try reflexivity. repeat split. Qed.

Lemma eval_K4_block a :
  block_of in_K4 (l_t (loc a) + l_h (loc a) / 2) (aux (st (rk (eval_K4 a)))) a
           (eval_K4 a).
Proof. constructor; try reflexivity. repeat split. Qed.

Lemma eval_K5_block a :
  block_of in_K5 (l_t (loc a) + l_h (loc a)) (aux (st (rk (eval_K5 a)))) a
           (eval_K5 a).
Proof. constructor; try reflexivity. repeat split. Qed.

(** The staged argument of each block, inside and outside the chunks. *)
Lemma eval_K2_aux a i :
  let inside := offsets (l_n (loc a)) (l_n_chunks (loc a)) in
  (In i inside ->
   aux (st (rk (eval_K2 a))) i
   = the_x (sys (rk a)) i + l_h (loc a) / 3 * the_K1 (st (rk a)) i) /\
  (~ In i inside -> aux (st (rk (eval_K2 a))) i = aux (st (rk a)) i).
Proof.
  split; intros H.
  - rewrite FloatFacts.fadd_comm, FloatFacts.fmul_comm.
    unfold eval_K2. cbn [call_f rk st aux set_K3].
    now rewrite stage_inside.
  - unfold eval_K2. cbn [call_f rk st aux set_K3]. now rewrite stage_outside.
Qed.

Lemma eval_K3_aux a i :
  let inside := offsets (l_n (loc a)) (l_n_chunks (loc a)) in
  (In i inside ->
   aux (st (rk (eval_K3 a))) i
   = the_x (sys (rk a)) i
     + l_h (loc a) / 6 * (the_K1 (st (rk a)) i + K3 (st (rk a)) i)) /\
  (~ In i inside -> aux (st (rk (eval_K3 a))) i = aux (st (rk a)) i).
Proof.
  split; intros H.
  - rewrite FloatFacts.fadd_comm, FloatFacts.fmul_comm.
    unfold eval_K3. cbn [call_f rk st aux set_K3].
    now rewrite stage_inside.
  - unfold eval_K3. cbn [call_f rk st aux set_K3]. now rewrite stage_outside.
Qed.

Lemma eval_K4_aux a i :
  let inside := offsets (l_n (loc a)) (l_n_chunks (loc a)) in
  (In i inside ->
   aux (st (rk (eval_K4 a))) i
   = the_x (sys (rk a)) i
     + l_h (loc a) / 8 * (the_K1 (st (rk a)) i + 3 * K3 (st (rk a)) i)) /\
  (~ In i inside -> aux (st (rk (eval_K4 a))) i = aux (st (rk a)) i).
Proof.
  split; intros H.
  - rewrite FloatFacts.fadd_comm, FloatFacts.fmul_comm.
    unfold eval_K4. cbn [call_f rk st aux set_K4].
    now rewrite stage_inside.
  - unfold eval_K4. cbn [call_f rk st aux set_K4]. now rewrite stage_outside.
Qed.

Lemma eval_K5_aux a i :
  let inside := offsets (l_n (loc a)) (l_n_chunks (loc a)) in
  (In i inside ->
   aux (st (rk (eval_K5 a))) i
   = the_x (sys (rk a)) i
     + (0.5 * the_K1 (st (rk a)) i - 1.5 * K3 (st (rk a)) i
        + 2 * K4 (st (rk a)) i) * l_h (loc a)) /\
  (~ In i inside -> aux (st (rk (eval_K5 a))) i = aux (st (rk a)) i).
Proof.
  split; intros H.
  - rewrite FloatFacts.fadd_comm.
    unfold eval_K5. cbn [call_f rk st aux set_K5].
    now rewrite stage_inside.
  - unfold eval_K5. cbn [call_f rk st aux set_K5]. now rewrite stage_outside.
Qed.

(** C3, as the code has it.  One step attempt evaluates the right hand
    side five times, for K1, K2, K3, K4, K5 in this order, at the times
    [t], [t+h/3], [t+h/3], [t+h/2], [t+h].  The first argument is [x]
    itself; the other four are the array [aux], which at every offset
    inside a chunk holds [x + (h/3) K1], [x + (h/6) (K1 + K2)],
    [x + (h/8) (K1 + 3 K3)], [x + (0.5 K1 - 1.5 K3 + 2 K4) h], and
    at every other offset still holds what [aux] held before the attempt
    (not the value of [x]).  K2 is written to the array of K3, which the
    third evaluation overwrites. *)
Theorem coefficients_calls (a : Frame) :
  let t := l_t (loc a) in
  let h := l_h (loc a) in
  let x := the_x (sys (rk a)) in
  let f := l_f (loc a) in
  let g := st (rk a) in
  let g' := st (rk (coefficients a)) in
  let inside i := In i (offsets (l_n (loc a)) (l_n_chunks (loc a))) in
  exists a2 a3 a4 a5 k2 : buffer,
    rhs_calls (rk (coefficients a)) =
      [ {| call_t := t + h; call_x := a5; call_dest := in_K5 |};
        {| call_t := t + h / 2; call_x := a4; call_dest := in_K4 |};
        {| call_t := t + h / 3; call_x := a3; call_dest := in_K3 |};
        {| call_t := t + h / 3; call_x := a2; call_dest := in_K3 |};
        {| call_t := t; call_x := x; call_dest := in_K1 |} ]
      ++ rhs_calls (rk a) /\
    the_K1 g' = f t x (the_K1 g) /\
    k2 = f (t + h / 3) a2 (K3 g) /\
    K3 g' = f (t + h / 3) a3 k2 /\
    K4 g' = f (t + h / 2) a4 (K4 g) /\
    K5 g' = f (t + h) a5 (K5 g) /\
    (forall i, inside i ->
       a2 i = x i + h / 3 * the_K1 g' i /\
       a3 i = x i + h / 6 * (the_K1 g' i + k2 i) /\
       a4 i = x i + h / 8 * (the_K1 g' i + 3 * K3 g' i) /\
       a5 i = x i + (0.5 * the_K1 g' i - 1.5 * K3 g' i + 2 * K4 g' i) * h) /\
    (forall i, ~ inside i ->
       a2 i = aux g i /\ a3 i = aux g i /\ a4 i = aux g i /\ a5 i = aux g i).
Proof.
  intros t h x f g g' inside. subst g' t h x f g inside. unfold coefficients.
  pose proof (eval_K1_block a) as B1.
  pose proof (eval_K2_block (eval_K1 a)) as B2.
  pose proof (fun i => eval_K2_aux (eval_K1 a) i) as A2.
  generalize dependent (eval_K1 a). intros b1 B1 B2 A2.
  pose proof (eval_K3_block (eval_K2 b1)) as B3.
  pose proof (fun i => eval_K3_aux (eval_K2 b1) i) as A3.
  generalize dependent (eval_K2 b1). intros b2 B2 A2 B3 A3.
  pose proof (eval_K4_block (eval_K3 b2)) as B4.
  pose proof (fun i => eval_K4_aux (eval_K3 b2) i) as A4.
  generalize dependent (eval_K3 b2). intros b3 B3 A3 B4 A4.
  pose proof (eval_K5_block (eval_K4 b3)) as B5.
  pose proof (fun i => eval_K5_aux (eval_K4 b3) i) as A5.
  generalize dependent (eval_K4 b3). intros b4 B4 A4 B5 A5.
  generalize dependent (eval_K5 b4). intros b5 B5 A5.
  destruct B1 as [L1 S1 _ C1 X1 K11 K13 K14 K15 _].
  destruct B2 as [L2 S2 _ C2 _ K21 K23 K24 K25 _].
  destruct B3 as [L3 S3 _ C3 _ K31 K33 K34 K35 _].
  destruct B4 as [L4 S4 _ C4 _ K41 K43 K44 K45 _].
  destruct B5 as [L5 S5 _ C5 _ K51 K53 K54 K55 _].
  cbv zeta in A2, A3, A4, A5.
  rewrite L4, L3, L2, L1 in *. rewrite S4, S3, S2, S1 in *.
  exists (aux (st (rk b2))), (aux (st (rk b3))), (aux (st (rk b4))),
         (aux (st (rk b5))), (K3 (st (rk b2))).
  split. { rewrite C5, C4, C3, C2, C1. reflexivity. }
  split. { now rewrite K51, K41, K31, K21, K11. }
  split. { now rewrite K23, K13. }
  split. { now rewrite K53, K43, K33. }
  split. { now rewrite K54, K44, K34, K24, K14. }
  split. { now rewrite K55, K45, K35, K25, K15. }
  rewrite K51, K53, K54, K41, K43, K31.
  split; intros i Hi.
  - destruct (A2 i) as [E2 _], (A3 i) as [E3 _], (A4 i) as [E4 _], (A5 i) as [E5 _].
    rewrite (E2 Hi), (E3 Hi), (E4 Hi), (E5 Hi).
    rewrite K41, K43, K44, K31, K33, K21. repeat split.
  - destruct (A2 i) as [_ E2], (A3 i) as [_ E3], (A4 i) as [_ E4], (A5 i) as [_ E5].
    rewrite (E5 Hi), (E4 Hi), (E3 Hi), (E2 Hi).
    rewrite X1. repeat split.
Qed.


(** The five blocks together leave the automatic variables and the
    solution structure alone. *)
Lemma coefficients_loc a : loc (coefficients a) = loc a.
Proof.
  unfold coefficients.
  rewrite (block_loc _ _ _ _ _ (eval_K5_block _)), (block_loc _ _ _ _ _ (eval_K4_block _)),
    (block_loc _ _ _ _ _ (eval_K3_block _)), (block_loc _ _ _ _ _ (eval_K2_block _)).
  apply (block_loc _ _ _ _ _ (eval_K1_block _)).
Qed.

Lemma coefficients_sys a : sys (rk (coefficients a)) = sys (rk a).
Proof.
  unfold coefficients.
  rewrite (block_sys _ _ _ _ _ (eval_K5_block _)), (block_sys _ _ _ _ _ (eval_K4_block _)),
    (block_sys _ _ _ _ _ (eval_K3_block _)), (block_sys _ _ _ _ _ (eval_K2_block _)).
  apply (block_sys _ _ _ _ _ (eval_K1_block _)).
Qed.

Lemma coefficients_meta_calls a : meta_calls (rk (coefficients a)) = meta_calls (rk a).
Proof.
  unfold coefficients.
  rewrite (block_meta _ _ _ _ _ (eval_K5_block _)), (block_meta _ _ _ _ _ (eval_K4_block _)),
    (block_meta _ _ _ _ _ (eval_K3_block _)), (block_meta _ _ _ _ _ (eval_K2_block _)).
  apply (block_meta _ _ _ _ _ (eval_K1_block _)).
Qed.

Lemma coefficients_other a :
  max_n (st (rk (coefficients a))) = max_n (st (rk a)) /\
  handle_NAN (st (rk (coefficients a))) = handle_NAN (st (rk a)) /\
  last_NAN (st (rk (coefficients a))) = last_NAN (st (rk a)) /\
  MPIrank (st (rk (coefficients a))) = MPIrank (st (rk a)) /\
  MPImaster (st (rk (coefficients a))) = MPImaster (st (rk a)).
Proof.
  unfold coefficients.
  destruct (block_other _ _ _ _ _ (eval_K5_block (eval_K4 (eval_K3 (eval_K2 (eval_K1 a))))))
    as (-> & -> & -> & -> & ->).
  destruct (block_other _ _ _ _ _ (eval_K4_block (eval_K3 (eval_K2 (eval_K1 a)))))
    as (-> & -> & -> & -> & ->).
  destruct (block_other _ _ _ _ _ (eval_K3_block (eval_K2 (eval_K1 a))))
    as (-> & -> & -> & -> & ->).
  destruct (block_other _ _ _ _ _ (eval_K2_block (eval_K1 a)))
    as (-> & -> & -> & -> & ->).
  exact (block_other _ _ _ _ _ (eval_K1_block a)).
Qed.

Lemma coefficients_is_master a :
  is_master (st (rk (coefficients a))) = is_master (st (rk a)).
Proof.
  unfold is_master.
  destruct (coefficients_other a) as (_ & _ & _ & -> & ->). reflexivity.
Qed.

End Coefficients.

(** C3, as the specification states it, fails.  Offset 3 lies in the gap
    between the two chunks of [layout_two]; there [x] holds 1 and [aux]
    holds what the allocated memory held, and so do the arguments of the
    evaluations for K2 to K5 (the list has the latest call first). *)
Lemma staged_argument_in_gap :
  let a := root (at_loop c_decay) in
  existsb (Z.eqb 3) (offsets (l_n (loc a)) (l_n_chunks (loc a))) = false /\
  the_x (sys (rk a)) 3 = 1%float /\
  map (fun call => call_x call 3) (rhs_calls (rk (coefficients a)))
  = [7; 7; 7; 7; 1]%float.
Proof. vm_compute. repeat split. Qed.

(* ================================================================== *)
(** ** The step attempt, rank by rank *)

Lemma reduce_each {A B V : Type} (op : V -> V -> V) (get : B -> V) (u : A -> B)
    (c : Cluster A) :
  reduce op get (each u c) = reduce op (fun a => get (u a)) c.
Proof. unfold reduce, each. cbn. now rewrite map_map. Qed.

Ltac split_ifs :=
  repeat match goal with
         | |- context [if ?b then _ else _] => destruct b
         | |- context [match ?o with Some _ => _ | None => _ end] => destruct o
         end.

Arguments coefficients : simpl never.
Arguments for_chunks : simpl never.

Section Attempt.

Context {build : Build}.

Lemma rk_on_loc u b : rk (on_loc u b) = rk b.
Proof. reflexivity. Qed.

Lemma loc_on_loc u b : loc (on_loc u b) = u (loc b).
Proof. reflexivity. Qed.

Lemma estimate_rk b :
  rk (estimate b) =
  {| st := st (rk b);
     sys := set_steps_total (long_incr (steps_total (sys (rk b)))) (sys (rk b));
     rhs_calls := rhs_calls (rk b);
     meta_calls := meta_calls (rk b) |}.
Proof. reflexivity. Qed.

Lemma estimate_loc b :
  loc (estimate b) =
  set_l_NAN_occurred_local (snd (scan (st (rk b)) (l_n (loc b)) (l_n_chunks (loc b))))
    (set_l_eps (fst (scan (st (rk b)) (l_n (loc b)) (l_n_chunks (loc b)))) (loc b)).
Proof. reflexivity. Qed.

Lemma nan_vote_rk G b : rk (nan_vote G b) = rk b.
Proof. unfold nan_vote. split_ifs; reflexivity. Qed.

Lemma nan_vote_loc G b : loc (nan_vote G b) = set_l_command (nan_command G b) (loc b).
Proof.
  unfold nan_vote, nan_command.
  destruct (negb (handle_NAN (st (rk b)) =? 0) && is_master (st (rk b)) && negb (G =? 0)).
  - reflexivity.
  - destruct b as [r l]. destruct l. reflexivity.
Qed.

Lemma nan_vote_l_eps G b : l_eps (loc (nan_vote G b)) = l_eps (loc b).
Proof. rewrite nan_vote_loc. reflexivity. Qed.

Lemma decide_rk M b : rk (decide M b) = rk b.
Proof. reflexivity. Qed.

Lemma decide_new_h M b : l_new_h (loc (decide M b)) = h_new M b.
Proof.
  unfold h_new, reported_eps, decide. cbn [loc on_loc l_new_h set_l_command set_l_new_h].
  destruct (l_delta_mode (loc b) =? DELTA_LOCAL);
    match goal with |- context [fgt ?e 0%float] => destruct (fgt e 0%float) end;
    try reflexivity;
    now rewrite (FloatFacts.fmul_comm (powF _ _) 0.8%float).
Qed.

Lemma decide_loc M b :
  loc (decide M b) =
  set_l_command (decided_command M b)
    (set_l_new_h (h_new M b) (set_l_max_eps (reported_eps M b) (loc b))).
Proof.
  pose proof (decide_new_h M b) as E. unfold decided_command. rewrite <- E.
  unfold decide, reported_eps. reflexivity.
Qed.

Lemma propose_steps c :
  propose c =
  bcast_command
    (each (fun a => decide (all_max_eps c)
                      (nan_vote (NAN_occurred_global c) (estimate (coefficients a)))) c).
Proof.
  unfold propose. fold (measured c). fold (NAN_occurred_global c).
  rewrite reduce_each.
  replace (reduce MPI_MAX
             (fun a => l_eps (loc (nan_vote (NAN_occurred_global c) a)))
             (measured c)) with (all_max_eps c).
  - unfold measured. rewrite !each_each. reflexivity.
  - unfold all_max_eps, reduce. f_equal.
    + apply map_ext. intros a. symmetry. apply nan_vote_l_eps.
    + symmetry. apply nan_vote_l_eps.
Qed.

Lemma l_command_on_loc_set v b : l_command (loc (on_loc (set_l_command v) b)) = v.
Proof. reflexivity. Qed.

Lemma command_of_root c :
  command_of c =
  l_command (loc (decide (all_max_eps c)
                    (nan_vote (NAN_occurred_global c)
                       (estimate (coefficients (root c)))))).
Proof.
  unfold command_of. rewrite propose_steps. unfold bcast_command.
  rewrite !root_each. apply l_command_on_loc_set.
Qed.

Lemma l_command_set v l : l_command (set_l_command v l) = v.
Proof. reflexivity. Qed.

Lemma command_of_eq c :
  command_of c =
  decided_command (all_max_eps c)
    (nan_vote (NAN_occurred_global c) (estimate (coefficients (root c)))).
Proof. rewrite command_of_root, decide_loc. apply l_command_set. Qed.

Lemma propose_each c :
  propose c = each (proposal (NAN_occurred_global c) (all_max_eps c) (command_of c)) c.
Proof.
  rewrite propose_steps. unfold bcast_command.
  rewrite each_each, root_each, <- command_of_root. reflexivity.
Qed.

Lemma proposal_command G M command a :
  l_command (loc (proposal G M command a)) = command.
Proof. unfold proposal. apply l_command_on_loc_set. Qed.

(** The iteration of the loop as one step of every rank, chosen by the
    two broadcast commands. *)
Lemma attempt_cases c :
  let command := command_of c in
  let P := proposal (NAN_occurred_global c) (all_max_eps c) command in
  let command2 := l_command (loc (update (P (root c)))) in
  attempt c =
    if has command RKA_CMD_NAN then
      if has command RKA_CMD_h_TOO_SMALL
      then (each (fun a => give_up_NAN (P a)) c, Some (-4))
      else (each (fun a => retry_NAN (P a)) c, None)
    else if has command RKA_CMD_UPDATE then
      if has command2 RKA_CMD_FINISHED
      then (each (fun a => accepted command2 (P a)) c, Some 0)
      else if has command2 RKA_CMD_BREAK
      then (each (fun a => interrupted (accepted command2 (P a))) c, Some 1)
      else (each (fun a => advance (rearrange (accepted command2 (P a)))) c, None)
    else (each (fun a => advance (P a)) c, None).
Proof.
  intros command P command2. unfold attempt. cbv zeta.
  rewrite propose_each. fold command. fold P.
  unfold bcast_command. rewrite !each_each, !root_each.
  assert (EP : forall a, l_command (loc (P a)) = command)
    by (intros a; apply proposal_command).
  rewrite !EP. fold command2. rewrite !l_command_on_loc_set.
  unfold accepted.
  destruct (has command RKA_CMD_NAN).
  - destruct (has command RKA_CMD_h_TOO_SMALL); reflexivity.
  - destruct (has command RKA_CMD_UPDATE); [|reflexivity].
    destruct (has command2 RKA_CMD_FINISHED); [reflexivity|].
    destruct (has command2 RKA_CMD_BREAK); reflexivity.
Qed.

(** *** What a rank holds when the command has reached it *)

Lemma reported_eps_ext M a b :
  l_delta_mode (loc b) = l_delta_mode (loc a) -> l_h (loc b) = l_h (loc a) ->
  reported_eps M b = reported_eps M a.
Proof. unfold reported_eps. intros -> ->. reflexivity. Qed.

Lemma h_new_ext M a b :
  l_delta_mode (loc b) = l_delta_mode (loc a) -> l_h (loc b) = l_h (loc a) ->
  l_delta (loc b) = l_delta (loc a) ->
  h_new M b = h_new M a.
Proof.
  intros E1 E2 E3. unfold h_new. rewrite (reported_eps_ext M a b E1 E2), E2, E3.
  reflexivity.
Qed.

(** The automatic variables after the estimate and the vote on NaNs. *)
Lemma voted_loc G a :
  loc (nan_vote G (estimate (coefficients a))) =
  set_l_command (nan_command G (estimate (coefficients a)))
    (set_l_NAN_occurred_local
       (snd (scan (st (rk (coefficients a))) (l_n (loc a)) (l_n_chunks (loc a))))
       (set_l_eps
          (fst (scan (st (rk (coefficients a))) (l_n (loc a)) (l_n_chunks (loc a))))
          (loc a))).
Proof. rewrite nan_vote_loc, estimate_loc, coefficients_loc. reflexivity. Qed.

Lemma voted_rk G a :
  rk (nan_vote G (estimate (coefficients a))) =
  {| st := st (rk (coefficients a));
     sys := set_steps_total (long_incr (steps_total (sys (rk a)))) (sys (rk a));
     rhs_calls := rhs_calls (rk (coefficients a));
     meta_calls := meta_calls (rk a) |}.
Proof.
  rewrite nan_vote_rk, estimate_rk, coefficients_sys, coefficients_meta_calls.
  reflexivity.
Qed.

Lemma proposal_rk G M command a :
  rk (proposal G M command a) =
  {| st := st (rk (coefficients a));
     sys := set_steps_total (long_incr (steps_total (sys (rk a)))) (sys (rk a));
     rhs_calls := rhs_calls (rk (coefficients a));
     meta_calls := meta_calls (rk a) |}.
Proof. unfold proposal. rewrite rk_on_loc, decide_rk. apply voted_rk. Qed.

Lemma proposal_loc G M command a :
  loc (proposal G M command a) =
  {| l_final_time := l_final_time (loc a);
     l_t := l_t (loc a);
     l_h := l_h (loc a);
     l_new_h := h_new M a;
     l_h_min := l_h_min (loc a);
     l_delta := l_delta (loc a);
     l_delta_mode := l_delta_mode (loc a);
     l_n := l_n (loc a);
     l_n_chunks := l_n_chunks (loc a);
     l_f := l_f (loc a);
     l_command := command;
     l_eps := fst (scan (st (rk (coefficients a))) (l_n (loc a)) (l_n_chunks (loc a)));
     l_max_eps := reported_eps M a;
     l_NAN_occurred_local :=
       snd (scan (st (rk (coefficients a))) (l_n (loc a)) (l_n_chunks (loc a))) |}.
Proof.
  unfold proposal. rewrite loc_on_loc, decide_loc.
  rewrite (h_new_ext M a), (reported_eps_ext M a);
    rewrite voted_loc; reflexivity.
Qed.

End Attempt.

(* ================================================================== *)
(** ** The effect of a step attempt *)

Lemma wrap_long_id z : LONG_MIN <= z <= LONG_MAX -> wrap 64 z = z.
Proof.
  unfold LONG_MIN, LONG_MAX, wrap. intros H.
  change (2 ^ (64 - 1)) with 9223372036854775808.
  change (2 ^ 64) with 18446744073709551616.
  change (2 ^ 63) with 9223372036854775808 in H.
  rewrite Z.mod_small; lia.
Qed.

Lemma long_incr_plus v : can_count v -> long_incr v = v + 1.
Proof. unfold can_count, long_incr. intros H. apply wrap_long_id. lia. Qed.

Section Effect.

Context {build : Build}.

Open Scope float_scope.

(** *** The accepted step *)

Lemma update_st a : st (rk (update a)) = st (rk a).
Proof. unfold update. split_ifs; reflexivity. Qed.
Lemma update_sys_x a : sys_x (sys (rk (update a))) = Some (updated_x a).
Proof. unfold update. split_ifs; reflexivity. Qed.
Lemma update_steps a : steps (sys (rk (update a))) = long_incr (steps (sys (rk a))).
Proof. unfold update. split_ifs; reflexivity. Qed.
Lemma update_steps_total a : steps_total (sys (rk (update a))) = steps_total (sys (rk a)).
Proof. unfold update. split_ifs; reflexivity. Qed.
Lemma update_l_t a : l_t (loc (update a)) = l_t (loc a) + l_h (loc a).
Proof. unfold update. split_ifs; reflexivity. Qed.
Lemma update_l_h a : l_h (loc (update a)) = l_h (loc a).
Proof. unfold update. split_ifs; reflexivity. Qed.
Lemma update_l_new_h a : l_new_h (loc (update a)) = l_new_h (loc a).
Proof. unfold update. split_ifs; reflexivity. Qed.
Lemma update_l_n a : l_n (loc (update a)) = l_n (loc a).
Proof. unfold update. split_ifs; reflexivity. Qed.
Lemma update_l_n_chunks a : l_n_chunks (loc (update a)) = l_n_chunks (loc a).
Proof. unfold update. split_ifs; reflexivity. Qed.
Lemma update_l_final_time a : l_final_time (loc (update a)) = l_final_time (loc a).
Proof. unfold update. split_ifs; reflexivity. Qed.
Lemma update_rhs_calls a : rhs_calls (rk (update a)) = rhs_calls (rk a).
Proof. unfold update. split_ifs; reflexivity. Qed.
Lemma update_meta_calls a : meta_calls (rk (update a)) = meta_calls (rk a).
Proof. unfold update. split_ifs; reflexivity. Qed.
Lemma update_callbacks a :
  DDLBF_Rearrange (sys (rk (update a))) = DDLBF_Rearrange (sys (rk a)) /\
  meta_f (sys (rk (update a))) = meta_f (sys (rk a)) /\
  Service_Callback (sys (rk (update a))) = Service_Callback (sys (rk a)).
Proof. unfold update. split_ifs; repeat split; reflexivity. Qed.

(** *** The rearrangement and the next right hand side *)

Lemma rearrange_st a : st (rk (rearrange a)) = st (rk a).
Proof. unfold rearrange. split_ifs; reflexivity. Qed.
Lemma rearrange_sys_x a : sys_x (sys (rk (rearrange a))) = sys_x (sys (rk a)).
Proof. unfold rearrange. split_ifs; reflexivity. Qed.
Lemma rearrange_steps a : steps (sys (rk (rearrange a))) = steps (sys (rk a)).
Proof. unfold rearrange. split_ifs; reflexivity. Qed.
Lemma rearrange_steps_total a :
  steps_total (sys (rk (rearrange a))) = steps_total (sys (rk a)).
Proof. unfold rearrange. split_ifs; reflexivity. Qed.
Lemma rearrange_l_t a : l_t (loc (rearrange a)) = l_t (loc a).
Proof. unfold rearrange. split_ifs; reflexivity. Qed.
Lemma rearrange_l_h a : l_h (loc (rearrange a)) = l_h (loc a).
Proof. unfold rearrange. split_ifs; reflexivity. Qed.
Lemma rearrange_l_new_h a : l_new_h (loc (rearrange a)) = l_new_h (loc a).
Proof. unfold rearrange. split_ifs; reflexivity. Qed.
Lemma rearrange_l_command a : l_command (loc (rearrange a)) = l_command (loc a).
Proof. unfold rearrange. split_ifs; reflexivity. Qed.
Lemma rearrange_l_final_time a : l_final_time (loc (rearrange a)) = l_final_time (loc a).
Proof. unfold rearrange. split_ifs; reflexivity. Qed.
Lemma rearrange_rhs_calls a : rhs_calls (rk (rearrange a)) = rhs_calls (rk a).
Proof. unfold rearrange. split_ifs; reflexivity. Qed.

(** *** The end of the loop body *)

Lemma advance_st a : st (rk (advance a)) = st (rk a).
Proof. unfold advance. split_ifs; reflexivity. Qed.
Lemma advance_sys_x a : sys_x (sys (rk (advance a))) = sys_x (sys (rk a)).
Proof. unfold advance. split_ifs; reflexivity. Qed.
Lemma advance_sys_t a : sys_t (sys (rk (advance a))) = sys_t (sys (rk a)).
Proof. unfold advance. split_ifs; reflexivity. Qed.
Lemma advance_steps a : steps (sys (rk (advance a))) = steps (sys (rk a)).
Proof. unfold advance. split_ifs; reflexivity. Qed.
Lemma advance_steps_total a :
  steps_total (sys (rk (advance a))) = steps_total (sys (rk a)).
Proof. unfold advance. split_ifs; reflexivity. Qed.
Lemma advance_l_t a : l_t (loc (advance a)) = l_t (loc a).
Proof. unfold advance. split_ifs; reflexivity. Qed.
Lemma advance_l_n a : l_n (loc (advance a)) = l_n (loc a).
Proof. unfold advance. split_ifs; reflexivity. Qed.
Lemma advance_l_n_chunks a : l_n_chunks (loc (advance a)) = l_n_chunks (loc a).
Proof. unfold advance. split_ifs; reflexivity. Qed.
Lemma advance_rhs_calls a : rhs_calls (rk (advance a)) = rhs_calls (rk a).
Proof. unfold advance. split_ifs; reflexivity. Qed.
Lemma advance_l_h a :
  l_h (loc (advance a)) =
  if has (l_command (loc a)) RKA_CMD_NEXTFINISH
  then l_final_time (loc a) - l_t (loc a) else l_new_h (loc a).
Proof. unfold advance. split_ifs; reflexivity. Qed.
Lemma advance_l_command a :
  l_command (loc (advance a)) =
  if has (l_command (loc a)) RKA_CMD_NEXTFINISH then RKA_CMD_FINISHED else 0%Z.
Proof. unfold advance. split_ifs; reflexivity. Qed.

(** *** Assignments and the members they leave alone *)

Lemma l_t_set_l_command v l : l_t (set_l_command v l) = l_t l.
Proof. reflexivity. Qed.
Lemma steps_set_steps_total v s : steps (set_steps_total v s) = steps s.
Proof. reflexivity. Qed.
Lemma steps_total_set_steps_total v s : steps_total (set_steps_total v s) = v.
Proof. reflexivity. Qed.
Lemma sys_x_set_steps_total v s : sys_x (set_steps_total v s) = sys_x s.
Proof. reflexivity. Qed.
Lemma sys_t_set_steps_total v s : sys_t (set_steps_total v s) = sys_t s.
Proof. reflexivity. Qed.

(** *** Members of a structure given member by member *)

Lemma st_mk s y r m : st {| st := s; sys := y; rhs_calls := r; meta_calls := m |} = s.
Proof. reflexivity. Qed.
Lemma sys_mk s y r m : sys {| st := s; sys := y; rhs_calls := r; meta_calls := m |} = y.
Proof. reflexivity. Qed.
Lemma rhs_calls_mk s y r m :
  rhs_calls {| st := s; sys := y; rhs_calls := r; meta_calls := m |} = r.
Proof. reflexivity. Qed.
Lemma meta_calls_mk s y r m :
  meta_calls {| st := s; sys := y; rhs_calls := r; meta_calls := m |} = m.
Proof. reflexivity. Qed.
Lemma l_final_time_mk v0 v1 v2 v3 v4 v5 v6 v7 v8 v9 v10 v11 v12 v13 :
  l_final_time {| l_final_time := v0; l_t := v1; l_h := v2; l_new_h := v3;
     l_h_min := v4; l_delta := v5; l_delta_mode := v6; l_n := v7; l_n_chunks := v8;
     l_f := v9; l_command := v10; l_eps := v11; l_max_eps := v12; l_NAN_occurred_local := v13 |} = v0.
Proof. reflexivity. Qed.
Lemma l_t_mk v0 v1 v2 v3 v4 v5 v6 v7 v8 v9 v10 v11 v12 v13 :
  l_t {| l_final_time := v0; l_t := v1; l_h := v2; l_new_h := v3;
     l_h_min := v4; l_delta := v5; l_delta_mode := v6; l_n := v7; l_n_chunks := v8;
     l_f := v9; l_command := v10; l_eps := v11; l_max_eps := v12; l_NAN_occurred_local := v13 |} = v1.
Proof. reflexivity. Qed.
Lemma l_h_mk v0 v1 v2 v3 v4 v5 v6 v7 v8 v9 v10 v11 v12 v13 :
  l_h {| l_final_time := v0; l_t := v1; l_h := v2; l_new_h := v3;
     l_h_min := v4; l_delta := v5; l_delta_mode := v6; l_n := v7; l_n_chunks := v8;
     l_f := v9; l_command := v10; l_eps := v11; l_max_eps := v12; l_NAN_occurred_local := v13 |} = v2.
Proof. reflexivity. Qed.
Lemma l_new_h_mk v0 v1 v2 v3 v4 v5 v6 v7 v8 v9 v10 v11 v12 v13 :
  l_new_h {| l_final_time := v0; l_t := v1; l_h := v2; l_new_h := v3;
     l_h_min := v4; l_delta := v5; l_delta_mode := v6; l_n := v7; l_n_chunks := v8;
     l_f := v9; l_command := v10; l_eps := v11; l_max_eps := v12; l_NAN_occurred_local := v13 |} = v3.
Proof. reflexivity. Qed.
Lemma l_h_min_mk v0 v1 v2 v3 v4 v5 v6 v7 v8 v9 v10 v11 v12 v13 :
  l_h_min {| l_final_time := v0; l_t := v1; l_h := v2; l_new_h := v3;
     l_h_min := v4; l_delta := v5; l_delta_mode := v6; l_n := v7; l_n_chunks := v8;
     l_f := v9; l_command := v10; l_eps := v11; l_max_eps := v12; l_NAN_occurred_local := v13 |} = v4.
Proof. reflexivity. Qed.
Lemma l_delta_mk v0 v1 v2 v3 v4 v5 v6 v7 v8 v9 v10 v11 v12 v13 :
  l_delta {| l_final_time := v0; l_t := v1; l_h := v2; l_new_h := v3;
     l_h_min := v4; l_delta := v5; l_delta_mode := v6; l_n := v7; l_n_chunks := v8;
     l_f := v9; l_command := v10; l_eps := v11; l_max_eps := v12; l_NAN_occurred_local := v13 |} = v5.
Proof. reflexivity. Qed.
Lemma l_delta_mode_mk v0 v1 v2 v3 v4 v5 v6 v7 v8 v9 v10 v11 v12 v13 :
  l_delta_mode {| l_final_time := v0; l_t := v1; l_h := v2; l_new_h := v3;
     l_h_min := v4; l_delta := v5; l_delta_mode := v6; l_n := v7; l_n_chunks := v8;
     l_f := v9; l_command := v10; l_eps := v11; l_max_eps := v12; l_NAN_occurred_local := v13 |} = v6.
Proof. reflexivity. Qed.
Lemma l_n_mk v0 v1 v2 v3 v4 v5 v6 v7 v8 v9 v10 v11 v12 v13 :
  l_n {| l_final_time := v0; l_t := v1; l_h := v2; l_new_h := v3;
     l_h_min := v4; l_delta := v5; l_delta_mode := v6; l_n := v7; l_n_chunks := v8;
     l_f := v9; l_command := v10; l_eps := v11; l_max_eps := v12; l_NAN_occurred_local := v13 |} = v7.
Proof. reflexivity. Qed.
Lemma l_n_chunks_mk v0 v1 v2 v3 v4 v5 v6 v7 v8 v9 v10 v11 v12 v13 :
  l_n_chunks {| l_final_time := v0; l_t := v1; l_h := v2; l_new_h := v3;
     l_h_min := v4; l_delta := v5; l_delta_mode := v6; l_n := v7; l_n_chunks := v8;
     l_f := v9; l_command := v10; l_eps := v11; l_max_eps := v12; l_NAN_occurred_local := v13 |} = v8.
Proof. reflexivity. Qed.
Lemma l_f_mk v0 v1 v2 v3 v4 v5 v6 v7 v8 v9 v10 v11 v12 v13 :
  l_f {| l_final_time := v0; l_t := v1; l_h := v2; l_new_h := v3;
     l_h_min := v4; l_delta := v5; l_delta_mode := v6; l_n := v7; l_n_chunks := v8;
     l_f := v9; l_command := v10; l_eps := v11; l_max_eps := v12; l_NAN_occurred_local := v13 |} = v9.
Proof. reflexivity. Qed.
Lemma l_command_mk v0 v1 v2 v3 v4 v5 v6 v7 v8 v9 v10 v11 v12 v13 :
  l_command {| l_final_time := v0; l_t := v1; l_h := v2; l_new_h := v3;
     l_h_min := v4; l_delta := v5; l_delta_mode := v6; l_n := v7; l_n_chunks := v8;
     l_f := v9; l_command := v10; l_eps := v11; l_max_eps := v12; l_NAN_occurred_local := v13 |} = v10.
Proof. reflexivity. Qed.
Lemma l_eps_mk v0 v1 v2 v3 v4 v5 v6 v7 v8 v9 v10 v11 v12 v13 :
  l_eps {| l_final_time := v0; l_t := v1; l_h := v2; l_new_h := v3;
     l_h_min := v4; l_delta := v5; l_delta_mode := v6; l_n := v7; l_n_chunks := v8;
     l_f := v9; l_command := v10; l_eps := v11; l_max_eps := v12; l_NAN_occurred_local := v13 |} = v11.
Proof. reflexivity. Qed.
Lemma l_max_eps_mk v0 v1 v2 v3 v4 v5 v6 v7 v8 v9 v10 v11 v12 v13 :
  l_max_eps {| l_final_time := v0; l_t := v1; l_h := v2; l_new_h := v3;
     l_h_min := v4; l_delta := v5; l_delta_mode := v6; l_n := v7; l_n_chunks := v8;
     l_f := v9; l_command := v10; l_eps := v11; l_max_eps := v12; l_NAN_occurred_local := v13 |} = v12.
Proof. reflexivity. Qed.
Lemma l_NAN_occurred_local_mk v0 v1 v2 v3 v4 v5 v6 v7 v8 v9 v10 v11 v12 v13 :
  l_NAN_occurred_local {| l_final_time := v0; l_t := v1; l_h := v2; l_new_h := v3;
     l_h_min := v4; l_delta := v5; l_delta_mode := v6; l_n := v7; l_n_chunks := v8;
     l_f := v9; l_command := v10; l_eps := v11; l_max_eps := v12; l_NAN_occurred_local := v13 |} = v13.
Proof. reflexivity. Qed.

(** *** The proposal, member by member *)

Lemma estimate_st b : st (rk (estimate b)) = st (rk b).
Proof. reflexivity. Qed.

Lemma proposal_st G M command a :
  st (rk (proposal G M command a)) = st (rk (coefficients a)).
Proof. rewrite proposal_rk. apply st_mk. Qed.

Lemma proposal_sys G M command a :
  sys (rk (proposal G M command a)) =
  set_steps_total (long_incr (steps_total (sys (rk a)))) (sys (rk a)).
Proof. rewrite proposal_rk. apply sys_mk. Qed.

Lemma proposal_l_t G M command a : l_t (loc (proposal G M command a)) = l_t (loc a).
Proof. rewrite proposal_loc. apply l_t_mk. Qed.
Lemma proposal_l_h G M command a : l_h (loc (proposal G M command a)) = l_h (loc a).
Proof. rewrite proposal_loc. apply l_h_mk. Qed.
Lemma proposal_l_new_h G M command a :
  l_new_h (loc (proposal G M command a)) = h_new M a.
Proof. rewrite proposal_loc. apply l_new_h_mk. Qed.
Lemma proposal_l_n G M command a : l_n (loc (proposal G M command a)) = l_n (loc a).
Proof. rewrite proposal_loc. apply l_n_mk. Qed.
Lemma proposal_l_n_chunks G M command a :
  l_n_chunks (loc (proposal G M command a)) = l_n_chunks (loc a).
Proof. rewrite proposal_loc. apply l_n_chunks_mk. Qed.
Lemma proposal_l_final_time G M command a :
  l_final_time (loc (proposal G M command a)) = l_final_time (loc a).
Proof. rewrite proposal_loc. apply l_final_time_mk. Qed.

(** *** The command word of the master *)

Lemma nan_command_ext G a b :
  handle_NAN (st (rk b)) = handle_NAN (st (rk a)) ->
  is_master (st (rk b)) = is_master (st (rk a)) ->
  l_command (loc b) = l_command (loc a) ->
  l_h (loc b) = l_h (loc a) ->
  l_final_time (loc b) = l_final_time (loc a) ->
  l_t (loc b) = l_t (loc a) ->
  nan_command G b = nan_command G a.
Proof. unfold nan_command. intros -> -> -> -> -> ->. reflexivity. Qed.

Lemma estimate_loc_kept b :
  l_command (loc (estimate b)) = l_command (loc b) /\
  l_h (loc (estimate b)) = l_h (loc b) /\
  l_final_time (loc (estimate b)) = l_final_time (loc b) /\
  l_t (loc (estimate b)) = l_t (loc b).
Proof. repeat split. Qed.

Lemma nan_command_measured G a :
  nan_command G (estimate (coefficients a)) = nan_command G a.
Proof.
  destruct (estimate_loc_kept (coefficients a)) as (E1 & E2 & E3 & E4).
  rewrite coefficients_loc in E1, E2, E3, E4.
  apply nan_command_ext; try assumption.
  - rewrite estimate_st. destruct (coefficients_other a) as (_ & E & _). exact E.
  - rewrite estimate_st. apply coefficients_is_master.
Qed.

Lemma voted_st G a :
  st (rk (nan_vote G (estimate (coefficients a)))) = st (rk (coefficients a)).
Proof. rewrite nan_vote_rk, estimate_st. reflexivity. Qed.

Lemma voted_kept G a :
  let b := nan_vote G (estimate (coefficients a)) in
  l_command (loc b) = nan_command G a /\
  l_delta_mode (loc b) = l_delta_mode (loc a) /\
  l_h (loc b) = l_h (loc a) /\
  l_delta (loc b) = l_delta (loc a) /\
  l_h_min (loc b) = l_h_min (loc a) /\
  l_final_time (loc b) = l_final_time (loc a) /\
  l_t (loc b) = l_t (loc a).
Proof.
  cbv zeta. rewrite voted_loc, nan_command_measured. repeat split.
Qed.

Lemma decided_command_ext M a b :
  is_master (st (rk b)) = is_master (st (rk a)) ->
  l_delta_mode (loc b) = l_delta_mode (loc a) ->
  l_h (loc b) = l_h (loc a) ->
  l_delta (loc b) = l_delta (loc a) ->
  l_h_min (loc b) = l_h_min (loc a) ->
  l_final_time (loc b) = l_final_time (loc a) ->
  l_t (loc b) = l_t (loc a) ->
  decided_command M b =
  if is_master (st (rk a)) then
    if accepts M a then
      let command := add_cmd (l_command (loc b)) RKA_CMD_UPDATE in
      if next_finishes M a then add_cmd command RKA_CMD_NEXTFINISH else command
    else l_command (loc b)
  else l_command (loc b).
Proof.
  intros E0 E1 E2 E3 E4 E5 E6.
  unfold decided_command, accepts, next_finishes.
  rewrite (h_new_ext M a b E1 E2 E3), (reported_eps_ext M a b E1 E2).
  rewrite E0, E2, E3, E4, E5, E6. reflexivity.
Qed.

Lemma command_of_master c :
  command_of c = master_command (NAN_occurred_global c) (all_max_eps c) (root c).
Proof.
  rewrite command_of_eq.
  destruct (voted_kept (NAN_occurred_global c) (root c))
    as (E & E1 & E2 & E3 & E4 & E5 & E6).
  rewrite (decided_command_ext (all_max_eps c) (root c) _
             (eq_trans (f_equal is_master (voted_st _ _)) (coefficients_is_master _))
             E1 E2 E3 E4 E5 E6).
  rewrite E. reflexivity.
Qed.

(** The bits of the command: those of the command the master entered
    the iteration with, and those it has added. *)
Lemma has_add_cmd command b b' :
  In b [1; 2; 4; 8; 16; 32]%Z -> In b' [1; 2; 4; 8; 16; 32]%Z ->
  has (add_cmd command b) b' = (b =? b')%Z || has command b'.
Proof.
  unfold has, add_cmd. intros Hb Hb'. rewrite Z.land_lor_distr_l.
  assert (E : negb (Z.land b b' =? 0)%Z = (b =? b')%Z).
  { cbn in Hb, Hb'. intuition (subst; reflexivity). }
  rewrite <- E.
  destruct (Z.eqb_spec (Z.land command b') 0) as [E1|E1];
    destruct (Z.eqb_spec (Z.land b b') 0) as [E2|E2];
    destruct (Z.eqb_spec (Z.lor (Z.land command b') (Z.land b b')) 0) as [E3|E3];
    try reflexivity; exfalso;
    first [ apply Z.lor_eq_0_iff in E3; tauto
          | apply E3; apply Z.lor_eq_0_iff; tauto ].
Qed.

Lemma has_loop_top c b :
  loop_top c -> In b [1; 2; 4; 16; 32]%Z -> has (l_command (loc (root c))) b = false.
Proof.
  intros [-> | ->] Hb; cbn in Hb; intuition (subst; reflexivity).
Qed.

Lemma has_nan_command G a b :
  In b [4; 16; 32]%Z -> has (nan_command G a) b = has (l_command (loc a)) b.
Proof.
  intros Hb. unfold nan_command.
  destruct (negb (handle_NAN (st (rk a)) =? 0)%Z && is_master (st (rk a))
            && negb (G =? 0)%Z); [|reflexivity].
  destruct (flt _ _); cbn in Hb;
    intuition (subst; repeat (rewrite has_add_cmd by (cbn; tauto)); reflexivity).
Qed.

(** The master issues [RKA_CMD_UPDATE] exactly when it finds the error
    acceptable. *)
Lemma has_update c :
  loop_top c ->
  has (command_of c) RKA_CMD_UPDATE
  = is_master (st (rk (root c))) && accepts (all_max_eps c) (root c).
Proof.
  intros Htop. rewrite command_of_master. unfold master_command.
  pose proof (has_nan_command (NAN_occurred_global c) (root c) 4) as E.
  rewrite (has_loop_top c 4 Htop) in E by (cbn; tauto).
  unfold RKA_CMD_UPDATE, RKA_CMD_NEXTFINISH.
  destruct (is_master (st (rk (root c)))); [|apply E; cbn; tauto].
  destruct (accepts (all_max_eps c) (root c)); [|apply E; cbn; tauto].
  destruct (next_finishes (all_max_eps c) (root c));
    repeat (rewrite has_add_cmd by (cbn; tauto)); reflexivity.
Qed.

(** A command without [RKA_CMD_UPDATE] carries no [RKA_CMD_NEXTFINISH]. *)
Lemma no_update_no_nextfinish c :
  loop_top c ->
  has (command_of c) RKA_CMD_UPDATE = false ->
  has (command_of c) RKA_CMD_NEXTFINISH = false.
Proof.
  intros Htop. rewrite (has_update c Htop). rewrite command_of_master.
  unfold master_command.
  pose proof (has_nan_command (NAN_occurred_global c) (root c) 16) as E.
  rewrite (has_loop_top c 16 Htop) in E by (cbn; tauto).
  destruct (is_master (st (rk (root c)))); [|intros _; apply E; cbn; tauto].
  destruct (accepts (all_max_eps c) (root c)); [discriminate|].
  intros _. apply E. cbn. tauto.
Qed.

(** *** The update of [x] *)

Lemma updated_x_inside a i :
  NoDup (offsets (l_n (loc a)) (l_n_chunks (loc a))) ->
  In i (offsets (l_n (loc a)) (l_n_chunks (loc a))) ->
  updated_x a i =
  the_x (sys (rk a)) i
  + l_h (loc a) / 3 * (0.5 * (the_K1 (st (rk a)) i + K5 (st (rk a)) i)
                       + 2 * K4 (st (rk a)) i).
Proof.
  intros Hnd Hi. unfold updated_x.
  exact (for_chunks_update (l_n (loc a)) (l_n_chunks (loc a))
           (fun i => l_h (loc a) / 3
                     * (0.5 * (the_K1 (st (rk a)) i + K5 (st (rk a)) i)
                        + 2 * K4 (st (rk a)) i))
           (the_x (sys (rk a))) i Hnd Hi).
Qed.

Lemma updated_x_outside a i :
  ~ In i (offsets (l_n (loc a)) (l_n_chunks (loc a))) ->
  updated_x a i = the_x (sys (rk a)) i.
Proof. intros Hi. unfold updated_x. now apply for_chunks_outside. Qed.

Lemma the_x_Some s b : sys_x s = Some b -> the_x s = b.
Proof. unfold the_x. intros ->. reflexivity. Qed.

Lemma the_x_set_steps_total v s : the_x (set_steps_total v s) = the_x s.
Proof. reflexivity. Qed.

(** The array [x] an accepted step leaves, on the frame the attempt
    started from. *)
Lemma proposal_updated_x G M command a :
  updated_x (proposal G M command a) =
  for_chunks (l_n (loc a)) (l_n_chunks (loc a))
    (fun i q => q i + l_h (loc a) / 3
                      * (0.5 * (the_K1 (st (rk (coefficients a))) i
                                + K5 (st (rk (coefficients a))) i)
                         + 2 * K4 (st (rk (coefficients a))) i))
    (the_x (sys (rk a))).
Proof.
  unfold updated_x.
  rewrite proposal_l_n, proposal_l_n_chunks, proposal_l_h, proposal_st, proposal_sys.
  rewrite the_x_set_steps_total. reflexivity.
Qed.

Lemma accepted_sys_x G M command command2 a :
  the_x (sys (rk (accepted command2 (proposal G M command a)))) =
  for_chunks (l_n (loc a)) (l_n_chunks (loc a))
    (fun i q => q i + l_h (loc a) / 3
                      * (0.5 * (the_K1 (st (rk (coefficients a))) i
                                + K5 (st (rk (coefficients a))) i)
                         + 2 * K4 (st (rk (coefficients a))) i))
    (the_x (sys (rk a))).
Proof.
  unfold accepted. rewrite rk_on_loc.
  rewrite (the_x_Some _ _ (update_sys_x _)). apply proposal_updated_x.
Qed.

Lemma accepted_x G M command command2 a i :
  NoDup (offsets (l_n (loc a)) (l_n_chunks (loc a))) ->
  In i (offsets (l_n (loc a)) (l_n_chunks (loc a))) ->
  the_x (sys (rk (accepted command2 (proposal G M command a)))) i =
  the_x (sys (rk a)) i
  + l_h (loc a) / 3
    * (0.5 * (the_K1 (st (rk (coefficients a))) i + K5 (st (rk (coefficients a))) i)
       + 2 * K4 (st (rk (coefficients a))) i).
Proof.
  intros Hnd Hi. rewrite accepted_sys_x.
  generalize (st (rk (coefficients a))). intros g.
  exact (for_chunks_update (l_n (loc a)) (l_n_chunks (loc a))
           (fun i => l_h (loc a) / 3
                     * (0.5 * (the_K1 g i + K5 g i) + 2 * K4 g i))
           (the_x (sys (rk a))) i Hnd Hi).
Qed.

Lemma the_x_ext s s' : sys_x s' = sys_x s -> the_x s' = the_x s.
Proof. unfold the_x. intros ->. reflexivity. Qed.

(** The accepted step seen from one rank, whichever way the iteration
    ends. *)
Lemma accepted_step_taken G M command command2 a (X : Frame -> Frame) :
  (forall b, sys_x (sys (rk (X b))) = sys_x (sys (rk b))) ->
  (forall b, steps (sys (rk (X b))) = steps (sys (rk b))) ->
  (forall b, l_t (loc (X b)) = l_t (loc b)) ->
  step_taken a (X (accepted command2 (proposal G M command a))).
Proof.
  intros Hx Hs Ht. unfold step_taken. cbv zeta. split; [|split].
  - intros Hnd i Hi. rewrite (the_x_ext _ _ (Hx _)).
    exact (accepted_x G M command command2 a i Hnd Hi).
  - rewrite Ht. unfold accepted. rewrite loc_on_loc, l_t_set_l_command.
    rewrite update_l_t, proposal_l_t, proposal_l_h. reflexivity.
  - intros Hc. rewrite Hs. unfold accepted.
    rewrite rk_on_loc, update_steps, proposal_sys, steps_set_steps_total.
    now apply long_incr_plus.
Qed.

Lemma proposal_counted G M command a : counted_once a (proposal G M command a).
Proof.
  intros Hc. rewrite proposal_sys, steps_total_set_steps_total.
  now apply long_incr_plus.
Qed.

Lemma counted_once_after a b b' :
  steps_total (sys (rk b')) = steps_total (sys (rk b)) ->
  counted_once a b -> counted_once a b'.
Proof. unfold counted_once. intros -> H. exact H. Qed.

Lemma accepted_steps_total command2 b :
  steps_total (sys (rk (accepted command2 b))) = steps_total (sys (rk b)).
Proof. unfold accepted. rewrite rk_on_loc. apply update_steps_total. Qed.

Lemma give_up_NAN_steps_total b :
  steps_total (sys (rk (give_up_NAN b))) = steps_total (sys (rk b)).
Proof. reflexivity. Qed.
Lemma retry_NAN_steps_total b :
  steps_total (sys (rk (retry_NAN b))) = steps_total (sys (rk b)).
Proof. reflexivity. Qed.
Lemma interrupted_steps_total b :
  steps_total (sys (rk (interrupted b))) = steps_total (sys (rk b)).
Proof. reflexivity. Qed.
Lemma interrupted_sys_x b : sys_x (sys (rk (interrupted b))) = sys_x (sys (rk b)).
Proof. reflexivity. Qed.
Lemma interrupted_steps b : steps (sys (rk (interrupted b))) = steps (sys (rk b)).
Proof. reflexivity. Qed.
Lemma interrupted_l_t b : l_t (loc (interrupted b)) = l_t (loc b).
Proof. reflexivity. Qed.

(** C1, as the code has it.  In every step attempt each rank increments
    [steps_total] by one.  When the command the master broadcasts carries
    [RKA_CMD_UPDATE] and not [RKA_CMD_NAN], each rank replaces [x_i] by
    [x_i + (h/3) (0.5 (K1_i + K5_i) + 2 K4_i)] at every offset inside its
    (non-overlapping) chunks, advances [t] by the [h] of the attempt and
    increments [steps] by one.  When the command carries neither
    [RKA_CMD_UPDATE] nor [RKA_CMD_NAN], [x], [t] and [steps] are unchanged
    and the next attempt uses [h = h_new]. *)
Theorem attempt_effect (c : Cluster Frame) :
  loop_top c ->
  let command := command_of c in
  let c' := fst (attempt c) in
  Forall2 counted_once (ranks c) (ranks c') /\
  (has command RKA_CMD_UPDATE = true -> has command RKA_CMD_NAN = false ->
     Forall2 step_taken (ranks c) (ranks c')) /\
  (has command RKA_CMD_UPDATE = false -> has command RKA_CMD_NAN = false ->
     Forall2 (step_refused (all_max_eps c)) (ranks c) (ranks c')).
Proof.
  intros Htop command c'. subst c'. rewrite attempt_cases. fold command.
  set (G := NAN_occurred_global c). set (M := all_max_eps c).
  set (command2 := l_command (loc (update (proposal G M command (root c))))).
  split; [|split].
  - destruct (has command RKA_CMD_NAN).
    + destruct (has command RKA_CMD_h_TOO_SMALL); apply Forall2_each; intros a _.
      * exact (counted_once_after a _ _ (give_up_NAN_steps_total _)
                 (proposal_counted G M command a)).
      * exact (counted_once_after a _ _ (retry_NAN_steps_total _)
                 (proposal_counted G M command a)).
    + destruct (has command RKA_CMD_UPDATE).
      * destruct (has command2 RKA_CMD_FINISHED); [|destruct (has command2 RKA_CMD_BREAK)];
          apply Forall2_each; intros a _.
        -- exact (counted_once_after a _ _ (accepted_steps_total _ _)
                    (proposal_counted G M command a)).
        -- apply (counted_once_after a (proposal G M command a));
             [|apply proposal_counted].
           rewrite interrupted_steps_total. apply accepted_steps_total.
        -- apply (counted_once_after a (proposal G M command a));
             [|apply proposal_counted].
           rewrite advance_steps_total, rearrange_steps_total.
           apply accepted_steps_total.
      * apply Forall2_each; intros a _.
        exact (counted_once_after a _ _ (advance_steps_total _)
                 (proposal_counted G M command a)).
  - intros Hupd Hnan. rewrite Hnan, Hupd.
    destruct (has command2 RKA_CMD_FINISHED); [|destruct (has command2 RKA_CMD_BREAK)];
      apply Forall2_each; intros a _.
    + apply (accepted_step_taken G M command command2 a (fun b => b)); reflexivity.
    + apply (accepted_step_taken G M command command2 a interrupted); reflexivity.
    + apply (accepted_step_taken G M command command2 a (fun b => advance (rearrange b)));
        intros b.
      * now rewrite advance_sys_x, rearrange_sys_x.
      * now rewrite advance_steps, rearrange_steps.
      * now rewrite advance_l_t, rearrange_l_t.
  - intros Hupd Hnan. rewrite Hnan, Hupd.
    pose proof (no_update_no_nextfinish c Htop Hupd) as Hnf. fold command in Hnf.
    apply Forall2_each; intros a _. unfold step_refused.
    rewrite advance_sys_x, advance_sys_t, advance_l_t, advance_steps, advance_l_h.
    rewrite proposal_command, Hnf, proposal_sys, proposal_l_t, proposal_l_new_h.
    rewrite sys_x_set_steps_total, sys_t_set_steps_total, steps_set_steps_total.
    repeat split.
Qed.

End Effect.

Lemma attempt_effect_witness :
  loop_top (at_loop c_decay) /\
  Forall2 counted_once (ranks (at_loop c_decay))
    (ranks (fst (attempt (build := sample_build) (at_loop c_decay)))) /\
  Forall2 step_taken (ranks (at_loop c_decay))
    (ranks (fst (attempt (build := sample_build) (at_loop c_decay)))).
Proof.
  assert (Htop : loop_top (at_loop c_decay)) by (left; reflexivity).
  split; [exact Htop|].
  destruct (attempt_effect (build := sample_build) (at_loop c_decay) Htop)
    as (Hcount & Htaken & _).
  split; [exact Hcount|].
  apply Htaken; vm_compute; reflexivity.
Defined.

(** C1, as the specification states it, fails.  With NaN handling on
    and an estimate that is not finite at the first offset, the scan is
    left with [eps = 0]; the master then sets [RKA_CMD_UPDATE] next to
    [RKA_CMD_NAN], and the ranks take the NaN branch: [x], [t] and
    [steps] stay as they were and the next [h] is [h/10]. *)
Lemma update_issued_step_not_taken :
  let c := at_loop c_nan in
  let c' := fst (attempt (build := sample_build) c) in
  has (command_of (build := sample_build) c) RKA_CMD_UPDATE = true /\
  has (command_of (build := sample_build) c) RKA_CMD_NAN = true /\
  steps (sys (rk (root c))) = 0 /\ steps (sys (rk (root c'))) = 0 /\
  l_t (loc (root c)) = 0%float /\ l_t (loc (root c')) = 0%float /\
  map (the_x (sys (rk (root c')))) [0; 1; 2; 4; 5]
  = map (the_x (sys (rk (root c)))) [0; 1; 2; 4; 5] /\
  l_h (loc (root c)) = 1%float /\ l_h (loc (root c')) = 0.1%float.
Proof. vm_compute. repeat split. Qed.


(* ================================================================== *)
(** ** The reduced error and the acceptance of a step *)

Section Maximum.

Import FloatFacts.

Lemma max_step_MPI_MAX a b : MPI_MAX a b = max_step a b.
Proof. reflexivity. Qed.

(** The search for the maximum from [acc]. *)
Lemma fold_max_step es : forall acc,
  is_nan acc = false ->
  let r := fold_left max_step es acc in
  (r = acc \/ In r es) /\ is_nan r = false /\ flt r acc = false /\
  forall e, In e es -> flt r e = false.
Proof.
  induction es as [|e es IH]; intros acc Hacc; cbn [fold_left].
  - repeat split; [now left|exact Hacc|apply flt_irrefl|intros e []].
  - cbv zeta.
    assert (Hm : max_step acc e = if flt acc e then e else acc) by reflexivity.
    rewrite Hm. destruct (flt acc e) eqn:Hlt.
    + destruct (flt_not_nan _ _ Hlt) as [_ He].
      destruct (IH e He) as (Hin & Hnan & Hre & Hall).
      repeat split.
      * right. destruct Hin as [->|Hin]; [now left|now right].
      * exact Hnan.
      * destruct (flt (fold_left max_step es e) acc) eqn:Hr; [|reflexivity].
        rewrite (flt_trans _ _ _ Hr Hlt) in Hre. discriminate.
      * intros e' [<-|Hin']; [exact Hre|now apply Hall].
    + destruct (IH acc Hacc) as (Hin & Hnan & Hre & Hall).
      repeat split.
      * destruct Hin as [->|Hin]; [now left|right; now right].
      * exact Hnan.
      * exact Hre.
      * intros e' [<-|Hin']; [|now apply Hall].
        destruct (flt (fold_left max_step es acc) e) eqn:Hr; [|reflexivity].
        destruct (flt_between _ acc _ Hacc Hr) as [H|H]; congruence.
Qed.

(** A value that nothing of [es] exceeds is exceeded by nothing that a
    maximum of [es] exceeds. *)
Lemma not_below_maximum m r e :
  is_nan r = false -> flt m r = false -> flt r e = false -> flt m e = false.
Proof.
  intros Hr Hmr Hre. destruct (flt m e) eqn:H; [|reflexivity].
  destruct (flt_between _ r _ Hr H) as [H'|H']; congruence.
Qed.

(** The search that merges the maxima of the parts [E k], as the loop
    with [eps_thread_max] does. *)
Lemma fold_max_parts {K : Type} (E : K -> list FLOAT) ks : forall acc r,
  is_nan acc = false -> flt acc 0%float = false ->
  r = fold_left (merge_part E) ks acc ->
  (r = acc \/ In r (flat_map E ks)) /\ is_nan r = false /\ flt r acc = false /\
  forall e, In e (flat_map E ks) -> flt r e = false.
Proof.
  induction ks as [|k ks IH]; intros acc r Hacc Hpos ->; cbn [fold_left flat_map].
  - repeat split; [now left|exact Hacc|apply flt_irrefl|intros e []].
  - destruct (fold_max_step (E k) 0%float zero_not_nan) as (Tin & Tnan & Tpos & Tall).
    set (tm := fold_left max_step (E k) 0%float) in *.
    assert (Hm : merge_part E acc k = if flt acc tm then tm else acc) by reflexivity.
    rewrite Hm. destruct (flt acc tm) eqn:Hlt.
    + assert (Htm : In tm (E k)).
      { destruct Tin as [E0|Hin]; [|exact Hin]. rewrite E0 in Hlt. congruence. }
      destruct (IH tm _ Tnan Tpos eq_refl) as (Hin & Hnan & Hre & Hall).
      repeat split.
      * right. apply in_or_app. destruct Hin as [->|Hin]; [now left|now right].
      * exact Hnan.
      * destruct (flt (fold_left (merge_part E) ks tm) acc) eqn:Hr; [|reflexivity].
        rewrite (flt_trans _ _ _ Hr Hlt) in Hre. discriminate.
      * intros e He. apply in_app_or in He. destruct He as [He|He]; [|now apply Hall].
        exact (not_below_maximum _ tm e Tnan Hre (Tall e He)).
    + destruct (IH acc _ Hacc Hpos eq_refl) as (Hin & Hnan & Hre & Hall).
      repeat split.
      * destruct Hin as [->|Hin]; [now left|right; apply in_or_app; now right].
      * exact Hnan.
      * exact Hre.
      * intros e He. apply in_app_or in He. destruct He as [He|He]; [|now apply Hall].
        apply (not_below_maximum _ tm e Tnan); [|now apply Tall].
        exact (not_below_maximum _ acc tm Hacc Hre Hlt).
Qed.

(** The scan with NaN handling, on estimates that are all finite, is the
    plain search; on estimates of which one is not finite it raises the
    flag. *)
Lemma nan_scan_finite es : forall acc,
  forallb isfinite es = true -> nan_scan es acc = (fold_left max_step es acc, 0).
Proof.
  induction es as [|e es IH]; intros acc H; [reflexivity|].
  cbn [forallb] in H. apply andb_true_iff in H. destruct H as [He Hes].
  cbn [nan_scan fold_left]. rewrite He. cbn [negb]. now apply IH.
Qed.


Lemma nan_scan_not_nan es : forall acc,
  is_nan acc = false -> is_nan (fst (nan_scan es acc)) = false.
Proof.
  induction es as [|e es IH]; intros acc H; [exact H|].
  cbn [nan_scan]. destruct (negb (isfinite e)); [exact H|].
  apply IH.
  assert (Hm : max_step acc e = if flt acc e then e else acc) by reflexivity.
  rewrite Hm. destruct (flt acc e) eqn:Hlt; [|exact H].
  now destruct (flt_not_nan _ _ Hlt).
Qed.

Lemma flat_map_map {A B C : Type} (f : B -> C) (g : A -> list B) l :
  flat_map (fun k => map f (g k)) l = map f (flat_map g l).
Proof.
  induction l as [|a l IH]; [reflexivity|]. cbn. now rewrite map_app, IH.
Qed.

End Maximum.

Section Acceptance.

Context {build : Build}.

Import FloatFacts.

(** The local error estimate is the maximum of the [e] of the rank when
    the scan runs over all its chunks. *)
Lemma scan_maximum g n nc :
  handle_NAN g = 0 \/ forallb isfinite (map (merson_e g n) (cells n nc)) = true ->
  is_maximum (fst (scan g n nc)) (map (merson_e g n) (cells n nc)) /\
  is_nan (fst (scan g n nc)) = false.
Proof.
  intros H. unfold scan.
  assert (Hplain : is_maximum (plain_scan g n nc) (map (merson_e g n) (cells n nc)) /\
                   is_nan (plain_scan g n nc) = false).
  { unfold plain_scan. destruct OPENMP31.
    - destruct (fold_max_step (map (merson_e g n) (cells n nc)) 0%float zero_not_nan)
        as (Hin & Hnan & _ & Hall).
      repeat split; assumption.
    - destruct (fold_max_parts (fun k => map (merson_e g n) (chunk_cells n k))
                  (upto nc) 0%float _ zero_not_nan (flt_irrefl _) eq_refl)
        as (Hin & Hnan & _ & Hall).
      unfold cells. rewrite <- flat_map_map. repeat split; assumption. }
  destruct (Z.eqb_spec (handle_NAN g) 0) as [E|E]; cbn [negb].
  - exact Hplain.
  - destruct H as [H|H]; [contradiction|].
    rewrite (nan_scan_finite _ _ H). cbn [fst].
    destruct (fold_max_step (map (merson_e g n) (cells n nc)) 0%float zero_not_nan)
      as (Hin & Hnan & _ & Hall).
    repeat split; assumption.
Qed.

(** The local error estimate is never a NaN. *)
Lemma scan_not_nan g n nc : is_nan (fst (scan g n nc)) = false.
Proof.
  unfold scan. destruct (negb (handle_NAN g =? 0)).
  - apply nan_scan_not_nan. reflexivity.
  - cbn [fst]. unfold plain_scan. destruct OPENMP31.
    + now destruct (fold_max_step (map (merson_e g n) (cells n nc)) 0%float zero_not_nan)
        as (_ & Hnan & _).
    + now destruct (fold_max_parts (fun k => map (merson_e g n) (chunk_cells n k))
                      (upto nc) 0%float _ zero_not_nan (flt_irrefl _) eq_refl)
        as (_ & Hnan & _).
Qed.

Lemma l_eps_estimate b :
  l_eps (loc (estimate b)) = fst (scan (st (rk b)) (l_n (loc b)) (l_n_chunks (loc b))).
Proof. reflexivity. Qed.

Lemma measured_eps a : l_eps (loc (estimate (coefficients a))) = eps_of a.
Proof. unfold eps_of. rewrite l_eps_estimate, coefficients_loc. reflexivity. Qed.

Lemma all_max_eps_fold c :
  all_max_eps c = fold_left max_step (map eps_of (peers c)) (eps_of (root c)).
Proof.
  unfold all_max_eps, measured. rewrite reduce_each. unfold reduce.
  rewrite (map_ext _ eps_of) by (intros a; apply measured_eps).
  rewrite measured_eps. reflexivity.
Qed.

Lemma eps_of_maximum a :
  scanned_fully a -> is_maximum (eps_of a) (rank_errors a).
Proof.
  intros H. unfold eps_of, rank_errors. apply scan_maximum.
  destruct (coefficients_other a) as (_ & E & _). rewrite E. exact H.
Qed.

Lemma all_max_eps_maximum c :
  (forall a, In a (ranks c) -> scanned_fully a) ->
  is_maximum (all_max_eps c) (all_errors c).
Proof.
  intros H. rewrite all_max_eps_fold.
  destruct (fold_max_step (map eps_of (peers c)) (eps_of (root c)) (scan_not_nan _ _ _))
    as (Hin & _ & Hroot & Hall).
  set (M := fold_left max_step (map eps_of (peers c)) (eps_of (root c))) in *.
  assert (Hof : exists a, In a (ranks c) /\ M = eps_of a).
  { destruct Hin as [E|Hin].
    - exists (root c). split; [now left|exact E].
    - apply in_map_iff in Hin. destruct Hin as [a [E Ha]].
      exists a. split; [now right|now symmetry]. }
  assert (Hup : forall a, In a (ranks c) -> flt M (eps_of a) = false).
  { intros a [<-|Ha]; [exact Hroot|]. apply Hall. now apply in_map. }
  split.
  - destruct Hof as [a [Ha E]]. destruct (eps_of_maximum a (H a Ha)) as [[E0|Hin'] _].
    + left. congruence.
    + right. unfold all_errors. apply in_flat_map. exists a. split; [exact Ha|].
      rewrite E. exact Hin'.
  - intros e He. unfold all_errors in He. apply in_flat_map in He.
    destruct He as [a [Ha He]].
    destruct (eps_of_maximum a (H a Ha)) as [_ Hmax].
    exact (not_below_maximum M (eps_of a) e (scan_not_nan _ _ _) (Hup a Ha) (Hmax e He)).
Qed.

Lemma decide_not_master M b :
  is_master (st (rk b)) = false -> l_command (loc (decide M b)) = l_command (loc b).
Proof.
  intros H. rewrite decide_loc, l_command_set. unfold decided_command. now rewrite H.
Qed.

(** C2, as the code has it.  In a step attempt in which no rank has cut
    its scan short at an estimate that is not finite (so always when NaN
    handling is off), the master issues [RKA_CMD_UPDATE] if and only if
    [eps < delta] or [|h| < h_min], where [eps] is the maximum over all
    ranks and all places of their chunks of
    [eps_mult * |0.2 K1 - 0.9 K3 + 0.8 K4 - 0.1 K5|], multiplied by
    [|h/3|] under [DELTA_LOCAL] and taken as it is otherwise.  With
    [h_min == 0] the second comparison never holds.  A rank that is not the
    master makes no comparison: its decision leaves its command alone. *)
Theorem update_iff_acceptable (c : Cluster Frame) :
  loop_top c ->
  is_master (st (rk (root c))) = true ->
  (forall a, In a (ranks c) -> scanned_fully a) ->
  let M := all_max_eps c in
  let a := root c in
  let eps := if l_delta_mode (loc a) =? DELTA_LOCAL
             then (M * fabsF (l_h (loc a) / 3))%float else M in
  is_maximum M (all_errors c) /\
  has (command_of c) RKA_CMD_UPDATE
  = flt eps (l_delta (loc a)) || flt (fabsF (l_h (loc a))) (l_h_min (loc a)) /\
  (feq (l_h_min (loc a)) 0%float = true ->
   has (command_of c) RKA_CMD_UPDATE = flt eps (l_delta (loc a))) /\
  (forall M' b, is_master (st (rk b)) = false ->
     l_command (loc (decide M' b)) = l_command (loc b)).
Proof.
  intros Htop Hmaster Hscan M a eps.
  assert (Hupd : has (command_of c) RKA_CMD_UPDATE
                 = flt eps (l_delta (loc a))
                   || flt (fabsF (l_h (loc a))) (l_h_min (loc a))).
  { rewrite (has_update c Htop), Hmaster. reflexivity. }
  split; [now apply all_max_eps_maximum|]. split; [exact Hupd|]. split.
  - intros Hmin. rewrite Hupd, (fabsF_not_below_zero _ _ Hmin). apply orb_false_r.
  - intros M' b. apply decide_not_master.
Qed.

End Acceptance.

Lemma update_iff_acceptable_witness :
  let c := at_loop c_decay in
  loop_top c /\
  is_master (st (rk (root c))) = true /\
  (forall a, In a (ranks c) -> scanned_fully a) /\
  is_maximum (all_max_eps (build := sample_build) c) (all_errors c) /\
  has (command_of (build := sample_build) c) RKA_CMD_UPDATE
  = flt (all_max_eps (build := sample_build) c) (l_delta (loc (root c)))
    || flt (fabsF (l_h (loc (root c)))) (l_h_min (loc (root c))).
Proof.
  intros c.
  assert (Htop : loop_top c) by (left; reflexivity).
  assert (Hm : is_master (st (rk (root c))) = true) by reflexivity.
  assert (Hs : forall a, In a (ranks c) -> scanned_fully a).
  { intros a [<- | []]. left. reflexivity. }
  split; [exact Htop|]. split; [exact Hm|]. split; [exact Hs|].
  destruct (update_iff_acceptable (build := sample_build) c Htop Hm Hs)
    as (Hmax & Hupd & _).
  split; [exact Hmax | exact Hupd].
Defined.

(** C2, as the specification states it, fails.  With NaN handling on,
    the scan of the estimates is left at the first one that is not
    finite, and the decision is taken on the maximum found so far.  Here
    the estimate at offset 0 is not finite and the one at offset 1 is
    above [delta]; [|h|] is not below [h_min]; the reduced error is 0 and
    the master issues [RKA_CMD_UPDATE]. *)
Lemma update_on_partial_scan :
  let c := at_loop c_nan in
  let a := root c in
  has (command_of (build := sample_build) c) RKA_CMD_UPDATE = true /\
  existsb (fun e => fle (l_delta (loc a)) e) (all_errors c) = true /\
  existsb (fun e => negb (isfinite e)) (all_errors c) = true /\
  flt (fabsF (l_h (loc a))) (l_h_min (loc a)) = false /\
  all_max_eps (build := sample_build) c = 0%float.
Proof. vm_compute. repeat split. Qed.

(* ================================================================== *)
(** ** The next time step *)

Lemma Forall2_impl {A B : Type} (P Q : A -> B -> Prop) l l' :
  (forall a b, P a b -> Q a b) -> Forall2 P l l' -> Forall2 Q l l'.
Proof. intros H F. induction F; constructor; auto. Qed.

Section NextStep.

Context {build : Build}.

Import FloatFacts.

Open Scope float_scope.

Lemma update_l_command b :
  l_command (loc (update b)) = l_command (loc b) \/
  l_command (loc (update b)) = add_cmd (l_command (loc b)) RKA_CMD_BREAK.
Proof. unfold update. split_ifs; auto. Qed.




End NextStep.

(* ================================================================== *)
(** ** Steps in which a NaN is seen *)


Section NaN.

Context {build : Build}.

Import FloatFacts.

Open Scope float_scope.









End NaN.


(* ================================================================== *)
(** ** The array [x] outside the chunks *)

Lemma Forall2_each_right {A B C : Type} (P : A -> B -> Prop) (Q : A -> C -> Prop)
    (u : B -> C) l (c : Cluster B) :
  (forall a b, P a b -> Q a (u b)) ->
  Forall2 P l (ranks c) -> Forall2 Q l (ranks (each u c)).
Proof.
  intros H F. rewrite ranks_each. induction F; cbn; constructor; auto.
Qed.

Lemma combine_map {A B C : Type} (f : A -> B) (g : A -> C) l :
  combine (map f l) (map g l) = map (fun x => (f x, g x)) l.
Proof. induction l as [|a l IH]; [reflexivity|]. cbn. now rewrite IH. Qed.

Section Frame.

Context {build : Build}.

Lemma framed_untouched r a b : untouched a b -> framed r a -> framed r b.
Proof.
  intros (E1 & E2 & E3 & E4) (F1 & F2 & F3 & F4). unfold framed, gaps_kept, the_x in *.
  rewrite E1, E2, E3, E4. auto.
Qed.

Lemma untouched_trans a b c : untouched a b -> untouched b c -> untouched a c.
Proof.
  intros (E1 & E2 & E3 & E4) (F1 & F2 & F3 & F4). unfold untouched.
  rewrite F1, F2, F3, F4. auto.
Qed.

Lemma untouched_on_st u a : untouched a (on_st u a).
Proof. repeat split. Qed.

Lemma untouched_adjust a : untouched a (adjust a).
Proof. unfold adjust. split_ifs; repeat split. Qed.

Lemma untouched_receive m a : untouched a (receive m a).
Proof. repeat split. Qed.

Lemma untouched_give_up_NAN a : untouched a (give_up_NAN a).
Proof. repeat split. Qed.

Lemma untouched_retry_NAN a : untouched a (retry_NAN a).
Proof. repeat split. Qed.

Lemma untouched_interrupted a : untouched a (interrupted a).
Proof. repeat split. Qed.

Lemma untouched_advance a : untouched a (advance a).
Proof. unfold advance. split_ifs; repeat split. Qed.

Lemma proposal_l_n_all G M command a :
  l_n (loc (proposal G M command a)) = l_n (loc a) /\
  l_n_chunks (loc (proposal G M command a)) = l_n_chunks (loc a).
Proof. split; [apply proposal_l_n|apply proposal_l_n_chunks]. Qed.

Lemma untouched_proposal G M command a : untouched a (proposal G M command a).
Proof.
  unfold untouched. rewrite proposal_sys, proposal_l_n, proposal_l_n_chunks.
  repeat split.
Qed.

Lemma framed_enter final_time r : framed r (enter final_time r).
Proof.
  unfold framed. split; [reflexivity|]. split; [exists 0%nat; reflexivity|].
  split; [reflexivity|]. intros i _. reflexivity.
Qed.

Lemma framed_accepted r command2 a : framed r a -> framed r (accepted command2 a).
Proof.
  intros (F1 & [k F2] & F3 & F4). unfold framed, accepted.
  rewrite rk_on_loc, loc_on_loc.
  assert (E1 : forall v l, l_n (set_l_command v l) = l_n l) by reflexivity.
  assert (E2 : forall v l, l_n_chunks (set_l_command v l) = l_n_chunks l) by reflexivity.
  rewrite E1, E2, update_l_n, update_l_n_chunks.
  destruct (update_callbacks a) as (-> & _ & _).
  split; [exact F1|]. split; [now exists k|]. split; [exact F3|].
  intros i Hi. rewrite (the_x_Some _ _ (update_sys_x a)).
  rewrite updated_x_outside; [now apply F4|].
  rewrite F3, F2. apply Hi.
Qed.

Lemma framed_rearrange r a : framed r a -> framed r (rearrange a).
Proof.
  intros (F1 & [k F2] & F3 & F4). unfold rearrange.
  destruct (DDLBF_Rearrange (sys (rk a))) as [callback|] eqn:Hc.
  - assert (Hk : callback (l_n (loc a)) = rearranged r (S k)).
    { rewrite F2. unfold rearranged. rewrite <- F1. reflexivity. }
    destruct (meta_f (sys (rk (on_loc _ (on_sys _ a))))); unfold framed;
      (split; [exact (eq_trans Hc F1)|]); (split; [exists (S k); exact Hk|]);
      (split; [reflexivity|]); exact F4.
  - destruct (meta_f (sys (rk a))); unfold framed;
      (split; [exact (eq_trans Hc F1)|]); (split; [exists k; exact F2|]);
      (split; [exact F3|]); exact F4.
Qed.

(** One iteration of the loop keeps the frame of every rank. *)
Lemma attempt_framed l c :
  Forall2 framed l (ranks c) -> Forall2 framed l (ranks (fst (attempt c))).
Proof.
  intros F. rewrite attempt_cases.
  set (P := proposal (NAN_occurred_global c) (all_max_eps c) (command_of c)).
  set (command2 := l_command (loc (update (P (root c))))).
  assert (HP : forall r a, framed r a -> framed r (P a)).
  { intros r a. apply framed_untouched. apply untouched_proposal. }
  destruct (has (command_of c) RKA_CMD_NAN).
  - destruct (has (command_of c) RKA_CMD_h_TOO_SMALL);
      apply (Forall2_each_right framed framed _ l c); try exact F; intros r a Fa.
    + apply (framed_untouched r (P a)); [apply untouched_give_up_NAN|now apply HP].
    + apply (framed_untouched r (P a)); [apply untouched_retry_NAN|now apply HP].
  - destruct (has (command_of c) RKA_CMD_UPDATE).
    + destruct (has command2 RKA_CMD_FINISHED); [|destruct (has command2 RKA_CMD_BREAK)];
        apply (Forall2_each_right framed framed _ l c); try exact F; intros r a Fa.
      * apply framed_accepted. now apply HP.
      * apply (framed_untouched r (accepted command2 (P a)));
          [apply untouched_interrupted|]. apply framed_accepted. now apply HP.
      * apply (framed_untouched r (rearrange (accepted command2 (P a))));
          [apply untouched_advance|]. apply framed_rearrange, framed_accepted.
        now apply HP.
    + apply (Forall2_each_right framed framed _ l c); try exact F; intros r a Fa.
      apply (framed_untouched r (P a)); [apply untouched_advance|now apply HP].
Qed.

Lemma after_attempts_framed l k c :
  Forall2 framed l (ranks c) -> Forall2 framed l (ranks (after_attempts k c)).
Proof.
  unfold after_attempts.
  apply (state_after_invariant attempt (fun c => Forall2 framed l (ranks c))).
  apply attempt_framed.
Qed.

Lemma iterate_framed l fuel c c' v :
  iterate fuel c = Some (c', v) ->
  Forall2 framed l (ranks c) -> Forall2 framed l (ranks c').
Proof.
  unfold iterate.
  apply (while_1_invariant attempt (fun c => Forall2 framed l (ranks c))).
  apply attempt_framed.
Qed.

Lemma at_loop_framed c : Forall2 (fun p a => framed (snd p) a) (ranks c) (ranks (at_loop c)).
Proof.
  unfold at_loop, start. rewrite !each_each. apply Forall2_each. intros p _.
  apply (framed_untouched _ (adjust (on_st (set_last_NAN 0) (enter (fst p) (snd p)))));
    [apply untouched_receive|].
  apply (framed_untouched _ (on_st (set_last_NAN 0) (enter (fst p) (snd p))));
    [apply untouched_adjust|].
  apply (framed_untouched _ (enter (fst p) (snd p))); [apply untouched_on_st|].
  apply framed_enter.
Qed.

Lemma Forall2_map_left {A B C : Type} (P : B -> C -> Prop) (f : A -> B) l l' :
  Forall2 (fun p b => P (f p) b) l l' <-> Forall2 P (map f l) l'.
Proof.
  split.
  - intros F. induction F; cbn; constructor; auto.
  - revert l'. induction l as [|a l IH]; intros l' F; inversion F; subst;
      constructor; auto.
Qed.

(** The call as a whole: refused by the pre-flight negotiation, or the
    loop and the return from it. *)
Lemma solve_cases fuel c :
  RK_MPI_SA_solve fuel c =
  if reduce Z.min (fun e => e) (each (fun p => preflight (snd p)) c) <? 0
  then Some (each (fun p => (refuse (preflight (snd p)), rk (enter (fst p) (snd p)))) c)
  else match iterate fuel (at_loop c) with
       | Some (c', return_value) => Some (each (leave return_value) c')
       | None => None
       end.
Proof.
  unfold RK_MPI_SA_solve, at_loop. cbv zeta.
  destruct (reduce Z.min (fun e => e) (each (fun p => preflight (snd p)) c) <? 0);
    [|reflexivity].
  unfold each. cbn [root peers]. rewrite combine_map, map_map. reflexivity.
Qed.

Lemma leave_sys_x v a : sys_x (sys (snd (leave v a))) = sys_x (sys (rk a)).
Proof. unfold leave. cbn [snd]. destruct (v =? 0); reflexivity. Qed.

Lemma coefficients_aux_outside a i :
  ~ In i (offsets (l_n (loc a)) (l_n_chunks (loc a))) ->
  aux (st (rk (coefficients a))) i = aux (st (rk a)) i.
Proof.
  intros Hi. unfold coefficients.
  pose proof (block_loc _ _ _ _ _ (eval_K1_block a)) as L1.
  pose proof (block_loc _ _ _ _ _ (eval_K2_block (eval_K1 a))) as L2.
  pose proof (block_loc _ _ _ _ _ (eval_K3_block (eval_K2 (eval_K1 a)))) as L3.
  pose proof (block_loc _ _ _ _ _ (eval_K4_block (eval_K3 (eval_K2 (eval_K1 a))))) as L4.
  rewrite L1 in L2. rewrite L2 in L3. rewrite L3 in L4.
  destruct (eval_K5_aux (eval_K4 (eval_K3 (eval_K2 (eval_K1 a)))) i) as [_ ->];
    [|rewrite L4; exact Hi].
  destruct (eval_K4_aux (eval_K3 (eval_K2 (eval_K1 a))) i) as [_ ->];
    [|rewrite L3; exact Hi].
  destruct (eval_K3_aux (eval_K2 (eval_K1 a)) i) as [_ ->]; [|rewrite L2; exact Hi].
  destruct (eval_K2_aux (eval_K1 a) i) as [_ ->]; [|rewrite L1; exact Hi].
  rewrite (block_aux _ _ _ _ _ (eval_K1_block a)). reflexivity.
Qed.

(** C5.  The loops that stage the arguments write [aux] only inside the
    chunks; and at every offset that lies inside no chunk of the layout
    (nor of a layout [DDLBF_Rearrange] makes of it) the array [x] of
    every rank holds what it held at the call, after any number of
    iterations of the loop and when [RK_MPI_SA_solve] returns. *)
Theorem solve_frame (fuel : nat) (c : Cluster (FLOAT * Rank)) :
  (forall a i, ~ In i (offsets (l_n (loc a)) (l_n_chunks (loc a))) ->
     aux (st (rk (coefficients a))) i = aux (st (rk a)) i) /\
  (forall k, Forall2 (fun p a => gaps_kept (snd p) (sys (rk a)))
               (ranks c) (ranks (after_attempts k (at_loop c)))) /\
  (forall res, RK_MPI_SA_solve fuel c = Some res ->
     Forall2 (fun p q => gaps_kept (snd p) (sys (snd q))) (ranks c) (ranks res)).
Proof.
  pose proof (proj1 (Forall2_map_left framed snd _ _) (at_loop_framed c)) as F0.
  split; [exact coefficients_aux_outside|]. split.
  - intros k.
    apply (proj2 (Forall2_map_left (fun r a => gaps_kept r (sys (rk a))) snd _ _)).
    apply (Forall2_impl framed); [intros r a (_ & _ & _ & H); exact H|].
    now apply after_attempts_framed.
  - intros res. rewrite solve_cases.
    destruct (reduce Z.min (fun e => e) (each (fun p => preflight (snd p)) c) <? 0).
    + intros H. injection H as <-. apply Forall2_each. intros p _ i _. reflexivity.
    + destruct (iterate fuel (at_loop c)) as [[c' v]|] eqn:Hit; [|discriminate].
      intros H. injection H as <-.
      pose proof (iterate_framed _ fuel _ _ _ Hit F0) as F.
      apply (proj2 (Forall2_map_left (fun r q => gaps_kept r (sys (snd q))) snd _ _)).
      apply (Forall2_each_right framed (fun r q => gaps_kept r (sys (snd q))) _ _ c');
        [|exact F].
      intros r a (_ & _ & _ & H) i Hi. unfold the_x. rewrite leave_sys_x.
      exact (H i Hi).
Qed.

End Frame.

(* ================================================================== *)
(** ** Whole calls *)

Lemma fold_min_le l : forall acc,
  fold_left Z.min l acc <= acc /\ forall e, In e l -> fold_left Z.min l acc <= e.
Proof.
  induction l as [|x l IH]; intros acc; cbn [fold_left].
  - split; [lia | intros e []].
  - destruct (IH (Z.min acc x)) as [H1 H2]. split; [lia|].
    intros e [<-|He]; [lia | auto].
Qed.

Lemma reduce_min_le {A : Type} (get : A -> Z) (c : Cluster A) a :
  In a (ranks c) -> reduce Z.min get c <= get a.
Proof.
  unfold reduce, ranks.
  destruct (fold_min_le (map get (peers c)) (get (root c))) as [H1 H2].
  intros [<-|Ha]; [exact H1 | apply H2, in_map, Ha].
Qed.

Lemma fold_min_zero l :
  (forall e, In e l -> e = 0) -> fold_left Z.min l 0 = 0.
Proof.
  induction l as [|x l IH]; intros H; cbn [fold_left]; [reflexivity|].
  rewrite (H x (or_introl eq_refl)). cbn [Z.min Z.compare].
  apply IH. intros e He. apply H. now right.
Qed.

Lemma reduce_min_zero {A : Type} (get : A -> Z) (c : Cluster A) :
  (forall a, In a (ranks c) -> get a = 0) -> reduce Z.min get c = 0.
Proof.
  intros H. unfold reduce. rewrite (H (root c) (or_introl eq_refl)).
  apply fold_min_zero. intros e He. apply in_map_iff in He.
  destruct He as (a & <- & Ha). apply H. now right.
Qed.

Section Calls.

Context {build : Build}.

Open Scope float_scope.

(** *** The pre-flight check *)

Lemma preflight_no_layout r :
  sys_n (sys r) = None ->
  uninitialised (st r) = false ->
  sys_x (sys r) <> None -> meta_f (sys r) <> None ->
  is_master (st r) && fle (delta (sys r)) 0 = false ->
  preflight r = (-5)%Z.
Proof.
  intros Hn Hu Hx Hf Hd. unfold preflight. cbv zeta. rewrite Hn, Hu, Hd.
  destruct (sys_x (sys r)); [|contradiction].
  destruct (meta_f (sys r)); [reflexivity | contradiction].
Qed.

Lemma enter_rk final_time r :
  st (rk (enter final_time r)) = st r /\
  sys (rk (enter final_time r)) = sys r /\
  rhs_calls (rk (enter final_time r)) = rhs_calls r.
Proof. repeat split. Qed.

Lemma refused_all fuel c :
  (reduce Z.min (fun p => preflight (snd p)) c < 0)%Z ->
  RK_MPI_SA_solve fuel c =
  Some (each (fun p => (refuse (preflight (snd p)), rk (enter (fst p) (snd p)))) c).
Proof.
  intros H. rewrite solve_cases, reduce_each.
  now apply Z.ltb_lt in H as ->.
Qed.

(** C10.  A rank that passes a structure whose layout pointer [n] is
    [NULL], and with which nothing else is wrong (the solver is
    initialised, [x] and [meta_f] are set, and on the master [delta] is
    positive), leaves the pre-flight check with the code -5.  Every rank of
    the call then returns after [MPI_Allreduce]: that rank returns -5, a
    rank whose own check found nothing returns -6, and on every rank the
    solution structure, the statics and the record of right hand side
    evaluations are what they were. *)
Theorem null_layout_refused (fuel : nat) (c : Cluster (FLOAT * Rank))
    (p : FLOAT * Rank) :
  In p (ranks c) ->
  sys_n (sys (snd p)) = None ->
  uninitialised (st (snd p)) = false ->
  sys_x (sys (snd p)) <> None -> meta_f (sys (snd p)) <> None ->
  is_master (st (snd p)) && fle (delta (sys (snd p))) 0 = false ->
  preflight (snd p) = (-5)%Z /\
  exists res,
    RK_MPI_SA_solve fuel c = Some res /\
    Forall2 (fun p' q =>
               (p' = p -> fst q = (-5)%Z) /\
               (preflight (snd p') = 0%Z -> fst q = (-6)%Z) /\
               sys (snd q) = sys (snd p') /\
               st (snd q) = st (snd p') /\
               rhs_calls (snd q) = rhs_calls (snd p'))
            (ranks c) (ranks res).
Proof.
  intros Hp Hn Hu Hx Hf Hd.
  pose proof (preflight_no_layout (snd p) Hn Hu Hx Hf Hd) as E5.
  split; [exact E5|].
  eexists. split.
  - apply refused_all.
    pose proof (reduce_min_le (fun p => preflight (snd p)) c p Hp) as Hle.
    cbv beta in Hle. lia.
  - apply Forall2_each. intros p' _. cbn [fst snd].
    destruct (enter_rk (fst p') (snd p')) as (E1 & E2 & E3).
    repeat split; try assumption.
    + intros ->. now rewrite E5.
    + intros ->. reflexivity.
Qed.

(** *** Entering the loop *)

Lemma at_loop_each c : at_loop c = each (entering c) c.
Proof.
  unfold at_loop, start, entering, master_frame. cbv zeta.
  rewrite !each_each, !root_each. reflexivity.
Qed.

Lemma adjust_rk a : rk (adjust a) = rk a.
Proof. unfold adjust. split_ifs; reflexivity. Qed.

Lemma entering_rk c p :
  sys (rk (entering c p)) = sys (snd p) /\
  rhs_calls (rk (entering c p)) = rhs_calls (snd p) /\
  meta_calls (rk (entering c p)) = meta_calls (rk (enter (fst p) (snd p))).
Proof.
  unfold entering, receive. cbn [rk sys rhs_calls meta_calls].
  rewrite adjust_rk. repeat split.
Qed.

Lemma entering_loc c p :
  l_final_time (loc (entering c p)) = l_final_time (loc (master_frame c)) /\
  l_t (loc (entering c p)) = l_t (loc (master_frame c)) /\
  l_h (loc (entering c p)) = l_h (loc (master_frame c)) /\
  l_delta (loc (entering c p)) = l_delta (loc (master_frame c)) /\
  l_delta_mode (loc (entering c p)) = l_delta_mode (loc (master_frame c)).
Proof. repeat split. Qed.

Lemma entering_root_command c :
  l_command (loc (root (at_loop c))) = l_command (loc (master_frame c)).
Proof. rewrite at_loop_each, root_each. reflexivity. Qed.

(** The master called with [final_time] equal to its finite [t]: the
    step to come is [final_time - t = 0] and it is the last one. *)
Lemma adjust_at_final_time a :
  is_master (st (rk a)) = true ->
  l_final_time (loc a) = l_t (loc a) ->
  isfinite (l_t (loc a)) = true ->
  is_nan (l_h (loc a)) = false ->
  adjust a
  = on_loc (fun l => set_l_command (add_cmd (l_command l) RKA_CMD_FINISHED)
                       (set_l_h 0 l)) a.
Proof.
  intros Hm E Hfin Hh. unfold adjust. rewrite Hm, E. cbv zeta.
  pose proof (FloatFacts.flt_irrefl (l_t (loc a))) as I.
  change (fgt (l_t (loc a)) (l_t (loc a))) with (flt (l_t (loc a)) (l_t (loc a))).
  rewrite I. cbn [andb orb].
  rewrite (FloatFacts.fsub_self _ Hfin), (FloatFacts.zero_le_fabsF _ Hh), orb_true_r.
  reflexivity.
Qed.

Lemma master_frame_at_final_time c :
  is_master (st (snd (root c))) = true ->
  fst (root c) = sys_t (sys (snd (root c))) ->
  isfinite (sys_t (sys (snd (root c)))) = true ->
  is_nan (sys_h (sys (snd (root c)))) = false ->
  l_t (loc (master_frame c)) = sys_t (sys (snd (root c))) /\
  l_h (loc (master_frame c)) = 0 /\
  l_command (loc (master_frame c)) = RKA_CMD_FINISHED.
Proof.
  intros Hm E Hfin Hh. unfold master_frame.
  rewrite adjust_at_final_time; try assumption.
  repeat split.
Qed.

(** *** The shape of a step attempt *)

Lemma give_up_NAN_rhs_calls b : rhs_calls (rk (give_up_NAN b)) = rhs_calls (rk b).
Proof. reflexivity. Qed.
Lemma retry_NAN_rhs_calls b : rhs_calls (rk (retry_NAN b)) = rhs_calls (rk b).
Proof. reflexivity. Qed.
Lemma interrupted_rhs_calls b : rhs_calls (rk (interrupted b)) = rhs_calls (rk b).
Proof. reflexivity. Qed.
Lemma accepted_rhs_calls command2 b :
  rhs_calls (rk (accepted command2 b)) = rhs_calls (rk b).
Proof. unfold accepted. rewrite rk_on_loc. apply update_rhs_calls. Qed.

Lemma proposal_rhs_calls G M command a :
  rhs_calls (rk (proposal G M command a)) = rhs_calls (rk (coefficients a)).
Proof. rewrite proposal_rk. apply rhs_calls_mk. Qed.

Lemma proposal_steps_total G M command a :
  steps_total (sys (rk (proposal G M command a)))
  = long_incr (steps_total (sys (rk a))).
Proof. rewrite proposal_sys. apply steps_total_set_steps_total. Qed.

Lemma proposal_steps G M command a :
  steps (sys (rk (proposal G M command a))) = steps (sys (rk a)).
Proof. rewrite proposal_sys. apply steps_set_steps_total. Qed.

(** The five evaluations of an attempt are put before the earlier
    ones. *)
Lemma coefficients_five a :
  exists c5 c4 c3 c2 c1,
    rhs_calls (rk (coefficients a)) = c5 :: c4 :: c3 :: c2 :: c1 :: rhs_calls (rk a).
Proof.
  unfold coefficients.
  rewrite (block_calls _ _ _ _ _ (eval_K5_block _)), (block_calls _ _ _ _ _ (eval_K4_block _)),
    (block_calls _ _ _ _ _ (eval_K3_block _)), (block_calls _ _ _ _ _ (eval_K2_block _)),
    (block_calls _ _ _ _ _ (eval_K1_block _)).
  do 5 eexists. reflexivity.
Qed.

(** Whatever the command, the attempt ends on every rank with a block
    that neither counts an attempt nor evaluates the right hand side. *)
Lemma attempt_each c :
  exists X : Frame -> Frame,
    fst (attempt c)
    = each (fun a => X (proposal (NAN_occurred_global c) (all_max_eps c)
                          (command_of c) a)) c /\
    (forall b, steps_total (sys (rk (X b))) = steps_total (sys (rk b))) /\
    (forall b, rhs_calls (rk (X b)) = rhs_calls (rk b)).
Proof.
  rewrite attempt_cases.
  set (G := NAN_occurred_global c). set (M := all_max_eps c).
  set (command := command_of c).
  set (command2 := l_command (loc (update (proposal G M command (root c))))).
  destruct (has command RKA_CMD_NAN).
  - destruct (has command RKA_CMD_h_TOO_SMALL).
    + exists give_up_NAN. repeat split.
    + exists retry_NAN. repeat split.
  - destruct (has command RKA_CMD_UPDATE).
    + destruct (has command2 RKA_CMD_FINISHED); [|destruct (has command2 RKA_CMD_BREAK)].
      * exists (accepted command2). split; [reflexivity|]. split; intros b.
        -- apply accepted_steps_total.
        -- apply accepted_rhs_calls.
      * exists (fun b => interrupted (accepted command2 b)).
        split; [reflexivity|]. split; intros b.
        -- rewrite interrupted_steps_total. apply accepted_steps_total.
        -- rewrite interrupted_rhs_calls. apply accepted_rhs_calls.
      * exists (fun b => advance (rearrange (accepted command2 b))).
        split; [reflexivity|]. split; intros b.
        -- rewrite advance_steps_total, rearrange_steps_total.
           apply accepted_steps_total.
        -- rewrite advance_rhs_calls, rearrange_rhs_calls. apply accepted_rhs_calls.
    + exists advance. split; [reflexivity|]. split; intros b.
      * apply advance_steps_total.
      * apply advance_rhs_calls.
Qed.

(** Every rank counts the attempt and evaluates the right hand side
    five times in it. *)
Lemma attempt_counts c :
  Forall2 (fun a a' =>
             steps_total (sys (rk a')) = long_incr (steps_total (sys (rk a))) /\
             exists c5 c4 c3 c2 c1,
               rhs_calls (rk a') = c5 :: c4 :: c3 :: c2 :: c1 :: rhs_calls (rk a))
          (ranks c) (ranks (fst (attempt c))).
Proof.
  destruct (attempt_each c) as (X & -> & HT & HR).
  apply Forall2_each. intros a _. rewrite HT, HR.
  rewrite proposal_steps_total, proposal_rhs_calls.
  split; [reflexivity | apply coefficients_five].
Qed.

(** A command word keeps [RKA_CMD_FINISHED] through the decisions of the
    master. *)
Lemma has_master_command_finished G M a :
  has (l_command (loc a)) RKA_CMD_FINISHED = true ->
  has (master_command G M a) RKA_CMD_FINISHED = true.
Proof.
  intros H. unfold master_command, nan_command. cbv zeta.
  unfold RKA_CMD_NAN, RKA_CMD_h_TOO_SMALL, RKA_CMD_UPDATE, RKA_CMD_NEXTFINISH,
    RKA_CMD_FINISHED in *.
  split_ifs; repeat (rewrite has_add_cmd by (cbn; tauto)); rewrite H;
    rewrite ?orb_true_r; reflexivity.
Qed.

Lemma leave_zero_rank b :
  fst (leave 0 b) = 0%Z /\
  steps (sys (snd (leave 0 b))) = steps (sys (rk b)) /\
  steps_total (sys (snd (leave 0 b))) = steps_total (sys (rk b)) /\
  sys_t (sys (snd (leave 0 b))) = l_t (loc b) /\
  rhs_calls (snd (leave 0 b)) = rhs_calls (rk b).
Proof. repeat split. Qed.

Lemma accepted_l_t command2 b :
  l_t (loc (accepted command2 b)) = l_t (loc b) + l_h (loc b).
Proof.
  unfold accepted. rewrite loc_on_loc, l_t_set_l_command. apply update_l_t.
Qed.

Lemma accepted_steps command2 b :
  steps (sys (rk (accepted command2 b))) = long_incr (steps (sys (rk b))).
Proof. unfold accepted. rewrite rk_on_loc. apply update_steps. Qed.

(** C8, as the code has it.  [RK_MPI_SA_solve] has no early return for
    [final_time = t].  Called so on a valid session (every pre-flight
    check passes, [t] is finite and the [h] of the master is a number),
    the master sets [h = final_time - t = 0] and [RKA_CMD_FINISHED], and
    the ranks enter the loop.  Each rank then makes a step attempt: it
    evaluates the right hand side five times and increments
    [steps_total].  When that attempt is accepted, the call returns 0 on
    every rank after this one attempt, with [steps] incremented as well,
    [system->t] set to [t + 0], and [x] updated by the formula of the
    accepted step with [h = 0]: at every offset [i] inside a chunk (of a
    layout without overlap) [x[i]] has become
    [x[i] + 0/3 * (0.5 * (K1[i] + K5[i]) + 2 * K4[i])], with the [K] of
    this attempt, and at every other offset [x] is what it was. *)
Theorem solve_at_final_time (fuel : nat) (c : Cluster (FLOAT * Rank)) :
  (forall p, In p (ranks c) -> preflight (snd p) = 0%Z) ->
  is_master (st (snd (root c))) = true ->
  fst (root c) = sys_t (sys (snd (root c))) ->
  isfinite (sys_t (sys (snd (root c)))) = true ->
  is_nan (sys_h (sys (snd (root c)))) = false ->
  let t := sys_t (sys (snd (root c))) in
  let c0 := at_loop c in
  l_command (loc (root c0)) = RKA_CMD_FINISHED /\
  Forall (fun a => l_t (loc a) = t /\ l_h (loc a) = 0) (ranks c0) /\
  Forall2 (fun p a' =>
             steps_total (sys (rk a')) = long_incr (steps_total (sys (snd p))) /\
             exists c5 c4 c3 c2 c1,
               rhs_calls (rk a') = c5 :: c4 :: c3 :: c2 :: c1 :: rhs_calls (snd p))
          (ranks c) (ranks (fst (attempt c0))) /\
  (has (command_of c0) RKA_CMD_UPDATE = true ->
   has (command_of c0) RKA_CMD_NAN = false ->
   exists res,
     RK_MPI_SA_solve (S fuel) c = Some res /\
     Forall2 (fun p q =>
                fst q = 0%Z /\
                steps (sys (snd q)) = long_incr (steps (sys (snd p))) /\
                steps_total (sys (snd q)) = long_incr (steps_total (sys (snd p))) /\
                sys_t (sys (snd q)) = t + 0 /\
                (exists c5 c4 c3 c2 c1,
                   rhs_calls (snd q)
                   = c5 :: c4 :: c3 :: c2 :: c1 :: rhs_calls (snd p)) /\
                let a := entering c p in
                let g := st (rk (coefficients a)) in
                let inside := offsets (l_n (loc a)) (l_n_chunks (loc a)) in
                (NoDup inside ->
                 forall i, In i inside ->
                   the_x (sys (snd q)) i =
                   the_x (sys (snd p)) i
                   + 0 / 3 * (0.5 * (the_K1 g i + K5 g i) + 2 * K4 g i)) /\
                (forall i, ~ In i inside ->
                   the_x (sys (snd q)) i = the_x (sys (snd p)) i))
             (ranks c) (ranks res)).
Proof.
  intros Hpre Hm E Hfin Hh t c0.
  destruct (master_frame_at_final_time c Hm E Hfin Hh) as (Mt & Mh & Mc).
  assert (Htop : l_command (loc (root c0)) = RKA_CMD_FINISHED).
  { subst c0. now rewrite entering_root_command. }
  split; [exact Htop|].
  split.
  { subst c0. rewrite at_loop_each. apply Forall_each. intros p _.
    destruct (entering_loc c p) as (_ & -> & -> & _). now split. }
  split.
  { pose proof (attempt_counts c0) as H. subst c0. rewrite at_loop_each in *.
    rewrite ranks_each in H at 1. apply Forall2_map_left in H.
    revert H. apply Forall2_impl. intros p a'.
    destruct (entering_rk c p) as (-> & -> & _). auto. }
  intros Hupd Hnan.
  set (G := NAN_occurred_global c0). set (M := all_max_eps c0).
  set (command := command_of c0) in *.
  set (command2 := l_command (loc (update (proposal G M command (root c0))))).
  assert (Hfin1 : has command RKA_CMD_FINISHED = true).
  { subst command. rewrite command_of_master.
    apply has_master_command_finished. now rewrite Htop. }
  assert (Hfin2 : has command2 RKA_CMD_FINISHED = true).
  { subst command2.
    destruct (update_l_command (proposal G M command (root c0))) as [-> | ->].
    - now rewrite proposal_command.
    - unfold RKA_CMD_BREAK, RKA_CMD_FINISHED in *.
      rewrite has_add_cmd by (cbn; tauto).
      rewrite proposal_command, Hfin1. apply orb_true_r. }
  exists (each (leave 0) (each (fun a => accepted command2 (proposal G M command a)) c0)).
  split.
  - rewrite solve_cases, reduce_each, (reduce_min_zero _ c Hpre).
    change (0 <? 0)%Z with false. cbv iota.
    unfold iterate. rewrite while_1_S, attempt_cases.
    fold c0. fold G. fold M. fold command. fold command2.
    rewrite Hnan, Hupd, Hfin2. reflexivity.
  - subst c0. rewrite at_loop_each, !each_each. apply Forall2_each. intros p _.
    destruct (entering_rk c p) as (Es & Er & _).
    destruct (entering_loc c p) as (_ & Et & Ehh & _).
    destruct (leave_zero_rank (accepted command2 (proposal G M command (entering c p))))
      as (-> & -> & -> & -> & ->).
    split; [reflexivity|].
    split. { now rewrite accepted_steps, proposal_steps, Es. }
    split. { now rewrite accepted_steps_total, proposal_steps_total, Es. }
    split.
    { rewrite accepted_l_t, proposal_l_t, proposal_l_h, Et, Ehh, Mt, Mh.
      reflexivity. }
    split.
    { rewrite accepted_rhs_calls, proposal_rhs_calls, <- Er.
      apply coefficients_five. }
    cbv zeta.
    rewrite (the_x_ext _ _
               (leave_sys_x 0 (accepted command2 (proposal G M command (entering c p))))).
    rewrite <- Es. split.
    + intros Hnd i Hi.
      rewrite (accepted_x G M command command2 (entering c p) i Hnd Hi), Ehh, Mh.
      reflexivity.
    + intros i Hi. rewrite accepted_sys_x. now apply for_chunks_outside.
Qed.

End Calls.

Lemma null_layout_refused_witness :
  let p := (1%float, r_lost) in
  In p (ranks c_pair) /\
  sys_n (sys (snd p)) = None /\
  uninitialised (st (snd p)) = false /\
  sys_x (sys (snd p)) <> None /\ meta_f (sys (snd p)) <> None /\
  is_master (st (snd p)) && fle (delta (sys (snd p))) 0%float = false /\
  preflight (snd p) = -5 /\
  exists res,
    RK_MPI_SA_solve (build := sample_build) 1 c_pair = Some res /\
    Forall2 (fun p' q =>
               (p' = p -> fst q = -5) /\
               (preflight (snd p') = 0 -> fst q = -6) /\
               sys (snd q) = sys (snd p') /\
               st (snd q) = st (snd p') /\
               rhs_calls (snd q) = rhs_calls (snd p'))
            (ranks c_pair) (ranks res).
Proof.
  intros p.
  assert (Hp : In p (ranks c_pair)) by (right; left; reflexivity).
  assert (Hx : sys_x (sys (snd p)) <> None) by discriminate.
  assert (Hf : meta_f (sys (snd p)) <> None) by discriminate.
  split; [exact Hp|]. split; [reflexivity|]. split; [reflexivity|].
  split; [exact Hx|]. split; [exact Hf|]. split; [reflexivity|].
  exact (null_layout_refused (build := sample_build) 1 c_pair p Hp
           eq_refl eq_refl Hx Hf eq_refl).
Defined.

Lemma solve_at_final_time_witness :
  (forall p, In p (ranks c_same) -> preflight (snd p) = 0) /\
  is_master (st (snd (root c_same))) = true /\
  fst (root c_same) = sys_t (sys (snd (root c_same))) /\
  isfinite (sys_t (sys (snd (root c_same)))) = true /\
  is_nan (sys_h (sys (snd (root c_same)))) = false /\
  l_command (loc (root (at_loop c_same))) = RKA_CMD_FINISHED /\
  Forall (fun a => l_t (loc a) = 0%float /\ l_h (loc a) = 0%float)
         (ranks (at_loop c_same)) /\
  exists res,
    RK_MPI_SA_solve (build := sample_build) 1 c_same = Some res /\
    Forall2 (fun p q =>
               fst q = 0 /\
               steps (sys (snd q)) = long_incr (steps (sys (snd p))) /\
               steps_total (sys (snd q)) = long_incr (steps_total (sys (snd p))) /\
               sys_t (sys (snd q)) = (0 + 0)%float /\
               (exists c5 c4 c3 c2 c1,
                  rhs_calls (snd q)
                  = c5 :: c4 :: c3 :: c2 :: c1 :: rhs_calls (snd p)) /\
               let a := entering c_same p in
               let g := st (rk (coefficients a)) in
               let inside := offsets (l_n (loc a)) (l_n_chunks (loc a)) in
               (NoDup inside ->
                forall i, In i inside ->
                  the_x (sys (snd q)) i =
                  (the_x (sys (snd p)) i
                   + 0 / 3 * (0.5 * (the_K1 g i + K5 g i) + 2 * K4 g i))%float) /\
               (forall i, ~ In i inside ->
                  the_x (sys (snd q)) i = the_x (sys (snd p)) i))
            (ranks c_same) (ranks res).
Proof.
  assert (Hpre : forall p, In p (ranks c_same) -> preflight (snd p) = 0).
  { intros p [<- | []]. vm_compute. reflexivity. }
  split; [exact Hpre|]. do 4 (split; [reflexivity|]).
  destruct (solve_at_final_time (build := sample_build) 0 c_same Hpre
              eq_refl eq_refl eq_refl eq_refl) as (Hc & Hl & _ & Hret).
  split; [exact Hc|]. split; [exact Hl|].
  apply Hret; vm_compute; reflexivity.
Defined.

(** C8, as the specification states it, fails.  The session of
    [c_same] is valid and its [t] is the [final_time] of the call; no step
    has been counted and no right hand side evaluated.  The call returns 0
    after five evaluations of the right hand side, with [steps] and
    [steps_total] both at 1. *)
Lemma solve_at_final_time_counts :
  fst (root c_same) = sys_t (sys (snd (root c_same))) /\
  preflight (snd (root c_same)) = 0 /\
  steps (sys (snd (root c_same))) = 0 /\
  steps_total (sys (snd (root c_same))) = 0 /\
  rhs_calls (snd (root c_same)) = [] /\
  option_map
    (fun res => (fst (root res), length (rhs_calls (snd (root res))),
                 steps (sys (snd (root res))), steps_total (sys (snd (root res)))))
    (RK_MPI_SA_solve (build := sample_build) 1 c_same)
  = Some (0, 5%nat, 1, 1).
Proof. vm_compute. repeat split. Qed.

(* ================================================================== *)
(** ** Invariants of the loop *)

Lemma while_1_running {St V : Type} (body : St -> St * option V)
    (I : nat -> St -> Prop) :
  (forall j s, I j s -> snd (body s) = None -> I (S j) (fst (body s))) ->
  forall k j s, I j s -> while_1 body k s = None ->
    I (k + j)%nat (state_after body k s).
Proof.
  intros Hbody. induction k as [|k IH]; intros j s Hs Hn; [exact Hs|].
  cbn [while_1 state_after] in *. specialize (Hbody j s Hs).
  destruct (body s) as [s1 [v1|]]; [discriminate Hn|].
  replace (S k + j)%nat with (k + S j)%nat by lia.
  apply IH; [|exact Hn]. now apply Hbody.
Qed.

Lemma while_1_left {St V : Type} (body : St -> St * option V)
    (I : nat -> St -> Prop) (Q : nat -> St -> V -> Prop) :
  (forall j s, I j s -> snd (body s) = None -> I (S j) (fst (body s))) ->
  (forall j s v, I j s -> snd (body s) = Some v -> Q (S j) (fst (body s)) v) ->
  forall fuel j s s' v, I j s -> while_1 body fuel s = Some (s', v) ->
    exists k, (j < k <= j + fuel)%nat /\ Q k s' v.
Proof.
  intros Hrun Hleft. induction fuel as [|fuel IH]; intros j s s' v Hs H;
    [discriminate H|].
  cbn [while_1] in H. specialize (Hrun j s Hs). specialize (Hleft j s).
  destruct (body s) as [s1 [v1|]].
  - injection H as <- <-. exists (S j). split; [lia|]. now apply Hleft.
  - destruct (IH (S j) s1 s' v (Hrun eq_refl) H) as (k & Hk & HQ).
    exists k. split; [lia|exact HQ].
Qed.

Lemma Forall2_compose {A B C : Type} (P : A -> B -> Prop) (Q : B -> C -> Prop)
    (R : A -> C -> Prop) l1 l2 l3 :
  (forall a b c, P a b -> Q b c -> R a c) ->
  Forall2 P l1 l2 -> Forall2 Q l2 l3 -> Forall2 R l1 l3.
Proof.
  intros H F. revert l3. induction F as [|a b l1 l2 Hab F IH]; intros l3 G;
    inversion G; subst; constructor; eauto.
Qed.

Lemma Forall2_same {A : Type} (P : A -> A -> Prop) l :
  (forall a, P a a) -> Forall2 P l l.
Proof. intros H. induction l; constructor; auto. Qed.

Section Loop.

Context {build : Build}.

Open Scope float_scope.

(** *** The step attempt by its outcome *)

Lemma outcome_cases (command command2 : Z) (P : Frame -> Frame) (c : Cluster Frame) :
  (if has command RKA_CMD_NAN then
     if has command RKA_CMD_h_TOO_SMALL
     then (each (fun a => give_up_NAN (P a)) c, Some (-4)%Z)
     else (each (fun a => retry_NAN (P a)) c, None)
   else if has command RKA_CMD_UPDATE then
     if has command2 RKA_CMD_FINISHED
     then (each (fun a => accepted command2 (P a)) c, Some 0%Z)
     else if has command2 RKA_CMD_BREAK
     then (each (fun a => interrupted (accepted command2 (P a))) c, Some 1%Z)
     else (each (fun a => advance (rearrange (accepted command2 (P a)))) c, None)
   else (each (fun a => advance (P a)) c, None))
  = (each (fun a => finish (outcome_of command command2) (P a)) c,
     returned (outcome_of command command2)).
Proof.
  unfold outcome_of.
  destruct (has command RKA_CMD_NAN).
  - destruct (has command RKA_CMD_h_TOO_SMALL); reflexivity.
  - destruct (has command RKA_CMD_UPDATE); [|reflexivity].
    destruct (has command2 RKA_CMD_FINISHED); [reflexivity|].
    destruct (has command2 RKA_CMD_BREAK); reflexivity.
Qed.

Lemma attempt_outcome c :
  attempt c =
  (each (fun a => finish (outcome c)
                    (proposal (NAN_occurred_global c) (all_max_eps c) (command_of c) a)) c,
   returned (outcome c)).
Proof.
  rewrite attempt_cases. unfold outcome.
  exact (outcome_cases (command_of c) _
           (proposal (NAN_occurred_global c) (all_max_eps c) (command_of c)) c).
Qed.

Lemma pair_fst {A B : Type} (p : A * B) x y : p = (x, y) -> fst p = x.
Proof. intros ->. reflexivity. Qed.

Lemma pair_snd {A B : Type} (p : A * B) x y : p = (x, y) -> snd p = y.
Proof. intros ->. reflexivity. Qed.

Lemma attempt_frames c :
  fst (attempt c) =
  each (fun a => finish (outcome c)
                   (proposal (NAN_occurred_global c) (all_max_eps c) (command_of c) a)) c.
Proof. exact (pair_fst _ _ _ (attempt_outcome c)). Qed.

Lemma attempt_returned c : snd (attempt c) = returned (outcome c).
Proof. exact (pair_snd _ _ _ (attempt_outcome c)). Qed.

Lemma returned_cases o v :
  returned o = Some v ->
  (o = nan_break /\ v = (-4)%Z) \/
  (exists c2, o = step_last c2 /\ v = 0%Z) \/
  (exists c2, o = step_break c2 /\ v = 1%Z).
Proof.
  destruct o; cbn [returned]; intros H; try discriminate H; injection H as <-; eauto.
Qed.

(** *** What the blocks keep *)

Lemma settings_kept_refl a : settings_kept a a.
Proof. repeat split. Qed.

Lemma settings_kept_trans a b c :
  settings_kept a b -> settings_kept b c -> settings_kept a c.
Proof.
  unfold settings_kept.
  intros (A1 & A2 & A3 & A4 & A5 & A6 & A7 & A8 & A9 & A10 & A11)
         (B1 & B2 & B3 & B4 & B5 & B6 & B7 & B8 & B9 & B10 & B11).
  rewrite B1, B2, B3, B4, B5, B6, B7, B8, B9, B10, B11. repeat split; assumption.
Qed.

Lemma kept_give_up_NAN b : settings_kept b (give_up_NAN b).
Proof. repeat split. Qed.
Lemma kept_retry_NAN b : settings_kept b (retry_NAN b).
Proof. repeat split. Qed.
Lemma kept_interrupted b : settings_kept b (interrupted b).
Proof. repeat split. Qed.
Lemma kept_advance b : settings_kept b (advance b).
Proof. unfold advance. split_ifs; repeat split. Qed.
Lemma kept_rearrange b : settings_kept b (rearrange b).
Proof. unfold rearrange. split_ifs; repeat split. Qed.
Lemma kept_update b : settings_kept b (update b).
Proof. unfold update. split_ifs; repeat split. Qed.
Lemma kept_on_loc_command v b : settings_kept b (on_loc (set_l_command v) b).
Proof. repeat split. Qed.
Lemma kept_accepted command2 b : settings_kept b (accepted command2 b).
Proof.
  unfold accepted.
  exact (settings_kept_trans _ _ _ (kept_update b) (kept_on_loc_command _ _)).
Qed.

Lemma kept_finish o b : settings_kept b (finish o b).
Proof.
  destruct o; cbn [finish].
  - apply kept_give_up_NAN.
  - apply kept_retry_NAN.
  - apply kept_accepted.
  - exact (settings_kept_trans _ _ _ (kept_accepted _ b) (kept_interrupted _)).
  - exact (settings_kept_trans _ _ _ (kept_accepted _ b)
             (settings_kept_trans _ _ _ (kept_rearrange _) (kept_advance _))).
  - apply kept_advance.
Qed.

Lemma kept_proposal G M command a : settings_kept a (proposal G M command a).
Proof.
  unfold settings_kept. rewrite proposal_loc, proposal_rk.
  rewrite l_final_time_mk, l_delta_mk, l_delta_mode_mk, l_h_min_mk, st_mk, sys_mk.
  destruct (coefficients_other a) as (-> & -> & _ & -> & ->).
  repeat split.
Qed.

(** *** The command at the top of the loop *)

Lemma finish_command o b :
  returned o = None ->
  l_command (loc (finish o b)) = 0%Z \/ l_command (loc (finish o b)) = RKA_CMD_FINISHED.
Proof.
  destruct o; cbn [returned finish]; intros H; try discriminate H.
  - left. reflexivity.
  - rewrite advance_l_command. destruct (has _ _); auto.
  - rewrite advance_l_command. destruct (has _ _); auto.
Qed.

Lemma loop_top_at_loop c : loop_top (at_loop c).
Proof.
  unfold loop_top. rewrite entering_root_command. unfold master_frame, adjust.
  split_ifs; first [left; reflexivity | right; reflexivity].
Qed.

Lemma loop_top_attempt c :
  snd (attempt c) = None -> loop_top (fst (attempt c)).
Proof.
  rewrite attempt_returned, attempt_frames. intros H.
  unfold loop_top. rewrite root_each. now apply finish_command.
Qed.

(** When the loop body is entered, the command of the master is 0, or
    [RKA_CMD_FINISHED] alone: so it is when the ranks enter the loop, and
    so every step attempt after which the loop goes on leaves it. *)
Theorem loop_top_invariant (c : Cluster (FLOAT * Rank)) (k : nat) :
  loop_top (at_loop c) /\
  (forall c0 : Cluster Frame,
     snd (attempt c0) = None -> loop_top (fst (attempt c0))) /\
  (iterate k (at_loop c) = None -> loop_top (after_attempts k (at_loop c))).
Proof.
  split; [apply loop_top_at_loop|]. split; [exact loop_top_attempt|].
  intros H.
  pose proof (while_1_running attempt (fun _ s => loop_top s)
                (fun j s _ => loop_top_attempt s) k 0 (at_loop c)
                (loop_top_at_loop c) H) as R.
  exact R.
Qed.

(** *** The ranks stay in step *)

Lemma finish_l_t o b :
  l_t (loc (finish o b)) =
  match o with
  | step_last _ | step_break _ | step_next _ => l_t (loc b) + l_h (loc b)
  | nan_break | nan_retry | step_again => l_t (loc b)
  end.
Proof.
  destruct o; cbn [finish].
  - reflexivity.
  - reflexivity.
  - apply accepted_l_t.
  - rewrite interrupted_l_t. apply accepted_l_t.
  - rewrite advance_l_t, rearrange_l_t. apply accepted_l_t.
  - apply advance_l_t.
Qed.

Lemma accepted_loc_kept command2 b :
  l_h (loc (accepted command2 b)) = l_h (loc b) /\
  l_new_h (loc (accepted command2 b)) = l_new_h (loc b) /\
  l_final_time (loc (accepted command2 b)) = l_final_time (loc b) /\
  l_command (loc (accepted command2 b)) = command2.
Proof.
  unfold accepted. rewrite loc_on_loc.
  change (l_h (set_l_command command2 ?l)) with (l_h l).
  change (l_new_h (set_l_command command2 ?l)) with (l_new_h l).
  change (l_final_time (set_l_command command2 ?l)) with (l_final_time l).
  rewrite update_l_h, update_l_new_h, update_l_final_time. repeat split.
Qed.

Lemma finish_l_h o b :
  l_h (loc (finish o b)) =
  match o with
  | nan_retry => l_h (loc b) / 10
  | step_next command2 =>
      if has command2 RKA_CMD_NEXTFINISH
      then l_final_time (loc b) - (l_t (loc b) + l_h (loc b))
      else l_new_h (loc b)
  | step_again =>
      if has (l_command (loc b)) RKA_CMD_NEXTFINISH
      then l_final_time (loc b) - l_t (loc b)
      else l_new_h (loc b)
  | nan_break | step_last _ | step_break _ => l_h (loc b)
  end.
Proof.
  destruct o; cbn [finish].
  - reflexivity.
  - reflexivity.
  - apply accepted_loc_kept.
  - change (l_h (loc (interrupted ?x))) with (l_h (loc x)). apply accepted_loc_kept.
  - rewrite advance_l_h, rearrange_l_command, rearrange_l_final_time, rearrange_l_t,
      rearrange_l_new_h, accepted_l_t.
    destruct (accepted_loc_kept command2 b) as (_ & -> & -> & ->). reflexivity.
  - apply advance_l_h.
Qed.

Lemma same_step_refl a : same_step a a.
Proof. repeat split. Qed.

Lemma same_step_finish o G M command a b :
  same_step a b ->
  same_step (finish o (proposal G M command a)) (finish o (proposal G M command b)).
Proof.
  intros (E1 & E2 & E3 & E4 & E5 & E6).
  pose proof (settings_kept_trans _ _ _ (kept_proposal G M command a)
                (kept_finish o _)) as (A1 & A2 & A3 & _ & A5 & _).
  pose proof (settings_kept_trans _ _ _ (kept_proposal G M command b)
                (kept_finish o _)) as (B1 & B2 & B3 & _ & B5 & _).
  unfold same_step. rewrite A1, A2, A3, A5, B1, B2, B3, B5.
  rewrite !finish_l_t, !finish_l_h.
  rewrite !proposal_l_t, !proposal_l_h, !proposal_l_new_h, !proposal_l_final_time,
    !proposal_command.
  rewrite (h_new_ext M a b E5 E3 E4), E1, E2, E3.
  repeat split; assumption.
Qed.

Lemma entering_handle_NAN c p :
  handle_NAN (st (rk (entering c p))) = handle_NAN (st (rk (master_frame c))).
Proof. reflexivity. Qed.

Lemma in_step_at_loop c : in_step (at_loop c).
Proof.
  unfold in_step. rewrite at_loop_each, root_each, ranks_each.
  intros a Ha. apply in_map_iff in Ha. destruct Ha as (p & <- & _).
  unfold same_step.
  destruct (entering_loc c p) as (-> & -> & -> & -> & ->).
  destruct (entering_loc c (root c)) as (-> & -> & -> & -> & ->).
  rewrite !entering_handle_NAN. repeat split.
Qed.

Lemma in_step_attempt c : in_step c -> in_step (fst (attempt c)).
Proof.
  intros H. rewrite attempt_frames.
  unfold in_step. rewrite root_each, ranks_each.
  intros a' Ha. apply in_map_iff in Ha. destruct Ha as (a & <- & Ha).
  apply same_step_finish. now apply H.
Qed.

(** The ranks stay in step: when they enter the loop and after every
    step attempt, each rank holds the [final_time], [t], [h], [delta],
    [delta_mode] and NaN handling switch of the master. *)
Theorem ranks_in_step (c : Cluster (FLOAT * Rank)) (k : nat) :
  in_step (at_loop c) /\
  (forall c0 : Cluster Frame, in_step c0 -> in_step (fst (attempt c0))) /\
  in_step (after_attempts k (at_loop c)).
Proof.
  split; [apply in_step_at_loop|]. split; [exact in_step_attempt|].
  apply (state_after_invariant attempt in_step in_step_attempt).
  apply in_step_at_loop.
Qed.

(** *** Counting the attempts *)

Lemma attempts_between_zero a : attempts_between 0 a a.
Proof. repeat split. Qed.

Lemma attempts_between_next j a b b' :
  attempts_between j a b ->
  steps_total (sys (rk b')) = long_incr (steps_total (sys (rk b))) /\
  (exists c5 c4 c3 c2 c1,
     rhs_calls (rk b') = c5 :: c4 :: c3 :: c2 :: c1 :: rhs_calls (rk b)) ->
  attempts_between (S j) a b'.
Proof.
  intros (E1 & E2 & E3) (F1 & c5 & c4 & c3 & c2 & c1 & F2).
  unfold attempts_between. rewrite F1, F2, E1.
  replace (5 * S j)%nat with (S (S (S (S (S (5 * j)))))) by lia.
  cbn [Nat.iter length skipn]. rewrite E2, E3. repeat split.
Qed.

Lemma attempts_between_attempt j l c :
  Forall2 (attempts_between j) l (ranks c) ->
  Forall2 (attempts_between (S j)) l (ranks (fst (attempt c))).
Proof.
  intros F.
  exact (Forall2_compose _ _ _ _ _ _ (attempts_between_next j) F (attempt_counts c)).
Qed.

(** The ranks make their step attempts together, and each attempt of a
    rank is five evaluations of the right hand side and one increment of
    [steps_total]: after [k] attempts the rank has made [5 k] evaluations
    on top of the earlier ones and has counted [k] attempts, and the loop
    is left after at least one attempt. *)
Theorem attempts_counted (c : Cluster Frame) (fuel : nat) :
  (iterate fuel c = None ->
   Forall2 (attempts_between fuel) (ranks c) (ranks (after_attempts fuel c))) /\
  (forall c' v, iterate fuel c = Some (c', v) ->
   exists k, (1 <= k <= fuel)%nat /\
             Forall2 (attempts_between k) (ranks c) (ranks c')).
Proof.
  set (I := fun (j : nat) (s : Cluster Frame) =>
              Forall2 (attempts_between j) (ranks c) (ranks s)).
  assert (I0 : I 0%nat c).
  { apply Forall2_same. exact attempts_between_zero. }
  assert (Hrun : forall j s, I j s -> snd (attempt s) = None -> I (S j) (fst (attempt s))).
  { intros j s Hs _. now apply attempts_between_attempt. }
  split.
  - intros H. pose proof (while_1_running attempt I Hrun fuel 0%nat c I0 H) as R.
    rewrite Nat.add_0_r in R. exact R.
  - intros c' v H.
    destruct (while_1_left attempt I (fun j s _ => I j s) Hrun
                (fun j s v Hs _ => attempts_between_attempt j _ s Hs)
                fuel 0%nat c c' v I0 H) as (k & Hk & HQ).
    exists k. split; [lia|exact HQ].
Qed.

(** *** The bits of the command *)

Lemma master_command_bits G M a b :
  In b [1; 2; 4; 8; 16; 32]%Z ->
  has (master_command G M a) b =
  has (l_command (loc a)) b
  || (negb (handle_NAN (st (rk a)) =? 0)%Z && is_master (st (rk a)) && negb (G =? 0)%Z)
     && ((b =? 2)%Z || nan_floor a && (b =? 1)%Z)
  || is_master (st (rk a)) && accepts M a
     && ((b =? 4)%Z || next_finishes M a && (b =? 16)%Z).
Proof.
  intros Hb. unfold master_command, nan_command. fold (nan_floor a).
  unfold RKA_CMD_NAN, RKA_CMD_h_TOO_SMALL, RKA_CMD_UPDATE, RKA_CMD_NEXTFINISH.
  destruct (negb (handle_NAN (st (rk a)) =? 0)%Z), (is_master (st (rk a))),
    (negb (G =? 0)%Z), (nan_floor a), (accepts M a), (next_finishes M a);
    cbn [andb orb];
    repeat (rewrite has_add_cmd by (first [exact Hb | cbn; tauto]));
    cbn in Hb;
    repeat (destruct Hb as [<- | Hb]; [destruct (has (l_command (loc a)) _); reflexivity|]);
    contradiction.
Qed.

Lemma command_of_bits c b :
  loop_top c -> In b [1; 2; 4; 16; 32]%Z ->
  has (command_of c) b =
  (negb (handle_NAN (st (rk (root c))) =? 0)%Z && is_master (st (rk (root c)))
   && negb (NAN_occurred_global c =? 0)%Z)
  && ((b =? 2)%Z || nan_floor (root c) && (b =? 1)%Z)
  || is_master (st (rk (root c))) && accepts (all_max_eps c) (root c)
     && ((b =? 4)%Z || next_finishes (all_max_eps c) (root c) && (b =? 16)%Z).
Proof.
  intros Htop Hb. rewrite command_of_master, master_command_bits.
  - now rewrite (has_loop_top c b Htop Hb).
  - cbn in *. tauto.
Qed.

Lemma command_of_finished c :
  has (command_of c) RKA_CMD_FINISHED = has (l_command (loc (root c))) RKA_CMD_FINISHED.
Proof.
  rewrite command_of_master, master_command_bits by (cbn; tauto).
  unfold RKA_CMD_FINISHED. cbn [Z.eqb Pos.eqb]. 
  now rewrite !andb_false_r, !orb_false_r.
Qed.

Lemma has_nextfinish c :
  loop_top c ->
  has (command_of c) RKA_CMD_NEXTFINISH
  = is_master (st (rk (root c))) && accepts (all_max_eps c) (root c)
    && next_finishes (all_max_eps c) (root c).
Proof.
  intros Htop. unfold RKA_CMD_NEXTFINISH.
  rewrite (command_of_bits c 16 Htop) by (cbn; tauto). cbn [Z.eqb Pos.eqb].
  destruct (negb (handle_NAN (st (rk (root c))) =? 0)%Z), (is_master (st (rk (root c)))),
    (negb (NAN_occurred_global c =? 0)%Z), (nan_floor (root c)),
    (accepts (all_max_eps c) (root c)), (next_finishes (all_max_eps c) (root c));
    reflexivity.
Qed.

Lemma has_break c : loop_top c -> has (command_of c) RKA_CMD_BREAK = false.
Proof.
  intros Htop. unfold RKA_CMD_BREAK.
  rewrite (command_of_bits c 32 Htop) by (cbn; tauto). cbn [Z.eqb Pos.eqb].
  destruct (negb (handle_NAN (st (rk (root c))) =? 0)%Z), (is_master (st (rk (root c)))),
    (negb (NAN_occurred_global c =? 0)%Z), (nan_floor (root c)),
    (accepts (all_max_eps c) (root c)), (next_finishes (all_max_eps c) (root c));
    reflexivity.
Qed.

Lemma has_nan c :
  loop_top c ->
  has (command_of c) RKA_CMD_NAN
  = negb (handle_NAN (st (rk (root c))) =? 0)%Z && is_master (st (rk (root c)))
    && negb (NAN_occurred_global c =? 0)%Z.
Proof.
  intros Htop. unfold RKA_CMD_NAN.
  rewrite (command_of_bits c 2 Htop) by (cbn; tauto). cbn [Z.eqb Pos.eqb].
  destruct (negb (handle_NAN (st (rk (root c))) =? 0)%Z), (is_master (st (rk (root c)))),
    (negb (NAN_occurred_global c =? 0)%Z), (nan_floor (root c)),
    (accepts (all_max_eps c) (root c)), (next_finishes (all_max_eps c) (root c));
    reflexivity.
Qed.

(** *** Leaving the loop *)

Lemma update_command b :
  l_command (loc (update b)) =
  if callback_breaks b then add_cmd (l_command (loc b)) RKA_CMD_BREAK
  else l_command (loc b).
Proof.
  unfold update, callback_breaks, callback_view, updated_x. cbv zeta.
  cbn [on_sys on_loc rk sys loc Service_Callback set_steps set_sys_x set_sys_t
       set_sys_h set_l_t l_t l_h l_final_time l_n l_n_chunks st].
  destruct (Service_Callback (sys (rk b))) as [callback|]; [|reflexivity].
  destruct (negb _); reflexivity.
Qed.

Lemma finish_last_NAN o b :
  last_NAN (st (rk (finish o b))) =
  match o with
  | nan_break | nan_retry => 1%Z
  | _ => last_NAN (st (rk b))
  end.
Proof.
  destruct o; cbn [finish].
  - reflexivity.
  - reflexivity.
  - unfold accepted. rewrite rk_on_loc. now rewrite update_st.
  - change (st (rk (interrupted ?x))) with (st (rk x)).
    unfold accepted. rewrite rk_on_loc. now rewrite update_st.
  - rewrite advance_st, rearrange_st. unfold accepted. rewrite rk_on_loc.
    now rewrite update_st.
  - now rewrite advance_st.
Qed.

Lemma proposal_last_NAN G M command a :
  last_NAN (st (rk (proposal G M command a))) = last_NAN (st (rk a)).
Proof.
  rewrite proposal_st. now destruct (coefficients_other a) as (_ & _ & -> & _).
Qed.

(** The outcome by the bits of the command. *)
Lemma outcome_of_inv command command2 :
  match outcome_of command command2 with
  | nan_break =>
      has command RKA_CMD_NAN = true /\ has command RKA_CMD_h_TOO_SMALL = true
  | nan_retry =>
      has command RKA_CMD_NAN = true /\ has command RKA_CMD_h_TOO_SMALL = false
  | step_last c2 =>
      c2 = command2 /\ has command RKA_CMD_NAN = false /\
      has command RKA_CMD_UPDATE = true /\ has command2 RKA_CMD_FINISHED = true
  | step_break c2 =>
      c2 = command2 /\ has command RKA_CMD_NAN = false /\
      has command RKA_CMD_UPDATE = true /\ has command2 RKA_CMD_FINISHED = false /\
      has command2 RKA_CMD_BREAK = true
  | step_next c2 =>
      c2 = command2 /\ has command RKA_CMD_NAN = false /\
      has command RKA_CMD_UPDATE = true /\ has command2 RKA_CMD_FINISHED = false /\
      has command2 RKA_CMD_BREAK = false
  | step_again =>
      has command RKA_CMD_NAN = false /\ has command RKA_CMD_UPDATE = false
  end.
Proof.
  unfold outcome_of.
  destruct (has command RKA_CMD_NAN).
  - destruct (has command RKA_CMD_h_TOO_SMALL); split; reflexivity.
  - destruct (has command RKA_CMD_UPDATE); [|split; reflexivity].
    destruct (has command2 RKA_CMD_FINISHED); [repeat split|].
    destruct (has command2 RKA_CMD_BREAK); repeat split.
Qed.

Lemma outcome_inv c :
  let command := command_of c in
  let command2 :=
    l_command (loc (update (proposal (NAN_occurred_global c) (all_max_eps c)
                              command (root c)))) in
  match outcome c with
  | nan_break =>
      has command RKA_CMD_NAN = true /\ has command RKA_CMD_h_TOO_SMALL = true
  | nan_retry =>
      has command RKA_CMD_NAN = true /\ has command RKA_CMD_h_TOO_SMALL = false
  | step_last c2 =>
      c2 = command2 /\ has command RKA_CMD_NAN = false /\
      has command RKA_CMD_UPDATE = true /\ has command2 RKA_CMD_FINISHED = true
  | step_break c2 =>
      c2 = command2 /\ has command RKA_CMD_NAN = false /\
      has command RKA_CMD_UPDATE = true /\ has command2 RKA_CMD_FINISHED = false /\
      has command2 RKA_CMD_BREAK = true
  | step_next c2 =>
      c2 = command2 /\ has command RKA_CMD_NAN = false /\
      has command RKA_CMD_UPDATE = true /\ has command2 RKA_CMD_FINISHED = false /\
      has command2 RKA_CMD_BREAK = false
  | step_again =>
      has command RKA_CMD_NAN = false /\ has command RKA_CMD_UPDATE = false
  end.
Proof. intros command command2. unfold outcome. apply outcome_of_inv. Qed.

Lemma outcome_nan c :
  loop_top c ->
  (outcome c = nan_break \/ outcome c = nan_retry) ->
  handle_NAN (st (rk (root c))) <> 0%Z.
Proof.
  intros Htop Ho.
  assert (H : has (command_of c) RKA_CMD_NAN = true).
  { pose proof (outcome_inv c) as Hi. cbv zeta in Hi.
    destruct Ho as [Ho|Ho]; rewrite Ho in Hi; apply Hi. }
  unfold RKA_CMD_NAN in H.
  rewrite (command_of_bits c 2 Htop) in H by (cbn; tauto).
  intros E. rewrite E in H. cbn [Z.eqb Pos.eqb negb andb orb] in H.
  rewrite !andb_false_r in H. discriminate H.
Qed.

Lemma outcome_break c command2 :
  loop_top c -> outcome c = step_break command2 ->
  callback_breaks (proposal (NAN_occurred_global c) (all_max_eps c)
                     (command_of c) (root c)) = true.
Proof.
  intros Htop Ho. pose proof (outcome_inv c) as Hi. cbv zeta in Hi.
  rewrite Ho in Hi. destruct Hi as (_ & _ & _ & _ & Hb).
  rewrite update_command, proposal_command in Hb.
  destruct (callback_breaks _); [reflexivity|exfalso].
  unfold RKA_CMD_BREAK in Hb.
  rewrite (command_of_bits c 32 Htop) in Hb by (cbn; tauto).
  cbn [Z.eqb Pos.eqb] in Hb. rewrite !andb_false_r in Hb. discriminate Hb.
Qed.

Lemma callback_breaks_set b :
  callback_breaks b = true -> Service_Callback (sys (rk b)) <> None.
Proof. unfold callback_breaks. destruct (Service_Callback _); [discriminate|discriminate]. Qed.

Lemma looping_last_NAN c s :
  looping c s ->
  forall a', In a' (ranks (fst (attempt s))) ->
    (last_NAN (st (rk a')) = 0%Z \/ last_NAN (st (rk a')) = 1%Z) /\
    ((outcome s = nan_break \/ outcome s = nan_retry) -> last_NAN (st (rk a')) = 1%Z) /\
    (handle_NAN (st (rk (root c))) = 0%Z -> last_NAN (st (rk a')) = 0%Z).
Proof.
  intros (Htop & Hk & Hl) a'. rewrite attempt_frames.
  rewrite ranks_each. intros Ha. apply in_map_iff in Ha.
  destruct Ha as (a & <- & Ha). destruct (Hl a Ha) as [H01 H0].
  rewrite finish_last_NAN, proposal_last_NAN.
  pose proof (outcome_nan s Htop) as Hn.
  destruct Hk as (_ & _ & _ & _ & Hh & _). rewrite Hh in Hn.
  destruct (outcome s); repeat split; auto; intros H;
    try (destruct H as [H|H]; discriminate H);
    exfalso; apply Hn; auto.
Qed.

Lemma looping_attempt c s :
  looping c s -> snd (attempt s) = None -> looping c (fst (attempt s)).
Proof.
  intros L Hn. pose proof L as (Htop & Hk & Hl).
  split; [now apply loop_top_attempt|]. split.
  - rewrite attempt_frames, root_each.
    exact (settings_kept_trans _ _ _ Hk
             (settings_kept_trans _ _ _ (kept_proposal _ _ _ _) (kept_finish _ _))).
  - intros a' Ha'. destruct (looping_last_NAN c s L a' Ha') as (H1 & _ & H3).
    split; assumption.
Qed.

Lemma looping_left c s v :
  looping c s -> snd (attempt s) = Some v -> left_with c (fst (attempt s)) v.
Proof.
  intros L Hv. pose proof L as (Htop & Hk & Hl).
  pose proof (looping_last_NAN c s L) as HL.
  pose proof (outcome_nan s Htop) as Hn.
  destruct Hk as (_ & _ & _ & _ & Hh & _ & _ & _ & Hs & _).
  rewrite Hh in Hn.
  rewrite attempt_returned in Hv.
  destruct (returned_cases _ _ Hv) as [[Ho ->]|[(c2 & Ho & ->)|(c2 & Ho & ->)]].
  - split; [cbn; tauto|]. split; [intros _; apply Hn; auto|].
    split; [discriminate|].
    intros a Ha. destruct (HL a Ha) as (H1 & H2 & H3). repeat split; auto.
  - split; [cbn; tauto|]. split; [discriminate|]. split; [discriminate|].
    intros a Ha. destruct (HL a Ha) as (H1 & H2 & H3). repeat split; auto.
    discriminate.
  - split; [cbn; tauto|]. split; [discriminate|]. split.
    + intros _. pose proof (outcome_break s c2 Htop Ho) as Hb.
      apply callback_breaks_set in Hb.
      destruct (kept_proposal (NAN_occurred_global s) (all_max_eps s) (command_of s)
                  (root s)) as (_ & _ & _ & _ & _ & _ & _ & _ & Hp & _).
      rewrite Hp, Hs in Hb. exact Hb.
    + intros a Ha. destruct (HL a Ha) as (H1 & H2 & H3). repeat split; auto.
      discriminate.
Qed.

Lemma loop_left fuel c c' v :
  looping c c -> iterate fuel c = Some (c', v) -> left_with c c' v.
Proof.
  intros L H.
  destruct (while_1_left attempt (fun _ s => looping c s) (fun _ s v => left_with c s v)
              (fun _ s => looping_attempt c s) (fun _ s v => looping_left c s v)
              fuel 0%nat c c' v L H) as (k & _ & HQ).
  exact HQ.
Qed.

(** *** Steps taken *)

Lemma finish_steps o b :
  steps (sys (rk (finish o b))) =
  if taken o then long_incr (steps (sys (rk b))) else steps (sys (rk b)).
Proof.
  destruct o; cbn [finish taken].
  - reflexivity.
  - reflexivity.
  - apply accepted_steps.
  - rewrite interrupted_steps. apply accepted_steps.
  - rewrite advance_steps, rearrange_steps. apply accepted_steps.
  - apply advance_steps.
Qed.

Lemma finish_steps_total o b :
  steps_total (sys (rk (finish o b))) = steps_total (sys (rk b)).
Proof.
  destruct o; cbn [finish].
  - apply give_up_NAN_steps_total.
  - apply retry_NAN_steps_total.
  - apply accepted_steps_total.
  - rewrite interrupted_steps_total. apply accepted_steps_total.
  - rewrite advance_steps_total, rearrange_steps_total. apply accepted_steps_total.
  - apply advance_steps_total.
Qed.

Lemma steps_between_attempt k j l s :
  Forall2 (steps_between k j) l (ranks s) ->
  Forall2 (steps_between (S k) (if taken (outcome s) then S j else j))
          l (ranks (fst (attempt s))).
Proof.
  intros F. rewrite attempt_frames.
  apply (Forall2_each_right (steps_between k j) _ _ l s); [|exact F].
  intros r a (E1 & E2). unfold steps_between.
  rewrite finish_steps, finish_steps_total, proposal_steps, proposal_steps_total.
  rewrite E1, E2. destruct (taken (outcome s)); split; reflexivity.
Qed.

Lemma returned_taken o v : returned o = Some v -> v <> (-4)%Z -> taken o = true.
Proof.
  destruct o; cbn [returned taken]; intros H Hv; try discriminate H; try reflexivity.
  injection H as <-. contradiction.
Qed.

(** The steps taken are counted among the attempts.  When the loop is
    left after [k] attempts, every rank has incremented [steps_total] [k]
    times and [steps] [j] times, with the same [j <= k] on all ranks; and
    [j] is at least 1 unless the loop is left with -4: a call that returns
    0 or 1 has taken a step. *)
Theorem steps_counted (fuel : nat) (c c' : Cluster Frame) (v : Z) :
  iterate fuel c = Some (c', v) ->
  exists k j,
    (1 <= k <= fuel)%nat /\ (j <= k)%nat /\ (v <> (-4)%Z -> (1 <= j)%nat) /\
    Forall2 (steps_between k j) (ranks c) (ranks c').
Proof.
  set (I := fun (k : nat) (s : Cluster Frame) =>
              exists j, (j <= k)%nat /\ Forall2 (steps_between k j) (ranks c) (ranks s)).
  set (Q := fun (k : nat) (s : Cluster Frame) (v : Z) =>
              exists j, (j <= k)%nat /\ (v <> (-4)%Z -> (1 <= j)%nat) /\
                        Forall2 (steps_between k j) (ranks c) (ranks s)).
  assert (I0 : I 0%nat c).
  { exists 0%nat. split; [lia|]. apply Forall2_same. intros a. split; reflexivity. }
  assert (Hrun : forall k s, I k s -> snd (attempt s) = None -> I (S k) (fst (attempt s))).
  { intros k s (j & Hj & F) _.
    exists (if taken (outcome s) then S j else j). split.
    - destruct (taken (outcome s)); lia.
    - now apply steps_between_attempt. }
  assert (Hleft : forall k s v, I k s -> snd (attempt s) = Some v ->
                                 Q (S k) (fst (attempt s)) v).
  { intros k s v0 (j & Hj & F) Hv. rewrite attempt_returned in Hv.
    exists (if taken (outcome s) then S j else j). split; [|split].
    - destruct (taken (outcome s)); lia.
    - intros Hne. rewrite (returned_taken _ _ Hv Hne). lia.
    - now apply steps_between_attempt. }
  intros H.
  destruct (while_1_left attempt I Q Hrun Hleft fuel 0%nat c c' v I0 H)
    as (k & Hk & j & Hj & Hv & F).
  exists k, j. repeat split; try lia; assumption.
Qed.

End Loop.

Lemma steps_counted_witness :
  exists c' v,
    iterate (build := sample_build) 100 (at_loop c_decay) = Some (c', v) /\
    exists k j,
      (1 <= k <= 100)%nat /\ (j <= k)%nat /\ (v <> -4 -> (1 <= j)%nat) /\
      Forall2 (steps_between k j) (ranks (at_loop c_decay)) (ranks c').
Proof.
  destruct (iterate (build := sample_build) 100 (at_loop c_decay)) as [[c' v]|] eqn:E.
  - exists c', v. split; [reflexivity|].
    exact (steps_counted (build := sample_build) 100 (at_loop c_decay) c' v E).
  - vm_compute in E. discriminate E.
Defined.

(* ================================================================== *)
(** ** After an accepted step *)

Section AcceptedStep.

Context {build : Build}.

Open Scope float_scope.

Lemma outcome_of_accepted command command2 :
  has command RKA_CMD_NAN = false -> has command RKA_CMD_UPDATE = true ->
  outcome_of command command2 =
  if has command2 RKA_CMD_FINISHED then step_last command2
  else if has command2 RKA_CMD_BREAK then step_break command2
  else step_next command2.
Proof. intros Hn Hu. unfold outcome_of. now rewrite Hn, Hu. Qed.

(** The command of the second broadcast. *)
Lemma second_command c :
  l_command (loc (update (proposal (NAN_occurred_global c) (all_max_eps c)
                            (command_of c) (root c))))
  = if callback_breaks (proposal (NAN_occurred_global c) (all_max_eps c)
                          (command_of c) (root c))
    then add_cmd (command_of c) RKA_CMD_BREAK else command_of c.
Proof. now rewrite update_command, proposal_command. Qed.

Lemma outcome_accepted c :
  loop_top c ->
  has (command_of c) RKA_CMD_NAN = false -> has (command_of c) RKA_CMD_UPDATE = true ->
  let b := callback_breaks (proposal (NAN_occurred_global c) (all_max_eps c)
                              (command_of c) (root c)) in
  let command2 := if b then add_cmd (command_of c) RKA_CMD_BREAK else command_of c in
  outcome c =
  if has (l_command (loc (root c))) RKA_CMD_FINISHED then step_last command2
  else if b then step_break command2 else step_next command2.
Proof.
  intros Htop Hn Hu b command2. unfold outcome.
  rewrite (outcome_of_accepted _ _ Hn Hu), second_command. fold b. fold command2.
  assert (E8 : has command2 RKA_CMD_FINISHED
               = has (l_command (loc (root c))) RKA_CMD_FINISHED).
  { rewrite <- command_of_finished. subst command2. destruct b; [|reflexivity].
    unfold RKA_CMD_BREAK, RKA_CMD_FINISHED.
    now rewrite has_add_cmd by (cbn; tauto). }
  assert (E32 : has command2 RKA_CMD_BREAK = b).
  { pose proof (has_break c Htop) as H32.
    subst command2. destruct b; [|exact H32].
    unfold RKA_CMD_BREAK. now rewrite has_add_cmd by (cbn; tauto). }
  now rewrite E8, E32.
Qed.

Lemma interrupted_sys b :
  sys_t (sys (rk (interrupted b))) = l_t (loc b) /\
  sys_h (sys (rk (interrupted b))) = l_new_h (loc b).
Proof. split; reflexivity. Qed.

(** An accepted step and [Service_Callback].  After a step that is
    taken, the loop is left with 0 when the step was the last one
    ([RKA_CMD_FINISHED]), whatever the callback says; otherwise it is
    left with 1 exactly when the callback of the master is set and
    returns a value other than 0 (the callbacks of the other ranks do not
    matter), and goes on if not.  When the loop is left with 1, every
    rank has stored the new time [t + h] in [system->t] and the proposed
    step [h_new] in [system->h], and has counted the step. *)
Theorem callback_break (c : Cluster Frame) :
  loop_top c ->
  has (command_of c) RKA_CMD_NAN = false ->
  has (command_of c) RKA_CMD_UPDATE = true ->
  let M := all_max_eps c in
  let breaks := callback_breaks (proposal (NAN_occurred_global c) M (command_of c)
                                   (root c)) in
  snd (attempt c) =
  (if has (l_command (loc (root c))) RKA_CMD_FINISHED then Some 0%Z
   else if breaks then Some 1%Z else None) /\
  (snd (attempt c) = Some 1%Z ->
   Forall2 (fun a a' =>
              sys_t (sys (rk a')) = l_t (loc a) + l_h (loc a) /\
              sys_h (sys (rk a')) = h_new M a /\
              steps (sys (rk a')) = long_incr (steps (sys (rk a))))
           (ranks c) (ranks (fst (attempt c)))).
Proof.
  intros Htop Hn Hu M breaks. subst M breaks.
  pose proof (outcome_accepted c Htop Hn Hu) as Ho. cbv zeta in Ho.
  rewrite attempt_returned, attempt_frames. rewrite Ho.
  destruct (has (l_command (loc (root c))) RKA_CMD_FINISHED).
  { split; [reflexivity|]. intros H. discriminate H. }
  destruct (callback_breaks _).
  2:{ split; [reflexivity|]. intros H. discriminate H. }
  split; [reflexivity|]. intros _.
  apply Forall2_each. intros a _. cbn [finish].
  destruct (interrupted_sys (accepted (add_cmd (command_of c) RKA_CMD_BREAK)
              (proposal (NAN_occurred_global c) (all_max_eps c) (command_of c) a)))
    as (-> & ->).
  rewrite interrupted_steps, accepted_steps, accepted_l_t.
  destruct (accepted_loc_kept (add_cmd (command_of c) RKA_CMD_BREAK)
              (proposal (NAN_occurred_global c) (all_max_eps c) (command_of c) a))
    as (_ & -> & _).
  rewrite proposal_l_t, proposal_l_h, proposal_l_new_h, proposal_steps.
  repeat split.
Qed.

(** *** The step before the last *)

(** [RKA_CMD_NEXTFINISH] is issued only together with
    [RKA_CMD_UPDATE], by a master that finds the rest of the interval,
    [|final_time - (t + h)|], not above [|h_new|].  After such a step, if
    the loop goes on, every rank has stored [h_new] in [system->h], has set
    [h] to the rest of the interval and the command to
    [RKA_CMD_FINISHED]. *)
Theorem next_finish_step (c : Cluster Frame) :
  loop_top c ->
  has (command_of c) RKA_CMD_NAN = false ->
  has (command_of c) RKA_CMD_NEXTFINISH = true ->
  let M := all_max_eps c in
  has (command_of c) RKA_CMD_UPDATE = true /\
  accepts M (root c) = true /\ next_finishes M (root c) = true /\
  (snd (attempt c) = None ->
   Forall2 (fun a a' =>
              l_t (loc a') = l_t (loc a) + l_h (loc a) /\
              l_h (loc a') = l_final_time (loc a) - (l_t (loc a) + l_h (loc a)) /\
              sys_h (sys (rk a')) = h_new M a /\
              l_command (loc a') = RKA_CMD_FINISHED)
           (ranks c) (ranks (fst (attempt c)))).
Proof.
  intros Htop Hn Hnf M. subst M.
  pose proof (has_nextfinish c Htop) as H16. rewrite Hnf in H16.
  pose proof (has_update c Htop) as H4.
  symmetry in H16. apply andb_true_iff in H16. destruct H16 as [Hma Hnx].
  rewrite Hma in H4.
  apply andb_true_iff in Hma. destruct Hma as [_ Hacc].
  split; [exact H4|]. split; [exact Hacc|]. split; [exact Hnx|].
  pose proof (outcome_accepted c Htop Hn H4) as Ho. cbv zeta in Ho.
  rewrite attempt_returned, attempt_frames. rewrite Ho.
  destruct (has (l_command (loc (root c))) RKA_CMD_FINISHED);
    [intros H; discriminate H|].
  destruct (callback_breaks _); [intros H; discriminate H|].
  intros _. apply Forall2_each. intros a _. cbn [finish].
  set (b := accepted (command_of c)
              (proposal (NAN_occurred_global c) (all_max_eps c) (command_of c) a)).
  assert (Ec : l_command (loc (rearrange b)) = command_of c).
  { rewrite rearrange_l_command. subst b. apply accepted_loc_kept. }
  assert (Enf : has (l_command (loc (rearrange b))) RKA_CMD_NEXTFINISH = true)
    by (rewrite Ec; exact Hnf).
  rewrite advance_l_t, advance_l_h, advance_l_command, Enf.
  rewrite rearrange_l_t, rearrange_l_final_time.
  assert (Eh : sys_h (sys (rk (advance (rearrange b)))) = l_new_h (loc (rearrange b))).
  { unfold advance. rewrite Enf. reflexivity. }
  rewrite Eh, rearrange_l_new_h. subst b.
  rewrite accepted_l_t.
  destruct (accepted_loc_kept (command_of c)
              (proposal (NAN_occurred_global c) (all_max_eps c) (command_of c) a))
    as (_ & -> & -> & _).
  rewrite proposal_l_t, proposal_l_h, proposal_l_new_h, proposal_l_final_time.
  repeat split.
Qed.

(** *** The next right hand side *)

Lemma update_l_f b : l_f (loc (update b)) = l_f (loc b).
Proof. unfold update. split_ifs; reflexivity. Qed.

Lemma l_f_set_l_command v l : l_f (set_l_command v l) = l_f l.
Proof. reflexivity. Qed.

Lemma accepted_meta command2 b :
  meta_calls (rk (accepted command2 b)) = meta_calls (rk b) /\
  l_f (loc (accepted command2 b)) = l_f (loc b) /\
  meta_f (sys (rk (accepted command2 b))) = meta_f (sys (rk b)).
Proof.
  unfold accepted. rewrite rk_on_loc, loc_on_loc, l_f_set_l_command.
  rewrite update_meta_calls, update_l_f.
  destruct (update_callbacks b) as (_ & -> & _). repeat split.
Qed.

Lemma rearrange_meta b :
  meta_calls (rk (rearrange b)) =
  match meta_f (sys (rk b)) with
  | Some _ => S (meta_calls (rk b))
  | None => meta_calls (rk b)
  end /\
  l_f (loc (rearrange b)) =
  match meta_f (sys (rk b)) with
  | Some m => m (meta_calls (rk b))
  | None => l_f (loc b)
  end.
Proof.
  unfold rearrange. destruct (DDLBF_Rearrange (sys (rk b))); cbn;
    destruct (meta_f (sys (rk b))); split; reflexivity.
Qed.

Lemma interrupted_meta b :
  meta_calls (rk (interrupted b)) = meta_calls (rk b) /\
  l_f (loc (interrupted b)) = l_f (loc b).
Proof. split; reflexivity. Qed.

Lemma simple_meta (X : Frame -> Frame) b :
  (forall x, meta_calls (rk (X x)) = meta_calls (rk x)) ->
  (forall x, l_f (loc (X x)) = l_f (loc x)) ->
  meta_calls (rk (X b)) = meta_calls (rk b) /\ l_f (loc (X b)) = l_f (loc b).
Proof. intros H1 H2. now rewrite H1, H2. Qed.

Lemma advance_meta b :
  meta_calls (rk (advance b)) = meta_calls (rk b) /\
  l_f (loc (advance b)) = l_f (loc b).
Proof. unfold advance. split_ifs; split; reflexivity. Qed.

Lemma proposal_meta G M command a :
  meta_calls (rk (proposal G M command a)) = meta_calls (rk a) /\
  l_f (loc (proposal G M command a)) = l_f (loc a) /\
  meta_f (sys (rk (proposal G M command a))) = meta_f (sys (rk a)).
Proof.
  rewrite proposal_rk, proposal_loc, meta_calls_mk, l_f_mk, sys_mk. repeat split.
Qed.

Lemma adjust_l_f a : l_f (loc (adjust a)) = l_f (loc a).
Proof.
  unfold adjust. destruct (is_master (st (rk a))); [|reflexivity].
  cbv zeta. destruct (_ || _); reflexivity.
Qed.

Lemma entering_meta c p :
  meta_calls (rk (entering c p)) =
  match meta_f (sys (snd p)) with
  | Some _ => S (meta_calls (snd p))
  | None => meta_calls (snd p)
  end /\
  l_f (loc (entering c p)) =
  match meta_f (sys (snd p)) with
  | Some m => m (meta_calls (snd p))
  | None => fun _ _ dest => dest
  end.
Proof.
  destruct (entering_rk c p) as (_ & _ & ->). split; [reflexivity|].
  unfold entering, receive. cbn [loc l_f]. rewrite adjust_l_f. reflexivity.
Qed.

(** [meta_f] is invoked once when the call is entered, and in the loop
    after exactly those step attempts in which the step is taken and the
    loop goes on: not after a refused step or a NaN, and not after the
    step with which the loop is left.  Each invocation supplies the right
    hand side of the attempts that follow. *)
Theorem meta_f_invocations (c0 : Cluster (FLOAT * Rank)) (c : Cluster Frame) :
  Forall2 (fun p a =>
             forall m, meta_f (sys (snd p)) = Some m ->
               meta_calls (rk a) = S (meta_calls (snd p)) /\
               l_f (loc a) = m (meta_calls (snd p)))
          (ranks c0) (ranks (at_loop c0)) /\
  Forall2 (fun a a' =>
             match outcome c with
             | step_next _ =>
                 forall m, meta_f (sys (rk a)) = Some m ->
                   meta_calls (rk a') = S (meta_calls (rk a)) /\
                   l_f (loc a') = m (meta_calls (rk a))
             | nan_break | nan_retry | step_last _ | step_break _ | step_again =>
                 meta_calls (rk a') = meta_calls (rk a) /\ l_f (loc a') = l_f (loc a)
             end)
          (ranks c) (ranks (fst (attempt c))).
Proof.
  split.
  - rewrite at_loop_each. apply Forall2_each. intros p _ m Hm.
    destruct (entering_meta c0 p) as (-> & ->). rewrite Hm. split; reflexivity.
  - rewrite attempt_frames. apply Forall2_each. intros a _.
    destruct (proposal_meta (NAN_occurred_global c) (all_max_eps c) (command_of c) a)
      as (Pm & Pf & Pmf).
    set (b := proposal (NAN_occurred_global c) (all_max_eps c) (command_of c) a) in *.
    clearbody b.
    destruct (outcome c) as [| |c2|c2|c2|]; cbn [finish].
    + rewrite <- Pm, <- Pf.
      exact (simple_meta give_up_NAN b (fun x => eq_refl) (fun x => eq_refl)).
    + rewrite <- Pm, <- Pf.
      exact (simple_meta retry_NAN b (fun x => eq_refl) (fun x => eq_refl)).
    + destruct (accepted_meta c2 b) as (-> & -> & _). now rewrite Pm, Pf.
    + destruct (interrupted_meta (accepted c2 b)) as (-> & ->).
      destruct (accepted_meta c2 b) as (-> & -> & _). now rewrite Pm, Pf.
    + intros m Hm.
      destruct (advance_meta (rearrange (accepted c2 b))) as (-> & ->).
      destruct (rearrange_meta (accepted c2 b)) as (-> & ->).
      destruct (accepted_meta c2 b) as (-> & _ & ->).
      rewrite Pmf, Hm, Pm. split; reflexivity.
    + destruct (advance_meta b) as (-> & ->). now rewrite Pm, Pf.
Qed.

End AcceptedStep.

Lemma callback_break_witness :
  let c := at_loop c_break in
  loop_top c /\
  has (command_of (build := sample_build) c) RKA_CMD_NAN = false /\
  has (command_of (build := sample_build) c) RKA_CMD_UPDATE = true /\
  snd (attempt (build := sample_build) c) = Some 1 /\
  Forall2 (fun a a' =>
             sys_t (sys (rk a')) = (l_t (loc a) + l_h (loc a))%float /\
             sys_h (sys (rk a')) = h_new (build := sample_build) (all_max_eps (build := sample_build) c) a /\
             steps (sys (rk a')) = long_incr (steps (sys (rk a))))
          (ranks c) (ranks (fst (attempt (build := sample_build) c))).
Proof.
  intros c.
  assert (Htop : loop_top c) by (left; reflexivity).
  assert (Hn : has (command_of (build := sample_build) c) RKA_CMD_NAN = false)
    by (vm_compute; reflexivity).
  assert (Hu : has (command_of (build := sample_build) c) RKA_CMD_UPDATE = true)
    by (vm_compute; reflexivity).
  split; [exact Htop|]. split; [exact Hn|]. split; [exact Hu|].
  destruct (callback_break (build := sample_build) c Htop Hn Hu) as (H1 & H2).
  assert (E : snd (attempt (build := sample_build) c) = Some 1)
    by (vm_compute; reflexivity).
  split; [exact E | exact (H2 E)].
Defined.

Lemma next_finish_step_witness :
  let c := at_loop c_near in
  loop_top c /\
  has (command_of (build := sample_build) c) RKA_CMD_NAN = false /\
  has (command_of (build := sample_build) c) RKA_CMD_NEXTFINISH = true /\
  has (command_of (build := sample_build) c) RKA_CMD_UPDATE = true /\
  Forall2 (fun a a' =>
             l_t (loc a') = (l_t (loc a) + l_h (loc a))%float /\
             l_h (loc a') = (l_final_time (loc a) - (l_t (loc a) + l_h (loc a)))%float /\
             sys_h (sys (rk a')) = h_new (build := sample_build) (all_max_eps (build := sample_build) c) a /\
             l_command (loc a') = RKA_CMD_FINISHED)
          (ranks c) (ranks (fst (attempt (build := sample_build) c))).
Proof.
  intros c.
  assert (Htop : loop_top c) by (left; reflexivity).
  assert (Hn : has (command_of (build := sample_build) c) RKA_CMD_NAN = false)
    by (vm_compute; reflexivity).
  assert (Hf : has (command_of (build := sample_build) c) RKA_CMD_NEXTFINISH = true)
    by (vm_compute; reflexivity).
  split; [exact Htop|]. split; [exact Hn|]. split; [exact Hf|].
  destruct (next_finish_step (build := sample_build) c Htop Hn Hf) as (H1 & _ & _ & H2).
  split; [exact H1|]. apply H2. vm_compute. reflexivity.
Defined.

(* ================================================================== *)
(** ** What a call returns *)

Lemma map_related {A B : Type} (R : A -> A -> Prop) (u u' : A -> B) l l' :
  (forall p p', R p p' -> u p = u' p') -> Forall2 R l l' -> map u l = map u' l'.
Proof.
  intros H F. induction F as [|p p' l l' Hp F IH]; [reflexivity|].
  cbn [map]. now rewrite (H p p' Hp), IH.
Qed.

Section Returns.

Context {build : Build}.

Open Scope float_scope.

Lemma preflight_range r : In (preflight r) [0; -2; -3; -5]%Z.
Proof.
  unfold preflight. cbv zeta.
  destruct (is_master (st r) && fle (delta (sys r)) 0); [cbn; tauto|].
  destruct (sys_x (sys r)); [|cbn; tauto].
  destruct (meta_f (sys r)); [|cbn; tauto].
  destruct (uninitialised (st r)); [cbn; tauto|].
  destruct (sys_n (sys r)); [|cbn; tauto].
  destruct (_ >? _)%Z; cbn; tauto.
Qed.

Lemma refuse_range r :
  (preflight r = 0%Z -> refuse (preflight r) = (-6)%Z) /\
  (preflight r <> 0%Z -> refuse (preflight r) = preflight r) /\
  In (refuse (preflight r)) [-2; -3; -5; -6]%Z.
Proof.
  pose proof (preflight_range r) as H. cbn in H. unfold refuse.
  destruct H as [<-|[<-|[<-|[<-|[]]]]]; cbn; repeat split; try tauto; congruence.
Qed.

Lemma leave_rank v a :
  fst (leave v a) = v /\ st (snd (leave v a)) = st (rk a).
Proof. unfold leave. destruct (v =? 0)%Z; split; reflexivity. Qed.

Lemma entering_last_NAN c p : last_NAN (st (rk (entering c p))) = 0%Z.
Proof.
  unfold entering, receive. cbn [rk st set_handle_NAN last_NAN].
  rewrite adjust_rk. reflexivity.
Qed.

Lemma master_frame_rk c :
  handle_NAN (st (rk (master_frame c))) = handle_NAN (st (snd (root c))).
Proof. unfold master_frame. rewrite adjust_rk. reflexivity. Qed.

Lemma at_loop_root c :
  handle_NAN (st (rk (root (at_loop c)))) = handle_NAN (st (snd (root c))) /\
  Service_Callback (sys (rk (root (at_loop c)))) = Service_Callback (sys (snd (root c))).
Proof.
  rewrite at_loop_each, root_each, entering_handle_NAN, master_frame_rk.
  destruct (entering_rk c (root c)) as (-> & _). split; reflexivity.
Qed.

Lemma looping_at_loop c : looping (at_loop c) (at_loop c).
Proof.
  split; [apply loop_top_at_loop|]. split; [apply settings_kept_refl|].
  intros a. rewrite at_loop_each at 1. rewrite ranks_each. intros Ha.
  apply in_map_iff in Ha. destruct Ha as (p & <- & _).
  rewrite entering_last_NAN. split; [now left | reflexivity].
Qed.

(** What a call that entered the loop has returned. *)
Lemma solve_left fuel c res :
  (0 <= reduce Z.min (fun p => preflight (snd p)) c)%Z ->
  RK_MPI_SA_solve fuel c = Some res ->
  exists c' v, res = each (leave v) c' /\ left_with (at_loop c) c' v.
Proof.
  intros Hpre. rewrite solve_cases, reduce_each.
  destruct (Z.ltb_spec (reduce Z.min (fun p => preflight (snd p)) c) 0); [lia|].
  destruct (iterate fuel (at_loop c)) as [[c' v]|] eqn:E; [|discriminate].
  intros Hres. injection Hres as <-. exists c', v. split; [reflexivity|].
  exact (loop_left fuel _ c' v (looping_at_loop c) E).
Qed.

(** The values [RK_MPI_SA_solve] returns are 0, 1, -2, -3, -4, -5 and
    -6.  It returns -4 only when NaN handling is on in the master, and 1
    only when the master has a [Service_Callback].  When the pre-flight
    check fails on no rank, all ranks return the same value, one of 0, 1
    and -4. *)
Theorem solve_return_codes (fuel : nat) (c : Cluster (FLOAT * Rank))
    (res : Cluster (Z * Rank)) :
  RK_MPI_SA_solve fuel c = Some res ->
  Forall (fun q =>
            In (fst q) [0; 1; -2; -3; -4; -5; -6]%Z /\
            (fst q = (-4)%Z -> handle_NAN (st (snd (root c))) <> 0%Z) /\
            (fst q = 1%Z -> Service_Callback (sys (snd (root c))) <> None))
         (ranks res) /\
  ((forall p, In p (ranks c) -> preflight (snd p) = 0%Z) ->
   exists v, In v [0; 1; -4]%Z /\ Forall (fun q => fst q = v) (ranks res)).
Proof.
  intros H.
  destruct (Z.ltb_spec (reduce Z.min (fun p => preflight (snd p)) c) 0) as [Hneg|Hpos].
  - rewrite (refused_all fuel c Hneg) in H. injection H as <-. split.
    + apply Forall_each. intros p _. cbn [fst snd].
      destruct (refuse_range (snd p)) as (_ & _ & Hin). cbn in Hin. cbn [In].
      repeat split; [tauto | intros E; rewrite E in Hin | intros E; rewrite E in Hin];
        exfalso; intuition discriminate.
    + intros Hall. rewrite (reduce_min_zero _ c Hall) in Hneg. lia.
  - destruct (solve_left fuel c res Hpos H) as (c' & v & -> & Hv & H4 & H1 & _).
    destruct (at_loop_root c) as (Eh & Es). rewrite Eh in H4. rewrite Es in H1.
    split.
    + apply Forall_each. intros a _. destruct (leave_rank v a) as (-> & _).
      cbn in Hv. cbn [In]. repeat split; [tauto | exact H4 | exact H1].
    + intros _. exists v. split; [exact Hv|].
      apply Forall_each. intros a _. apply leave_rank.
Qed.

(** [RK_MPI_SA_check_NAN] after a call of [RK_MPI_SA_solve] in which no
    pre-flight check failed: it returns 0 or 1 on every rank; 1 when the
    call returned -4; and 0 when NaN handling is off in the master, in
    which case the call does not return -4. *)
Theorem check_NAN_after_solve (fuel : nat) (c : Cluster (FLOAT * Rank))
    (res : Cluster (Z * Rank)) :
  (forall p, In p (ranks c) -> preflight (snd p) = 0%Z) ->
  RK_MPI_SA_solve fuel c = Some res ->
  Forall (fun q =>
            (RK_MPI_SA_check_NAN (st (snd q)) = 0%Z \/
             RK_MPI_SA_check_NAN (st (snd q)) = 1%Z) /\
            (fst q = (-4)%Z -> RK_MPI_SA_check_NAN (st (snd q)) = 1%Z) /\
            (handle_NAN (st (snd (root c))) = 0%Z ->
             RK_MPI_SA_check_NAN (st (snd q)) = 0%Z /\ fst q <> (-4)%Z))
         (ranks res).
Proof.
  intros Hall H.
  assert (Hpos : (0 <= reduce Z.min (fun p => preflight (snd p)) c)%Z)
    by (rewrite (reduce_min_zero _ c Hall); lia).
  destruct (solve_left fuel c res Hpos H) as (c' & v & -> & Hv & H4 & _ & HL).
  destruct (at_loop_root c) as (Eh & _). rewrite Eh in H4, HL.
  rewrite ranks_each. apply Forall_map, Forall_forall. intros a Ha.
  destruct (leave_rank v a) as (-> & ->). unfold RK_MPI_SA_check_NAN.
  destruct (HL a Ha) as (H01 & Hm4 & H0).
  repeat split; auto. intros ->. now apply H4.
Qed.

(** *** Refused calls *)

(** When the pre-flight check fails on some rank, every rank returns
    from [RK_MPI_SA_solve] after [MPI_Allreduce], whatever the number of
    iterations allowed: a rank whose own check failed returns its code
    (-2, -3 or -5) and the others return -6.  The right hand side has not
    been evaluated, the statics ([last_NAN] included) and the solution
    structure are as they were, and [meta_f] has been invoked once where
    it is set. *)
Theorem solve_refused (fuel : nat) (c : Cluster (FLOAT * Rank)) :
  (exists p, In p (ranks c) /\ preflight (snd p) <> 0%Z) ->
  exists res,
    RK_MPI_SA_solve fuel c = Some res /\
    Forall2 (fun p q =>
               fst q = (if (preflight (snd p) =? 0)%Z then (-6)%Z
                        else preflight (snd p)) /\
               In (fst q) [-2; -3; -5; -6]%Z /\
               st (snd q) = st (snd p) /\
               sys (snd q) = sys (snd p) /\
               rhs_calls (snd q) = rhs_calls (snd p) /\
               meta_calls (snd q) =
               match meta_f (sys (snd p)) with
               | Some _ => S (meta_calls (snd p))
               | None => meta_calls (snd p)
               end)
            (ranks c) (ranks res).
Proof.
  intros (p & Hp & Hne).
  eexists. split.
  - apply refused_all.
    pose proof (reduce_min_le (fun p => preflight (snd p)) c p Hp) as Hle.
    cbv beta in Hle. pose proof (preflight_range (snd p)) as Hr. cbn in Hr.
    intuition lia.
  - apply Forall2_each. intros p' _. cbn [fst snd].
    destruct (refuse_range (snd p')) as (H0 & H1 & Hin).
    split.
    { destruct (Z.eqb_spec (preflight (snd p')) 0) as [E|E]; auto. }
    split; [exact Hin|]. repeat split.
Qed.

(** *** The layout test of the pre-flight check *)

(** A layout that [RK_MPI_SA_check_mem] accepts passes the tests of the
    pre-flight check on the layout and on the initialisation: a rank that
    passes it with [x] and [meta_f] set, and on the master with a positive
    [delta], is not refused. *)
Theorem validated_layout_passes (n : RK_MEM_DIST) (r : Rank) :
  layout_in_int n ->
  fst (RK_MPI_SA_check_mem n (st r)) = 0%Z ->
  sys_n (sys r) = Some n ->
  sys_x (sys r) <> None -> meta_f (sys r) <> None ->
  is_master (st r) && fle (delta (sys r)) 0 = false ->
  preflight r = 0%Z.
Proof.
  intros Hint H0 Hn Hx Hf Hd.
  destruct (check_mem_zero_valid n (st r) Hint H0) as (Hu & Hpos & _ & Hcap).
  unfold preflight. cbv zeta. rewrite Hn, Hu, Hd.
  destruct (sys_x (sys r)); [|contradiction].
  destruct (meta_f (sys r)); [|contradiction].
  destruct (Hint (n_chunks n - 1)%Z ltac:(lia)) as (_ & _ & Hsum).
  unfold int_add. rewrite (wrap_int_id _ Hsum).
  fold (last_end n). destruct (Z.gtb_spec (last_end n) (max_n (st r))); [lia|reflexivity].
Qed.

(** *** What is read on the master only *)

Lemma enter_rk_any ft ft' r : rk (enter ft r) = rk (enter ft' r).
Proof. reflexivity. Qed.

Lemma adjust_not_master a : is_master (st (rk a)) = false -> adjust a = a.
Proof. unfold adjust. now intros ->. Qed.

Lemma entering_same_root c c' p : root c' = root c -> entering c' p = entering c p.
Proof. intros Er. unfold entering, master_frame. now rewrite Er. Qed.

Lemma entering_peer c p p' :
  snd p' = snd p /\ is_master (st (snd p)) = false -> entering c p' = entering c p.
Proof.
  intros [Ep Hm]. unfold entering. rewrite Ep.
  rewrite !adjust_not_master by exact Hm. reflexivity.
Qed.

Lemma refused_peer (p p' : FLOAT * Rank) :
  snd p' = snd p /\ is_master (st (snd p)) = false ->
  (refuse (preflight (snd p')), rk (enter (fst p') (snd p')))
  = (refuse (preflight (snd p)), rk (enter (fst p) (snd p))).
Proof. intros [-> _]. now rewrite (enter_rk_any (fst p') (fst p)). Qed.

Lemma preflight_peer (p p' : FLOAT * Rank) :
  snd p' = snd p /\ is_master (st (snd p)) = false ->
  preflight (snd p') = preflight (snd p).
Proof. now intros [-> _]. Qed.

(** The [final_time] a rank other than the master passes is ignored:
    calls that differ in nothing else return the same. *)
Theorem peers_final_time_ignored (fuel : nat) (c c' : Cluster (FLOAT * Rank)) :
  root c' = root c ->
  Forall2 (fun p p' => snd p' = snd p /\ is_master (st (snd p)) = false)
          (peers c) (peers c') ->
  RK_MPI_SA_solve fuel c' = RK_MPI_SA_solve fuel c.
Proof.
  intros Er F. rewrite !solve_cases, !reduce_each.
  assert (E1 : reduce Z.min (fun p => preflight (snd p)) c'
               = reduce Z.min (fun p => preflight (snd p)) c).
  { unfold reduce. rewrite Er. f_equal. symmetry.
    exact (map_related _ _ _ _ _ (fun p p' H => eq_sym (preflight_peer p p' H)) F). }
  assert (E2 : each (fun p => (refuse (preflight (snd p)), rk (enter (fst p) (snd p)))) c'
               = each (fun p => (refuse (preflight (snd p)), rk (enter (fst p) (snd p)))) c).
  { unfold each. rewrite Er. f_equal. symmetry.
    exact (map_related _ _ _ _ _ (fun p p' H => eq_sym (refused_peer p p' H)) F). }
  assert (E3 : at_loop c' = at_loop c).
  { rewrite !at_loop_each. unfold each. rewrite Er. f_equal.
    - now apply entering_same_root.
    - symmetry.
      refine (map_related _ _ _ _ _ (fun p p' H => _) F).
      rewrite (entering_same_root c c' p' Er). symmetry. now apply entering_peer. }
  now rewrite E1, E2, E3.
Qed.

(** *** The NaN handling switch *)

Lemma solve_entered fuel c res :
  (0 <= reduce Z.min (fun p => preflight (snd p)) c)%Z ->
  RK_MPI_SA_solve fuel c = Some res ->
  exists c' v, iterate fuel (at_loop c) = Some (c', v) /\ res = each (leave v) c'.
Proof.
  intros Hpre. rewrite solve_cases, reduce_each.
  destruct (Z.ltb_spec (reduce Z.min (fun p => preflight (snd p)) c) 0); [lia|].
  destruct (iterate fuel (at_loop c)) as [[c' v]|]; [|discriminate].
  intros Hres. injection Hres as <-. now exists c', v.
Qed.

Lemma switch_attempt H s :
  in_step s /\ handle_NAN (st (rk (root s))) = H ->
  in_step (fst (attempt s)) /\ handle_NAN (st (rk (root (fst (attempt s))))) = H.
Proof.
  intros [Hs Hh]. split; [now apply in_step_attempt|].
  rewrite attempt_frames, root_each.
  destruct (settings_kept_trans _ _ _ (kept_proposal (NAN_occurred_global s)
              (all_max_eps s) (command_of s) (root s)) (kept_finish (outcome s) _))
    as (_ & _ & _ & _ & -> & _).
  exact Hh.
Qed.

(** NaN handling is switched by the master: whatever a rank has set
    with [RK_MPI_SA_handle_NAN], when a call of [RK_MPI_SA_solve] that
    entered the loop returns, the switch of every rank is the one of the
    master, 1 after [RK_MPI_SA_handle_NAN] with a value other than 0 on the
    master and 0 after [RK_MPI_SA_handle_NAN(0)]. *)
Theorem nan_switch_of_master (fuel : nat) (c : Cluster (FLOAT * Rank))
    (res : Cluster (Z * Rank)) (hN : Z) (g : Statics) :
  (forall p, In p (ranks c) -> preflight (snd p) = 0%Z) ->
  st (snd (root c)) = RK_MPI_SA_handle_NAN hN g ->
  RK_MPI_SA_solve fuel c = Some res ->
  Forall (fun q => handle_NAN (st (snd q)) = if (hN =? 0)%Z then 0%Z else 1%Z)
         (ranks res).
Proof.
  intros Hall Hg H.
  assert (Hpos : (0 <= reduce Z.min (fun p => preflight (snd p)) c)%Z)
    by (rewrite (reduce_min_zero _ c Hall); lia).
  destruct (solve_entered fuel c res Hpos H) as (c' & v & Hit & ->).
  set (V := if (hN =? 0)%Z then 0%Z else 1%Z).
  assert (I0 : in_step (at_loop c) /\ handle_NAN (st (rk (root (at_loop c)))) = V).
  { split; [apply in_step_at_loop|].
    destruct (at_loop_root c) as (-> & _). now rewrite Hg. }
  destruct (while_1_invariant attempt
              (fun s => in_step s /\ handle_NAN (st (rk (root s))) = V)
              (switch_attempt V) fuel (at_loop c) c' v Hit I0) as [Hs Hh].
  rewrite ranks_each. apply Forall_map, Forall_forall. intros a Ha.
  destruct (leave_rank v a) as (_ & ->).
  destruct (Hs a Ha) as (_ & _ & _ & _ & _ & ->). exact Hh.
Qed.

End Returns.

Lemma solve_return_codes_witness :
  exists res,
    RK_MPI_SA_solve (build := sample_build) 100 c_nan = Some res /\
    Forall (fun q =>
              In (fst q) [0; 1; -2; -3; -4; -5; -6]%Z /\
              (fst q = (-4)%Z -> handle_NAN (st (snd (root c_nan))) <> 0%Z) /\
              (fst q = 1%Z -> Service_Callback (sys (snd (root c_nan))) <> None))
           (ranks res).
Proof.
  destruct (RK_MPI_SA_solve (build := sample_build) 100 c_nan) as [res|] eqn:E.
  - exists res. split; [reflexivity|].
    exact (proj1 (solve_return_codes (build := sample_build) 100 c_nan res E)).
  - vm_compute in E. discriminate E.
Defined.

Lemma check_NAN_after_solve_witness :
  (forall p, In p (ranks c_nan) -> preflight (snd p) = 0%Z) /\
  exists res,
    RK_MPI_SA_solve (build := sample_build) 100 c_nan = Some res /\
    Forall (fun q =>
              (RK_MPI_SA_check_NAN (st (snd q)) = 0%Z \/
               RK_MPI_SA_check_NAN (st (snd q)) = 1%Z) /\
              (fst q = (-4)%Z -> RK_MPI_SA_check_NAN (st (snd q)) = 1%Z) /\
              (handle_NAN (st (snd (root c_nan))) = 0%Z ->
               RK_MPI_SA_check_NAN (st (snd q)) = 0%Z /\ fst q <> (-4)%Z))
           (ranks res).
Proof.
  assert (Hpre : forall p, In p (ranks c_nan) -> preflight (snd p) = 0%Z).
  { intros p [<- | []]. vm_compute. reflexivity. }
  split; [exact Hpre|].
  destruct (RK_MPI_SA_solve (build := sample_build) 100 c_nan) as [res|] eqn:E.
  - exists res. split; [reflexivity|].
    exact (check_NAN_after_solve (build := sample_build) 100 c_nan res Hpre E).
  - vm_compute in E. discriminate E.
Defined.

Lemma solve_refused_witness :
  (exists p, In p (ranks c_pair) /\ preflight (snd p) <> 0) /\
  exists res,
    RK_MPI_SA_solve (build := sample_build) 7 c_pair = Some res /\
    Forall2 (fun p q =>
               fst q = (if preflight (snd p) =? 0 then -6 else preflight (snd p)) /\
               In (fst q) [-2; -3; -5; -6] /\
               st (snd q) = st (snd p) /\
               sys (snd q) = sys (snd p) /\
               rhs_calls (snd q) = rhs_calls (snd p) /\
               meta_calls (snd q) =
               match meta_f (sys (snd p)) with
               | Some _ => S (meta_calls (snd p))
               | None => meta_calls (snd p)
               end)
            (ranks c_pair) (ranks res).
Proof.
  assert (H : exists p, In p (ranks c_pair) /\ preflight (snd p) <> 0).
  { exists (1%float, r_lost). split; [right; left; reflexivity|].
    vm_compute. discriminate. }
  split; [exact H|].
  exact (solve_refused (build := sample_build) 7 c_pair H).
Defined.

Lemma validated_layout_passes_witness :
  layout_in_int layout_two /\
  fst (RK_MPI_SA_check_mem layout_two (st r_decay)) = 0 /\
  sys_n (sys r_decay) = Some layout_two /\
  sys_x (sys r_decay) <> None /\ meta_f (sys r_decay) <> None /\
  is_master (st r_decay) && fle (delta (sys r_decay)) 0%float = false /\
  preflight r_decay = 0.
Proof.
  assert (Hx : sys_x (sys r_decay) <> None) by discriminate.
  assert (Hf : meta_f (sys r_decay) <> None) by discriminate.
  split; [exact layout_two_in_int|]. split; [reflexivity|]. split; [reflexivity|].
  split; [exact Hx|]. split; [exact Hf|]. split; [reflexivity|].
  exact (validated_layout_passes layout_two r_decay layout_two_in_int
           eq_refl eq_refl Hx Hf eq_refl).
Defined.

Lemma peers_final_time_ignored_witness :
  let c' := {| root := root c_two; peers := [(1%float, r_peer)] |} in
  root c' = root c_two /\
  Forall2 (fun p p' => snd p' = snd p /\ is_master (st (snd p)) = false)
          (peers c_two) (peers c') /\
  RK_MPI_SA_solve (build := sample_build) 100 c'
  = RK_MPI_SA_solve (build := sample_build) 100 c_two.
Proof.
  intros c'.
  assert (F : Forall2 (fun p p' => snd p' = snd p /\ is_master (st (snd p)) = false)
                (peers c_two) (peers c')).
  { constructor; [split; reflexivity | constructor]. }
  split; [reflexivity|]. split; [exact F|].
  exact (peers_final_time_ignored (build := sample_build) 100 c_two c' eq_refl F).
Defined.

Lemma nan_switch_of_master_witness :
  (forall p, In p (ranks c_nan) -> preflight (snd p) = 0) /\
  st (snd (root c_nan)) = RK_MPI_SA_handle_NAN 1 (g_of 0) /\
  exists res,
    RK_MPI_SA_solve (build := sample_build) 100 c_nan = Some res /\
    Forall (fun q => handle_NAN (st (snd q)) = if 1 =? 0 then 0 else 1) (ranks res).
Proof.
  assert (Hpre : forall p, In p (ranks c_nan) -> preflight (snd p) = 0).
  { intros p [<- | []]. vm_compute. reflexivity. }
  split; [exact Hpre|]. split; [reflexivity|].
  destruct (RK_MPI_SA_solve (build := sample_build) 100 c_nan) as [res|] eqn:E.
  - exists res. split; [reflexivity|].
    exact (nan_switch_of_master (build := sample_build) 100 c_nan res 1 (g_of 0)
             Hpre eq_refl E).
  - vm_compute in E. discriminate E.
Defined.

(* ================================================================== *)
(** ** What a call never writes *)

Section Kept.

Context {build : Build}.

Local Open Scope Z_scope.

Lemma config_kept_refl r : config_kept r r.
Proof. repeat split. Qed.

Lemma config_kept_trans r1 r2 r3 :
  config_kept r1 r2 -> config_kept r2 r3 -> config_kept r1 r3.
Proof.
  unfold config_kept.
  intros (A1 & A2 & A3 & A4 & A5 & A6 & A7 & A8 & A9 & A10)
         (B1 & B2 & B3 & B4 & B5 & B6 & B7 & B8 & B9 & B10).
  rewrite B1, B2, B3, B4, B5, B6, B7, B8, B9, B10. repeat split; assumption.
Qed.

Lemma config_give_up_NAN b : config_kept (rk b) (rk (give_up_NAN b)).
Proof. repeat split. Qed.
Lemma config_retry_NAN b : config_kept (rk b) (rk (retry_NAN b)).
Proof. repeat split. Qed.
Lemma config_interrupted b : config_kept (rk b) (rk (interrupted b)).
Proof. repeat split. Qed.
Lemma config_advance b : config_kept (rk b) (rk (advance b)).
Proof. unfold advance. split_ifs; repeat split. Qed.
Lemma config_rearrange b : config_kept (rk b) (rk (rearrange b)).
Proof. unfold rearrange. split_ifs; repeat split. Qed.
Lemma config_update b : config_kept (rk b) (rk (update b)).
Proof. unfold update. split_ifs; repeat split. Qed.
Lemma config_accepted command2 b : config_kept (rk b) (rk (accepted command2 b)).
Proof. unfold accepted. rewrite rk_on_loc. apply config_update. Qed.

Lemma config_finish o b : config_kept (rk b) (rk (finish o b)).
Proof.
  destruct o; cbn [finish].
  - apply config_give_up_NAN.
  - apply config_retry_NAN.
  - apply config_accepted.
  - exact (config_kept_trans _ _ _ (config_accepted _ b) (config_interrupted _)).
  - exact (config_kept_trans _ _ _ (config_accepted _ b)
             (config_kept_trans _ _ _ (config_rearrange _) (config_advance _))).
  - apply config_advance.
Qed.

Lemma eval_K1_MPIprocs a : MPIprocs (st (rk (eval_K1 a))) = MPIprocs (st (rk a)).
Proof. reflexivity. Qed.
Lemma eval_K2_MPIprocs a : MPIprocs (st (rk (eval_K2 a))) = MPIprocs (st (rk a)).
Proof. reflexivity. Qed.
Lemma eval_K3_MPIprocs a : MPIprocs (st (rk (eval_K3 a))) = MPIprocs (st (rk a)).
Proof. reflexivity. Qed.
Lemma eval_K4_MPIprocs a : MPIprocs (st (rk (eval_K4 a))) = MPIprocs (st (rk a)).
Proof. reflexivity. Qed.
Lemma eval_K5_MPIprocs a : MPIprocs (st (rk (eval_K5 a))) = MPIprocs (st (rk a)).
Proof. reflexivity. Qed.

Lemma coefficients_MPIprocs a :
  MPIprocs (st (rk (coefficients a))) = MPIprocs (st (rk a)).
Proof.
  unfold coefficients.
  rewrite eval_K5_MPIprocs, eval_K4_MPIprocs, eval_K3_MPIprocs, eval_K2_MPIprocs.
  apply eval_K1_MPIprocs.
Qed.

Lemma config_proposal G M command a : config_kept (rk a) (rk (proposal G M command a)).
Proof.
  unfold config_kept. rewrite proposal_rk, st_mk, sys_mk, coefficients_MPIprocs.
  destruct (coefficients_other a) as (-> & _ & _ & -> & ->).
  repeat split.
Qed.

Lemma config_attempt (l : list (FLOAT * Rank)) s :
  Forall2 (fun p a => config_kept (snd p) (rk a)) l (ranks s) ->
  Forall2 (fun p a => config_kept (snd p) (rk a)) l (ranks (fst (attempt s))).
Proof.
  intros F. rewrite attempt_frames.
  apply (Forall2_each_right (fun (p : FLOAT * Rank) a => config_kept (snd p) (rk a))
           _ _ l s); [|exact F].
  intros p a H.
  exact (config_kept_trans _ _ _ H
           (config_kept_trans _ _ _ (config_proposal _ _ _ a) (config_finish _ _))).
Qed.

Lemma config_enter final_time r : config_kept r (rk (enter final_time r)).
Proof. repeat split. Qed.

Lemma config_entering c (p : FLOAT * Rank) : config_kept (snd p) (rk (entering c p)).
Proof.
  unfold entering, receive. cbn [rk]. unfold config_kept.
  rewrite st_mk, sys_mk, adjust_rk.
  repeat split.
Qed.

Lemma config_leave v a : config_kept (rk a) (snd (leave v a)).
Proof. unfold leave. cbn [snd]. destruct (v =? 0); repeat split. Qed.

(** [RK_MPI_SA_solve] writes neither the tolerance data nor the callbacks
    of the solution structure, nor what [RK_MPI_SA_init] has stored:
    whatever a call returns, on every rank [h_min], [delta], [delta_mode],
    [meta_f], [DDLBF_Rearrange] and [Service_Callback] of the structure
    and [max_n], [MPIrank], [MPIprocs] and [MPImaster] are what they were
    when the call was made. *)
Theorem solve_keeps_configuration (fuel : nat) (c : Cluster (FLOAT * Rank))
    (res : Cluster (Z * Rank)) :
  RK_MPI_SA_solve fuel c = Some res ->
  Forall2 (fun p q => config_kept (snd p) (snd q)) (ranks c) (ranks res).
Proof.
  rewrite solve_cases.
  destruct (reduce Z.min (fun e => e) (each (fun p => preflight (snd p)) c) <? 0).
  - intros H. injection H as <-.
    apply (Forall2_each_right (fun p p' : FLOAT * Rank => p = p') _ _ (ranks c) c).
    + intros p p' ->. exact (config_enter (fst p') (snd p')).
    + apply Forall2_same. reflexivity.
  - destruct (iterate fuel (at_loop c)) as [[c' v]|] eqn:E; [|discriminate].
    intros H. injection H as <-.
    apply (Forall2_each_right (fun (p : FLOAT * Rank) a => config_kept (snd p) (rk a))
             _ _ (ranks c) c').
    + intros p a H. exact (config_kept_trans _ _ _ H (config_leave v a)).
    + assert (I0 : Forall2 (fun (p : FLOAT * Rank) a => config_kept (snd p) (rk a))
                     (ranks c) (ranks (at_loop c))).
      { rewrite at_loop_each.
        apply (Forall2_each_right (fun p p' : FLOAT * Rank => p = p') _ _ (ranks c) c).
        - intros p p' ->. exact (config_entering c p').
        - apply Forall2_same. reflexivity. }
      destruct (while_1_left attempt
                  (fun (_ : nat) s =>
                     Forall2 (fun (p : FLOAT * Rank) a => config_kept (snd p) (rk a))
                             (ranks c) (ranks s))
                  (fun (_ : nat) s (_ : Z) =>
                     Forall2 (fun (p : FLOAT * Rank) a => config_kept (snd p) (rk a))
                             (ranks c) (ranks s))
                  (fun k s I _ => config_attempt _ s I)
                  (fun k s v0 I _ => config_attempt _ s I)
                  fuel 0%nat (at_loop c) c' v I0 E) as (k & _ & F).
      exact F.
Qed.

End Kept.

Lemma solve_keeps_configuration_witness :
  exists res,
    RK_MPI_SA_solve (build := sample_build) 100 c_two = Some res /\
    Forall2 (fun p q => config_kept (snd p) (snd q)) (ranks c_two) (ranks res).
Proof.
  destruct (RK_MPI_SA_solve (build := sample_build) 100 c_two) as [res|] eqn:E.
  - exists res. split; [reflexivity|].
    exact (solve_keeps_configuration (build := sample_build) 100 c_two res E).
  - vm_compute in E. discriminate E.
Defined.

(* ================================================================== *)
(** ** The reduced error *)

Section ReducedError.

Context {build : Build}.

Import FloatFacts.

Lemma max_step_cases acc e : max_step acc e = if flt acc e then e else acc.
Proof. reflexivity. Qed.

Lemma nan_scan_not_below es : forall acc,
  is_nan acc = false -> flt (fst (nan_scan es acc)) acc = false.
Proof.
  induction es as [|e es IH]; intros acc H; [apply flt_irrefl|].
  cbn [nan_scan]. destruct (negb (isfinite e)); [apply flt_irrefl|].
  rewrite max_step_cases. destruct (flt acc e) eqn:Hlt.
  - destruct (flt_not_nan _ _ Hlt) as [_ He]. specialize (IH e He).
    destruct (flt (fst (nan_scan es e)) acc) eqn:Hr; [|reflexivity].
    rewrite (flt_trans _ _ _ Hr Hlt) in IH. discriminate IH.
  - now apply IH.
Qed.

Lemma scan_not_below g n nc : flt (fst (scan g n nc)) 0%float = false.
Proof.
  unfold scan. destruct (negb (handle_NAN g =? 0)).
  - apply nan_scan_not_below. reflexivity.
  - cbn [fst]. unfold plain_scan. destruct OPENMP31.
    + now destruct (fold_max_step (map (merson_e g n) (cells n nc)) 0%float zero_not_nan)
        as (_ & _ & Hre & _).
    + now destruct (fold_max_parts (fun k => map (merson_e g n) (chunk_cells n k))
                      (upto nc) 0%float _ zero_not_nan (flt_irrefl _) eq_refl)
        as (_ & _ & Hre & _).
Qed.

(** The error that [MPI_Allreduce] delivers is a number and is not
    negative, whatever the right hand side has produced (estimates that
    are NaN never win a comparison): the test [max_eps > 0.0] fails for
    [max_eps == 0] only, in which case the step is doubled. *)
Theorem reduced_error_is_number (c : Cluster Frame) :
  let M := all_max_eps c in
  is_nan M = false /\ flt M 0%float = false /\
  (fgt M 0%float = true \/ feq M 0%float = true) /\
  (l_delta_mode (loc (root c)) <> DELTA_LOCAL ->
   h_new M (root c) = (0.8 * powF (l_delta (loc (root c)) / M) 0.2
                       * l_h (loc (root c)))%float \/
   (feq M 0%float = true /\ h_new M (root c) = (2 * l_h (loc (root c)))%float)).
Proof.
  intros M. subst M. rewrite all_max_eps_fold.
  assert (H0 : is_nan (eps_of (root c)) = false) by apply scan_not_nan.
  assert (H1 : flt (eps_of (root c)) 0%float = false) by apply scan_not_below.
  destruct (fold_max_step (map eps_of (peers c)) (eps_of (root c)) H0)
    as (_ & Hnan & Hre & _). cbv zeta in Hnan, Hre.
  set (M := fold_left max_step (map eps_of (peers c)) (eps_of (root c))) in *.
  assert (Hpos : flt M 0%float = false)
    by exact (not_below_maximum M (eps_of (root c)) 0%float H0 Hre H1).
  split; [exact Hnan|]. split; [exact Hpos|].
  assert (T : fgt M 0%float = true \/ feq M 0%float = true).
  { destruct (flt_total M 0%float Hnan zero_not_nan Hpos) as [H|H]; auto. }
  split; [exact T|].
  intros Hmode. unfold h_new, reported_eps.
  destruct (Z.eqb_spec (l_delta_mode (loc (root c))) DELTA_LOCAL); [contradiction|].
  cbv zeta. destruct (fgt M 0%float) eqn:Hgt; [now left|].
  right. destruct T as [T|T]; [discriminate T|]. split; [exact T|reflexivity].
Qed.

End ReducedError.

(* ================================================================== *)
(** ** Initialisation and cleanup *)

Lemma init_answered m env mr g rank procs :
  comm_rank env = Some rank -> comm_size env = Some procs ->
  RK_MPI_SA_init m env mr g =
  let g := set_MPIprocs procs (set_MPIrank rank g) in
  if negb (max_n g =? 0) then (-3, g)
  else if m <=? 0 then (-2, g)
  else match malloc_aux env with
       | None => (-1, allocate env g)
       | Some _ =>
           (0, set_MPImaster mr (set_last_NAN 0 (set_max_n m (allocate env g))))
       end.
Proof. intros Hr Hs. unfold RK_MPI_SA_init. now rewrite Hr, Hs. Qed.

Lemma answers_inv env :
  answers env -> exists rank procs, comm_rank env = Some rank /\ comm_size env = Some procs.
Proof.
  intros [Hr Hs]. destruct (comm_rank env) as [rank|]; [|contradiction].
  destruct (comm_size env) as [procs|]; [|contradiction]. now exists rank, procs.
Qed.

(** A call of [RK_MPI_SA_init] on an initialised solver ([max_n] not
    0) that gets its answers from the communicator. *)
Lemma init_again m env mr g :
  answers env -> max_n g <> 0 ->
  fst (RK_MPI_SA_init m env mr g) = -3 /\
  max_n (snd (RK_MPI_SA_init m env mr g)) = max_n g /\
  K1 (snd (RK_MPI_SA_init m env mr g)) = K1 g.
Proof.
  intros Ha Hn. destruct (answers_inv env Ha) as (rank & procs & Hr & Hs).
  rewrite (init_answered m env mr g rank procs Hr Hs). cbv zeta.
  change (max_n (set_MPIprocs procs (set_MPIrank rank g))) with (max_n g).
  destruct (Z.eqb_spec (max_n g) 0); [contradiction|]. repeat split.
Qed.

(** A call on a solver that is not initialised, with a positive block
    size, in an environment that delivers the last block. *)
Lemma init_first m env mr g :
  answers env -> malloc_aux env <> None -> max_n g = 0 -> 0 < m ->
  fst (RK_MPI_SA_init m env mr g) = 0 /\
  max_n (snd (RK_MPI_SA_init m env mr g)) = m /\
  K1 (snd (RK_MPI_SA_init m env mr g)) = malloc_K1 env /\
  last_NAN (snd (RK_MPI_SA_init m env mr g)) = 0 /\
  handle_NAN (snd (RK_MPI_SA_init m env mr g)) = handle_NAN g /\
  MPImaster (snd (RK_MPI_SA_init m env mr g)) = mr /\
  Some (MPIrank (snd (RK_MPI_SA_init m env mr g))) = comm_rank env.
Proof.
  intros Ha Hx Hn Hm. destruct (answers_inv env Ha) as (rank & procs & Hr & Hs).
  rewrite (init_answered m env mr g rank procs Hr Hs). cbv zeta.
  change (max_n (set_MPIprocs procs (set_MPIrank rank g))) with (max_n g).
  rewrite Hn. cbn [Z.eqb negb].
  destruct (Z.leb_spec m 0); [lia|].
  destruct (malloc_aux env); [|contradiction]. rewrite Hr. repeat split.
Qed.

Lemma uninitialised_iff g :
  uninitialised g = false <-> max_n g <> 0 /\ K1 g <> None.
Proof.
  unfold uninitialised. destruct (Z.eqb_spec (max_n g) 0) as [E|E], (K1 g);
    cbn; split; intros H; try discriminate H; try (destruct H; congruence);
    try reflexivity.
  split; [exact E | discriminate].
Qed.

Lemma cleanup_initialised g :
  uninitialised g = false ->
  RK_MPI_SA_cleanup g = (0, set_max_n 0 g).
Proof. intros H. unfold RK_MPI_SA_cleanup. now rewrite H. Qed.

Lemma cleanup_uninitialised g :
  uninitialised g = true -> RK_MPI_SA_cleanup g = (-3, g).
Proof. intros H. unfold RK_MPI_SA_cleanup. now rewrite H. Qed.

(** The codes of [RK_MPI_SA_init] and what a call leaves.  The code is
    one of 0, -1, -2, -3 and -4.  A call that fails leaves the solver
    initialised if and only if it was, with the same [max_n], master
    rank and NaN flags; a call that finds the solver initialised keeps the
    arrays as well.  A call that succeeds found [max_n == 0] and a positive
    block size; it sets [max_n] to the block size, resets [last_NAN],
    records the master rank and the rank of the process, and keeps the NaN
    handling switch. *)
Theorem init_codes (m : Z) (env : InitEnv) (mr : Z) (g : Statics) :
  let res := RK_MPI_SA_init m env mr g in
  In (fst res) [0; -1; -2; -3; -4] /\
  (fst res <> 0 ->
   uninitialised (snd res) = uninitialised g /\ max_n (snd res) = max_n g /\
   MPImaster (snd res) = MPImaster g /\ handle_NAN (snd res) = handle_NAN g /\
   last_NAN (snd res) = last_NAN g) /\
  (max_n g <> 0 ->
   fst res <> 0 /\ K1 (snd res) = K1 g /\ K3 (snd res) = K3 g /\
   K4 (snd res) = K4 g /\ K5 (snd res) = K5 g /\ aux (snd res) = aux g) /\
  (fst res = 0 ->
   max_n g = 0 /\ 0 < m /\ max_n (snd res) = m /\ last_NAN (snd res) = 0 /\
   MPImaster (snd res) = mr /\ Some (MPIrank (snd res)) = comm_rank env /\
   handle_NAN (snd res) = handle_NAN g).
Proof.
  intros res. subst res. unfold RK_MPI_SA_init.
  destruct (comm_rank env) as [rank|].
  2:{ cbn. repeat split; try tauto; try discriminate. }
  destruct (comm_size env) as [procs|].
  2:{ cbn. repeat split; try tauto; try discriminate. }
  cbv zeta.
  change (max_n (set_MPIprocs procs (set_MPIrank rank g))) with (max_n g).
  destruct (Z.eqb_spec (max_n g) 0) as [E|E]; cbn [negb].
  2:{ cbn. repeat split; try tauto; try discriminate. }
  destruct (Z.leb_spec m 0) as [Hm|Hm].
  { cbn. repeat split; try tauto; try discriminate. }
  destruct (malloc_aux env) as [b|].
  - cbn. repeat split; try tauto; try discriminate; try contradiction.
  - cbn [fst snd]. split; [cbn; tauto|]. split.
    + intros _. unfold uninitialised. cbn [allocate max_n MPImaster handle_NAN last_NAN
        set_MPIprocs set_MPIrank]. rewrite E. repeat split.
    + split; [intros Hn; contradiction | discriminate].
Qed.

(** The cycle of initialisation and cleanup.  On a solver that is not
    initialised, a call of [RK_MPI_SA_init] with a positive block size, in
    an environment that answers and delivers the blocks, returns 0 and
    leaves the solver initialised.  Then another call of [RK_MPI_SA_init]
    returns -3; [RK_MPI_SA_cleanup] returns 0 and leaves the solver
    uninitialised; a second [RK_MPI_SA_cleanup] returns -3 and changes
    nothing; and [RK_MPI_SA_init] succeeds again, with any positive block
    size. *)
Theorem init_cleanup_cycle (m : Z) (env : InitEnv) (mr : Z) (g : Statics) :
  delivers env -> max_n g = 0 -> 0 < m ->
  let g1 := snd (RK_MPI_SA_init m env mr g) in
  let g2 := snd (RK_MPI_SA_cleanup g1) in
  fst (RK_MPI_SA_init m env mr g) = 0 /\
  uninitialised g1 = false /\
  (forall m' env' mr', answers env' -> fst (RK_MPI_SA_init m' env' mr' g1) = -3) /\
  fst (RK_MPI_SA_cleanup g1) = 0 /\
  uninitialised g2 = true /\
  RK_MPI_SA_cleanup g2 = (-3, g2) /\
  (forall m' mr', 0 < m' ->
     fst (RK_MPI_SA_init m' env mr' g2) = 0 /\
     max_n (snd (RK_MPI_SA_init m' env mr' g2)) = m' /\
     uninitialised (snd (RK_MPI_SA_init m' env mr' g2)) = false).
Proof.
  intros (Ha & Hk & Hx) Hn Hm g1 g2.
  destruct (init_first m env mr g Ha Hx Hn Hm) as (E0 & E1 & E2 & _).
  fold g1 in E1, E2.
  assert (U1 : uninitialised g1 = false).
  { apply uninitialised_iff. rewrite E1, E2. split; [lia|exact Hk]. }
  assert (C1 : RK_MPI_SA_cleanup g1 = (0, set_max_n 0 g1))
    by now apply cleanup_initialised.
  assert (U2 : uninitialised g2 = true).
  { subst g2. rewrite C1. reflexivity. }
  split; [exact E0|]. split; [exact U1|]. split.
  { intros m' env' mr' Ha'. apply init_again; [exact Ha'|]. rewrite E1. lia. }
  split; [now rewrite C1|]. split; [exact U2|].
  split; [now apply cleanup_uninitialised|].
  intros m' mr' Hm'.
  assert (Hn2 : max_n g2 = 0) by (subst g2; rewrite C1; reflexivity).
  destruct (init_first m' env mr' g2 Ha Hx Hn2 Hm') as (F0 & F1 & F2 & _).
  split; [exact F0|]. split; [exact F1|].
  apply uninitialised_iff. rewrite F1, F2. split; [lia|exact Hk].
Qed.

Lemma init_cleanup_cycle_witness :
  let env := env_ok 0 2 in
  let g := g_fresh (g_of 0) in
  delivers env /\ max_n g = 0 /\ 0 < 8 /\
  fst (RK_MPI_SA_init 8 env 0 g) = 0 /\
  uninitialised (snd (RK_MPI_SA_init 8 env 0 g)) = false /\
  fst (RK_MPI_SA_cleanup (snd (RK_MPI_SA_init 8 env 0 g))) = 0.
Proof.
  intros env g.
  assert (Hd : delivers env) by (repeat split; discriminate).
  assert (Hm : 0 < 8) by lia.
  split; [exact Hd|]. split; [reflexivity|]. split; [exact Hm|].
  destruct (init_cleanup_cycle 8 env 0 g Hd eq_refl Hm) as (H0 & H1 & _ & H3 & _).
  split; [exact H0|]. split; [exact H1 | exact H3].
Defined.

(** After a successful [RK_MPI_SA_init] with block size [m] that got its
    first block, [RK_MPI_SA_check_mem] accepts exactly the layouts with
    at least one chunk, every chunk well placed, and the last chunk
    ending within [m]. *)
Theorem init_then_check_mem (m : Z) (env : InitEnv) (mr : Z) (g : Statics)
    (n : RK_MEM_DIST) :
  fst (RK_MPI_SA_init m env mr g) = 0 ->
  malloc_K1 env <> None ->
  layout_in_int n ->
  (fst (RK_MPI_SA_check_mem n (snd (RK_MPI_SA_init m env mr g))) = 0 <->
   0 < n_chunks n /\
   (forall k, 0 <= k < n_chunks n -> chunk_placed n k) /\
   last_end n <= m).
Proof.
  intros H0 Hk Hint.
  assert (E : max_n (snd (RK_MPI_SA_init m env mr g)) = m /\ 0 < m /\
              K1 (snd (RK_MPI_SA_init m env mr g)) = malloc_K1 env).
  { revert H0. unfold RK_MPI_SA_init.
    destruct (comm_rank env); [|discriminate].
    destruct (comm_size env); [|discriminate]. cbv zeta.
    destruct (negb _); [discriminate|].
    destruct (Z.leb_spec m 0); [discriminate|].
    destruct (malloc_aux env); [|discriminate]. intros _. repeat split. lia. }
  destruct E as (E1 & Hm & E2).
  assert (U : uninitialised (snd (RK_MPI_SA_init m env mr g)) = false).
  { apply uninitialised_iff. rewrite E1, E2. split; [lia|exact Hk]. }
  split.
  - intros Hc. destruct (check_mem_zero_valid _ _ Hint Hc) as (_ & Hpos & Hall & Hcap).
    rewrite E1 in Hcap. auto.
  - intros (Hpos & Hall & Hcap).
    rewrite (check_mem_placed n _ Hint U Hpos Hall), E1.
    destruct (Z.gtb_spec (last_end n) m); [lia|reflexivity].
Qed.

Lemma init_then_check_mem_witness :
  let env := env_ok 0 2 in
  let g := g_fresh (g_of 0) in
  fst (RK_MPI_SA_init 8 env 0 g) = 0 /\
  malloc_K1 env <> None /\
  layout_in_int layout_two /\
  (fst (RK_MPI_SA_check_mem layout_two (snd (RK_MPI_SA_init 8 env 0 g))) = 0 <->
   0 < n_chunks layout_two /\
   (forall k, 0 <= k < n_chunks layout_two -> chunk_placed layout_two k) /\
   last_end layout_two <= 8).
Proof.
  intros env g.
  assert (Hk : malloc_K1 env <> None) by discriminate.
  split; [reflexivity|]. split; [exact Hk|]. split; [exact layout_two_in_int|].
  exact (init_then_check_mem 8 env 0 g layout_two eq_refl Hk layout_two_in_int).
Defined.

(** [RK_MPI_SA_init] tests the last allocation only.  When the first
    block is not delivered and the last one is, the call returns 0 with
    [K1 == NULL] and [max_n] set: the solver counts as not initialised for
    [RK_MPI_SA_check_mem], [RK_MPI_SA_cleanup] (which changes nothing) and
    the pre-flight check of [RK_MPI_SA_solve], and as initialised for
    [RK_MPI_SA_init], which returns -3 (or -4) from then on. *)
Theorem init_without_first_block (m : Z) (env : InitEnv) (mr : Z) (g : Statics) :
  answers env -> malloc_K1 env = None -> malloc_aux env <> None ->
  max_n g = 0 -> 0 < m ->
  let g1 := snd (RK_MPI_SA_init m env mr g) in
  fst (RK_MPI_SA_init m env mr g) = 0 /\
  uninitialised g1 = true /\
  (forall n, fst (RK_MPI_SA_check_mem n g1) = -3) /\
  RK_MPI_SA_cleanup g1 = (-3, g1) /\
  (forall r, st r = g1 -> preflight r = -3 \/ preflight r = -2) /\
  (forall m' env' mr',
     In (fst (RK_MPI_SA_init m' env' mr' g1)) [-3; -4] /\
     uninitialised (snd (RK_MPI_SA_init m' env' mr' g1)) = true).
Proof.
  intros Ha Hk Hx Hn Hm g1.
  destruct (init_first m env mr g Ha Hx Hn Hm) as (E0 & E1 & E2 & _).
  fold g1 in E1, E2. rewrite Hk in E2.
  assert (U : uninitialised g1 = true).
  { unfold uninitialised. rewrite E2. apply orb_true_r. }
  split; [exact E0|]. split; [exact U|]. split.
  { intros n. unfold RK_MPI_SA_check_mem. now rewrite U. }
  split; [now apply cleanup_uninitialised|]. split.
  { intros r Hr. unfold preflight. cbv zeta. rewrite Hr, U.
    destruct (is_master g1 && fle (delta (sys r)) 0%float); [now right|].
    destruct (sys_x (sys r)); [|now right].
    destruct (meta_f (sys r)); [now left | now right]. }
  intros m' env' mr'.
  assert (Hn1 : max_n g1 <> 0) by (rewrite E1; lia).
  unfold RK_MPI_SA_init.
  destruct (comm_rank env') as [rank'|]; [|split; [cbn; tauto | exact U]].
  destruct (comm_size env') as [procs'|]; [|split; [cbn; tauto | exact U]].
  cbv zeta.
  change (max_n (set_MPIprocs procs' (set_MPIrank rank' g1))) with (max_n g1).
  destruct (Z.eqb_spec (max_n g1) 0); [contradiction|].
  split; [cbn; tauto | exact U].
Qed.

Lemma init_without_first_block_witness :
  let env := env_short 0 2 in
  let g := g_fresh (g_of 0) in
  answers env /\ malloc_K1 env = None /\ malloc_aux env <> None /\
  max_n g = 0 /\ 0 < 8 /\
  fst (RK_MPI_SA_init 8 env 0 g) = 0 /\
  uninitialised (snd (RK_MPI_SA_init 8 env 0 g)) = true /\
  RK_MPI_SA_cleanup (snd (RK_MPI_SA_init 8 env 0 g))
  = (-3, snd (RK_MPI_SA_init 8 env 0 g)).
Proof.
  intros env g.
  assert (Ha : answers env) by (split; discriminate).
  assert (Hx : malloc_aux env <> None) by discriminate.
  assert (Hm : 0 < 8) by lia.
  split; [exact Ha|]. split; [reflexivity|]. split; [exact Hx|].
  split; [reflexivity|]. split; [exact Hm|].
  destruct (init_without_first_block 8 env 0 g Ha eq_refl Hx eq_refl Hm)
    as (H0 & H1 & _ & H3 & _).
  split; [exact H0|]. split; [exact H1 | exact H3].
Defined.

(** After [RK_MPI_SA_cleanup] has returned 0 the solver is not
    initialised: [RK_MPI_SA_check_mem] returns -3 for every layout, the
    pre-flight check of [RK_MPI_SA_solve] yields -3 (or -2), and another
    [RK_MPI_SA_cleanup] returns -3 and changes nothing.  The call resets
    [max_n] only: [K1] keeps its value, and the ranks and the NaN flags
    are kept. *)
Theorem cleanup_effect (g : Statics) :
  uninitialised g = false ->
  let g' := snd (RK_MPI_SA_cleanup g) in
  fst (RK_MPI_SA_cleanup g) = 0 /\
  max_n g' = 0 /\ K1 g' = K1 g /\ K1 g' <> None /\
  handle_NAN g' = handle_NAN g /\ last_NAN g' = last_NAN g /\
  MPIrank g' = MPIrank g /\ MPImaster g' = MPImaster g /\
  (forall n, fst (RK_MPI_SA_check_mem n g') = -3) /\
  (forall r, st r = g' -> preflight r = -3 \/ preflight r = -2) /\
  RK_MPI_SA_cleanup g' = (-3, g').
Proof.
  intros Hu g'. subst g'. rewrite (cleanup_initialised g Hu). cbn [fst snd].
  assert (U : uninitialised (set_max_n 0 g) = true) by reflexivity.
  apply uninitialised_iff in Hu. destruct Hu as [_ Hk].
  split; [reflexivity|]. split; [reflexivity|]. split; [reflexivity|].
  split; [exact Hk|]. do 4 (split; [reflexivity|]).
  split.
  { intros n. unfold RK_MPI_SA_check_mem. now rewrite U. }
  split; [|now apply cleanup_uninitialised].
  intros r Hr. unfold preflight. cbv zeta. rewrite Hr, U.
  destruct (is_master (set_max_n 0 g) && fle (delta (sys r)) 0%float); [now right|].
  destruct (sys_x (sys r)); [|now right].
  destruct (meta_f (sys r)); [now left | now right].
Qed.

Lemma cleanup_effect_witness :
  uninitialised g_ready = false /\
  fst (RK_MPI_SA_cleanup g_ready) = 0 /\
  RK_MPI_SA_cleanup (snd (RK_MPI_SA_cleanup g_ready))
  = (-3, snd (RK_MPI_SA_cleanup g_ready)).
Proof.
  split; [reflexivity|].
  destruct (cleanup_effect g_ready eq_refl) as (H0 & _ & _ & _ & _ & _ & _ & _ & _ & _ & H).
  split; [exact H0 | exact H].
Defined.
(* ================================================================== *)
(** ** The driver: the layout of a block is accepted *)

Lemma StronglySorted_app {A : Type} (R : A -> A -> Prop) l1 l2 :
  StronglySorted R l1 -> StronglySorted R l2 ->
  (forall x y, In x l1 -> In y l2 -> R x y) ->
  StronglySorted R (l1 ++ l2).
Proof.
  intros H1 H2 H. induction H1 as [|a l1 H1 IH Ha]; [exact H2|].
  cbn. constructor.
  - apply IH. intros x y Hx Hy. apply H; [now right | exact Hy].
  - apply Forall_app. split; [exact Ha|].
    apply Forall_forall. intros y Hy. apply H; [now left | exact Hy].
Qed.

Lemma StronglySorted_flat_map_upto {A : Type} (R : A -> A -> Prop) (f : Z -> list A)
    (m : nat) :
  (forall a, 0 <= a < Z.of_nat m -> StronglySorted R (f a)) ->
  (forall a a' x y, 0 <= a < a' -> a' < Z.of_nat m -> In x (f a) -> In y (f a') -> R x y) ->
  StronglySorted R (flat_map f (upto (Z.of_nat m))).
Proof.
  induction m as [|m IH]; intros Hin Hout; [constructor|].
  rewrite upto_succ, flat_map_app. apply StronglySorted_app.
  - apply IH.
    + intros a Ha. apply Hin. lia.
    + intros a a' x y Ha Ha'. apply Hout; lia.
  - cbn [flat_map]. rewrite app_nil_r. apply Hin. lia.
  - intros x y Hx Hy. cbn [flat_map] in Hy. rewrite app_nil_r in Hy.
    apply in_flat_map in Hx. destruct Hx as (a & Ha & Hx). apply in_upto in Ha.
    apply (Hout a (Z.of_nat m)); try assumption; lia.
Qed.

Lemma StronglySorted_map_upto {A : Type} (R : A -> A -> Prop) (f : Z -> A) (m : nat) :
  (forall a a', 0 <= a < a' -> a' < Z.of_nat m -> R (f a) (f a')) ->
  StronglySorted R (map f (upto (Z.of_nat m))).
Proof.
  induction m as [|m IH]; intros H; [constructor|].
  rewrite upto_succ, map_app. apply StronglySorted_app.
  - apply IH. intros a a' Ha Ha'. apply H; lia.
  - cbn. constructor; constructor.
  - intros x y Hx Hy. apply in_map_iff in Hx. destruct Hx as (a & <- & Ha).
    apply in_upto in Ha. destruct Hy as [<-|[]]. apply H; lia.
Qed.

Lemma StronglySorted_nth {A : Type} (R : A -> A -> Prop) (d : A) l :
  StronglySorted R l ->
  forall i j, (i < j < length l)%nat -> R (nth i l d) (nth j l d).
Proof.
  induction 1 as [|a l Hl IH Ha]; intros i j Hij; [cbn in Hij; lia|].
  cbn [length] in Hij. destruct j as [|j]; [lia|]. destruct i as [|i].
  - cbn [nth]. rewrite Forall_forall in Ha. apply Ha, nth_In. lia.
  - cbn [nth]. apply IH. lia.
Qed.

Lemma length_upto m : length (upto m) = Z.to_nat m.
Proof. unfold upto. now rewrite length_map, length_seq. Qed.

Section DriverLayout.

Variable VAR_COUNT : Z.
Variable d : intertrack.Grid.

Let b := intertrack.bcond_thickness d.
Let n1 := intertrack.n1 d.
Let n2 := intertrack.n2 d.
Let n3 := intertrack.n3 d.
Let N1 := intertrack.N1 d.
Let rowsize := intertrack.rowsize d.
Let subgridSIZE := intertrack.subgridSIZE d.
Let start q k j := q * subgridSIZE + (k + b) * rowsize + (j + b) * N1 + b.

Hypothesis HV : 0 < VAR_COUNT.
Hypothesis H1 : 0 < n1.
Hypothesis H2 : 0 < n2.
Hypothesis H3 : 0 < n3.
Hypothesis Hb : 0 <= b.

Lemma in_fill {A : Type} (v : Z -> Z -> Z -> A) x :
  In x (intertrack.fill VAR_COUNT d v) <->
  exists q k j, 0 <= q < VAR_COUNT /\ 0 <= k < n3 /\ 0 <= j < n2 /\ x = v q k j.
Proof.
  unfold intertrack.fill. rewrite in_flat_map. split.
  - intros (q & Hq & Hx). apply in_flat_map in Hx. destruct Hx as (k & Hk & Hx).
    apply in_map_iff in Hx. destruct Hx as (j & <- & Hj).
    apply in_upto in Hq, Hk, Hj. exists q, k, j. auto.
  - intros (q & k & j & Hq & Hk & Hj & ->). exists q. split; [now apply in_upto|].
    apply in_flat_map. exists k. split; [now apply in_upto|].
    apply in_map_iff. exists j. split; [reflexivity | now apply in_upto].
Qed.

Lemma length_fill {A : Type} (v : Z -> Z -> Z -> A) :
  Z.of_nat (length (intertrack.fill VAR_COUNT d v)) = VAR_COUNT * n2 * n3.
Proof.
  unfold intertrack.fill.
  rewrite (flat_map_constant_length (c := (Z.to_nat n3 * Z.to_nat n2)%nat)).
  - rewrite length_upto. fold n2 n3. nia.
  - intros q _.
    rewrite (flat_map_constant_length (c := Z.to_nat n2)).
    + now rewrite length_upto.
    + intros k _. now rewrite length_map, length_upto.
Qed.

(** A row of the block lies inside its layer, and the layer inside
    the grid of its variable. *)
Lemma start_bounds q k j :
  0 <= q -> 0 <= k < n3 -> 0 <= j < n2 ->
  q * subgridSIZE <= q * subgridSIZE + (k + b) * rowsize /\
  q * subgridSIZE + (k + b) * rowsize <= start q k j /\
  start q k j + n1 <= q * subgridSIZE + (k + b + 1) * rowsize /\
  q * subgridSIZE + (k + b + 1) * rowsize <= (q + 1) * subgridSIZE /\
  0 <= rowsize /\ 0 <= subgridSIZE.
Proof.
  intros Hq Hk Hj. subst start subgridSIZE rowsize N1. cbv beta.
  unfold intertrack.subgridSIZE, intertrack.rowsize, intertrack.N1, intertrack.N2,
    intertrack.N3.
  fold b n1 n2 n3.
  assert (0 <= (n1 + 2 * b) * (n2 + 2 * b)) by nia.
  assert ((j + b + 1) * (n1 + 2 * b) <= (n2 + 2 * b) * (n1 + 2 * b)) by nia.
  assert ((k + b + 1) * ((n1 + 2 * b) * (n2 + 2 * b))
          <= (n3 + 2 * b) * ((n1 + 2 * b) * (n2 + 2 * b))) by nia.
  repeat split; nia.
Qed.

Lemma starts_sorted :
  StronglySorted (fun x y => x + n1 <= y) (intertrack.fill VAR_COUNT d start).
Proof.
  unfold intertrack.fill. fold n2 n3.
  rewrite <- (Z2Nat.id VAR_COUNT), <- (Z2Nat.id n3), <- (Z2Nat.id n2) by lia.
  apply StronglySorted_flat_map_upto.
  - intros q Hq. apply StronglySorted_flat_map_upto.
    + intros k Hk. apply StronglySorted_map_upto.
      intros j j' Hj Hj'. subst start. cbv beta.
      assert (0 <= N1) by (subst N1; unfold intertrack.N1; fold b n1; lia).
      assert (n1 <= N1) by (subst N1; unfold intertrack.N1; fold b n1; lia).
      nia.
    + intros k k' x y Hk Hk' Hx Hy.
      apply in_map_iff in Hx, Hy. destruct Hx as (j & <- & Hj), Hy as (j' & <- & Hj').
      apply in_upto in Hj, Hj'.
      pose proof (start_bounds q k j) as B. pose proof (start_bounds q k' j') as B'.
      nia.
  - intros q q' x y Hq Hq' Hx Hy.
    apply in_flat_map in Hx, Hy.
    destruct Hx as (k & Hk & Hx), Hy as (k' & Hk' & Hy).
    apply in_map_iff in Hx, Hy. destruct Hx as (j & <- & Hj), Hy as (j' & <- & Hj').
    apply in_upto in Hk, Hk', Hj, Hj'.
    pose proof (start_bounds q k j) as B. pose proof (start_bounds q' k' j') as B'.
    nia.
Qed.


Lemma size_of_mem_dist c :
  0 <= c < VAR_COUNT * n2 * n3 ->
  size_of (intertrack.mem_dist VAR_COUNT d) c = n1.
Proof.
  intros Hc. unfold size_of, arr_get. destruct (Z.ltb_spec c 0); [lia|].
  cbn [chunk_size intertrack.mem_dist].
  assert (Hin : In (nth (Z.to_nat c) (intertrack.fill VAR_COUNT d (fun _ _ _ => n1)) 0)
                   (intertrack.fill VAR_COUNT d (fun _ _ _ => n1))).
  { apply nth_In. pose proof (length_fill (fun _ _ _ => n1)). lia. }
  apply in_fill in Hin. destruct Hin as (_ & _ & _ & _ & _ & _ & E). exact E.
Qed.

Lemma start_of_mem_dist c :
  0 <= c < VAR_COUNT * n2 * n3 ->
  exists q k j, 0 <= q < VAR_COUNT /\ 0 <= k < n3 /\ 0 <= j < n2 /\
                start_of (intertrack.mem_dist VAR_COUNT d) c = start q k j.
Proof.
  intros Hc. unfold start_of, arr_get. destruct (Z.ltb_spec c 0); [lia|].
  cbn [chunk_start intertrack.mem_dist].
  apply in_fill, nth_In. pose proof (length_fill start). subst start. lia.
Qed.

Lemma start_of_mem_dist_range c :
  0 <= c < VAR_COUNT * n2 * n3 ->
  0 <= start_of (intertrack.mem_dist VAR_COUNT d) c /\
  start_of (intertrack.mem_dist VAR_COUNT d) c + n1 <= VAR_COUNT * subgridSIZE.
Proof.
  intros Hc. destruct (start_of_mem_dist c Hc) as (q & k & j & Hq & Hk & Hj & ->).
  pose proof (start_bounds q k j) as B. nia.
Qed.

Lemma mem_dist_placed c :
  0 <= c < VAR_COUNT * n2 * n3 -> chunk_placed (intertrack.mem_dist VAR_COUNT d) c.
Proof.
  intros Hc. unfold chunk_placed, pred_end. rewrite (size_of_mem_dist c Hc).
  split; [|exact H1].
  destruct (Z.eqb_spec c 0) as [->|Hne].
  - apply start_of_mem_dist_range. lia.
  - rewrite size_of_mem_dist by lia.
    unfold start_of, arr_get.
    destruct (Z.ltb_spec (c - 1) 0), (Z.ltb_spec c 0); try lia.
    cbn [chunk_start intertrack.mem_dist].
    apply (StronglySorted_nth _ 0 _ starts_sorted).
    pose proof (length_fill start). subst start. lia.
Qed.

Lemma mem_dist_in_int :
  in_int (VAR_COUNT * subgridSIZE) -> layout_in_int (intertrack.mem_dist VAR_COUNT d).
Proof.
  intros Hint c Hc. cbn [n_chunks intertrack.mem_dist] in Hc. fold n2 n3 in Hc.
  rewrite (size_of_mem_dist c Hc).
  pose proof (start_of_mem_dist_range c Hc) as R.
  unfold in_int, INT_MIN, INT_MAX in *. lia.
Qed.

End DriverLayout.

Lemma init_zero_state m env mr g :
  fst (RK_MPI_SA_init m env mr g) = 0 ->
  max_n (snd (RK_MPI_SA_init m env mr g)) = m /\ 0 < m /\
  K1 (snd (RK_MPI_SA_init m env mr g)) = malloc_K1 env.
Proof.
  unfold RK_MPI_SA_init.
  destruct (comm_rank env); [|discriminate].
  destruct (comm_size env); [|discriminate]. cbv zeta.
  destruct (negb _); [discriminate|].
  destruct (Z.leb_spec m 0); [discriminate|].
  destruct (malloc_aux env); [|discriminate]. intros _. repeat split. lia.
Qed.

(** The layout that the driver builds for its block of the grid is
    accepted: for a block with positive dimensions, when
    [RK_MPI_SA_init] has returned 0 (and the first array was allocated),
    [RK_MPI_SA_check_mem(&mem_dist)] returns 0; the chunks (one per row of
    the interior, for each variable) have [VAR_COUNT*n2*n3] entries in
    each array, follow each other in memory without overlap, and end
    within the [VAR_COUNT*subgridSIZE] values of the block. *)
Theorem driver_layout_accepted (VAR_COUNT : Z) (d : intertrack.Grid)
    (env : InitEnv) (MPImaster : Z) (g : Statics) :
  0 < VAR_COUNT ->
  0 < intertrack.n1 d -> 0 < intertrack.n2 d -> 0 < intertrack.n3 d ->
  0 <= intertrack.bcond_thickness d ->
  in_int (VAR_COUNT * intertrack.subgridSIZE d) ->
  malloc_K1 env <> None ->
  fst (intertrack.init_and_check VAR_COUNT d env MPImaster g) = 0 ->
  snd (intertrack.init_and_check VAR_COUNT d env MPImaster g) = 0 /\
  Z.of_nat (length (chunk_start (intertrack.mem_dist VAR_COUNT d)))
    = n_chunks (intertrack.mem_dist VAR_COUNT d) /\
  Z.of_nat (length (chunk_size (intertrack.mem_dist VAR_COUNT d)))
    = n_chunks (intertrack.mem_dist VAR_COUNT d) /\
  Z.of_nat (length (chunk_eps_mult (intertrack.mem_dist VAR_COUNT d)))
    = n_chunks (intertrack.mem_dist VAR_COUNT d) /\
  (forall c, 0 <= c < n_chunks (intertrack.mem_dist VAR_COUNT d) ->
     chunk_placed (intertrack.mem_dist VAR_COUNT d) c) /\
  last_end (intertrack.mem_dist VAR_COUNT d) <= VAR_COUNT * intertrack.subgridSIZE d.
Proof.
  intros HV H1 H2 H3 Hb Hint HK.
  unfold intertrack.init_and_check.
  pose proof (init_zero_state (VAR_COUNT * intertrack.subgridSIZE d) env MPImaster g) as E.
  destruct (RK_MPI_SA_init (VAR_COUNT * intertrack.subgridSIZE d) env MPImaster g)
    as [q g'].
  cbn [fst snd] in *. intros Hq. destruct (E Hq) as (E1 & Hm & E2).
  assert (U : uninitialised g' = false).
  { apply uninitialised_iff. rewrite E1, E2. split; [lia|exact HK]. }
  assert (En : n_chunks (intertrack.mem_dist VAR_COUNT d)
               = VAR_COUNT * intertrack.n2 d * intertrack.n3 d) by reflexivity.
  assert (Hn : 0 < n_chunks (intertrack.mem_dist VAR_COUNT d)) by (rewrite En; nia).
  assert (Hpl : forall c, 0 <= c < n_chunks (intertrack.mem_dist VAR_COUNT d) ->
                          chunk_placed (intertrack.mem_dist VAR_COUNT d) c).
  { intros c Hc. rewrite En in Hc. apply mem_dist_placed; assumption. }
  assert (Hend : last_end (intertrack.mem_dist VAR_COUNT d)
                 <= VAR_COUNT * intertrack.subgridSIZE d).
  { unfold last_end. rewrite En in *.
    rewrite size_of_mem_dist by first [assumption | lia].
    apply start_of_mem_dist_range; first [assumption | lia]. }
  split.
  - rewrite (check_mem_placed _ g' (mem_dist_in_int VAR_COUNT d HV H1 H2 H3 Hb Hint)
               U Hn Hpl), E1.
    destruct (Z.gtb_spec (last_end (intertrack.mem_dist VAR_COUNT d))
                (VAR_COUNT * intertrack.subgridSIZE d)); [lia|reflexivity].
  - rewrite En. cbn [chunk_start chunk_size chunk_eps_mult intertrack.mem_dist].
    rewrite !length_fill by assumption.
    split; [reflexivity|]. split; [reflexivity|]. split; [reflexivity|].
    split; [|exact Hend]. intros c Hc. apply Hpl. now rewrite En.
Qed.

Lemma driver_layout_accepted_witness :
  let d := {| intertrack.n1 := 3; intertrack.n2 := 2; intertrack.n3 := 2;
              intertrack.bcond_thickness := 2 |} in
  fst (intertrack.init_and_check 2 d (env_ok 0 1) 0 (g_fresh g_ready)) = 0 /\
  snd (intertrack.init_and_check 2 d (env_ok 0 1) 0 (g_fresh g_ready)) = 0.
Proof.
  intros d. split; [reflexivity|].
  apply (driver_layout_accepted 2 d (env_ok 0 1) 0 (g_fresh g_ready)).
  - lia.
  - cbn. lia.
  - cbn. lia.
  - cbn. lia.
  - cbn. lia.
  - vm_compute. split; discriminate.
  - discriminate.
  - reflexivity.
Defined.

(* ================================================================== *)
(** ** The driver: rows, ranks and messages *)

(** The rows of the grid are dealt out to the ranks without gap or
    overlap: the rows of rank 0 start at row 0, the rows of each rank
    are followed by those of the next one, and the rows of the last rank
    end at [total_n3]; the shares differ by one row at most. *)
Theorem rows_partition (total_n3 MPIprocs : Z) :
  0 < MPIprocs -> 0 <= total_n3 ->
  snd (intertrack.rows total_n3 MPIprocs 0) = 0 /\
  forall MPIrank, 0 <= MPIrank < MPIprocs ->
    let (n3, first_row) := intertrack.rows total_n3 MPIprocs MPIrank in
    0 <= first_row /\
    total_n3 ÷ MPIprocs <= n3 <= total_n3 ÷ MPIprocs + 1 /\
    first_row + n3 =
      (if MPIrank + 1 =? MPIprocs then total_n3
       else snd (intertrack.rows total_n3 MPIprocs (MPIrank + 1))).
Proof.
  intros HP HT.
  pose proof (Z.quot_rem' total_n3 MPIprocs) as E.
  pose proof (Z.rem_bound_pos total_n3 MPIprocs HT HP) as Hr.
  pose proof (Z.quot_pos total_n3 MPIprocs HT HP) as Hq.
  unfold intertrack.rows.
  set (n := total_n3 ÷ MPIprocs) in *. set (m := Z.rem total_n3 MPIprocs) in *.
  split.
  - destruct (Z.ltb_spec 0 m); cbn [snd]; lia.
  - intros r Hr'.
    destruct (Z.ltb_spec r m), (Z.ltb_spec (r + 1) m), (Z.eqb_spec (r + 1) MPIprocs);
      cbn [snd]; repeat split; nia.
Qed.

Lemma rows_partition_witness :
  snd (intertrack.rows 10 3 0) = 0 /\
  forall MPIrank, 0 <= MPIrank < 3 ->
    let (n3, first_row) := intertrack.rows 10 3 MPIrank in
    0 <= first_row /\
    10 ÷ 3 <= n3 <= 10 ÷ 3 + 1 /\
    first_row + n3 =
      (if MPIrank + 1 =? 3 then 10 else snd (intertrack.rows 10 3 (MPIrank + 1))).
Proof. apply (rows_partition 10 3); lia. Defined.

(* ================================================================== *)
(** ** The driver: the master rank *)

Lemma arr_get_upto m i : 0 <= i < m -> arr_get 0 (upto m) i = i.
Proof.
  intros H. unfold arr_get, upto. destruct (Z.ltb_spec i 0); [lia|].
  rewrite (nth_indep _ 0 (Z.of_nat 0)) by (rewrite length_map, length_seq; lia).
  rewrite map_nth, seq_nth by lia. lia.
Qed.

Lemma length_arr_set_nat {A : Type} (a : list A) : forall i v,
  length (intertrack.arr_set_nat a i v) = length a.
Proof.
  induction a as [|x a IH]; intros [|i] v; cbn; try reflexivity. now rewrite IH.
Qed.

Lemma nth_arr_set_nat {A : Type} (d : A) (a : list A) : forall i v j,
  (i < length a)%nat ->
  nth j (intertrack.arr_set_nat a i v) d = if Nat.eqb j i then v else nth j a d.
Proof.
  induction a as [|x a IH]; intros i v j Hi; [cbn in Hi; lia|].
  destruct i as [|i], j as [|j]; cbn; try reflexivity.
  apply IH. cbn in Hi. lia.
Qed.

Lemma length_arr_set {A : Type} (a : list A) i v :
  length (intertrack.arr_set a i v) = length a.
Proof.
  unfold intertrack.arr_set. destruct (i <? 0); [reflexivity|apply length_arr_set_nat].
Qed.

Lemma arr_get_set {A : Type} (d : A) (a : list A) i v j :
  0 <= i < Z.of_nat (length a) -> 0 <= j ->
  arr_get d (intertrack.arr_set a i v) j = if j =? i then v else arr_get d a j.
Proof.
  intros Hi Hj. unfold arr_get, intertrack.arr_set.
  destruct (Z.ltb_spec i 0), (Z.ltb_spec j 0); try lia.
  rewrite nth_arr_set_nat by lia.
  destruct (Z.eqb_spec j i) as [->|Hne].
  - now rewrite Nat.eqb_refl.
  - destruct (Nat.eqb_spec (Z.to_nat j) (Z.to_nat i)); [lia|reflexivity].
Qed.

Lemma arr_get_BuildRankMap MPIprocs master_rank i :
  0 <= master_rank < MPIprocs -> 0 <= i < MPIprocs ->
  arr_get 0 (intertrack.BuildRankMap MPIprocs master_rank) i = swapped master_rank i.
Proof.
  intros Hm Hi. unfold intertrack.BuildRankMap, swapped. cbv zeta.
  rewrite arr_get_set by (rewrite ?length_arr_set, ?length_upto; lia).
  destruct (Z.eqb_spec i 0); [reflexivity|].
  rewrite arr_get_set by (rewrite ?length_upto; lia).
  destruct (Z.eqb_spec i master_rank); [reflexivity|].
  now apply arr_get_upto.
Qed.

Lemma swapped_range m i P : 0 <= m < P -> 0 <= i < P -> 0 <= swapped m i < P.
Proof. intros Hm Hi. unfold swapped. destruct (i =? 0), (i =? m); lia. Qed.

Lemma swapped_swapped m i : swapped m (swapped m i) = i.
Proof.
  unfold swapped.
  destruct (Z.eqb_spec i 0) as [->|H0].
  - destruct (Z.eqb_spec m 0) as [->|Hm]; [reflexivity|]. now rewrite Z.eqb_refl.
  - destruct (Z.eqb_spec i m) as [->|Hm]; [reflexivity|].
    destruct (Z.eqb_spec i 0), (Z.eqb_spec i m); congruence.
Qed.

Lemma virtual_rank_swapped MPIprocs master_rank real :
  0 <= master_rank < MPIprocs -> 0 <= real < MPIprocs ->
  intertrack.virtual_rank MPIprocs (intertrack.BuildRankMap MPIprocs master_rank) real
  = swapped master_rank real.
Proof.
  intros Hm Hr. unfold intertrack.virtual_rank.
  destruct (find _ _) as [q|] eqn:E.
  - apply find_some in E. destruct E as [Hq E]. apply in_upto in Hq.
    rewrite arr_get_BuildRankMap in E by assumption.
    apply Z.eqb_eq in E. rewrite <- E. now rewrite swapped_swapped.
  - exfalso.
    pose proof (find_none _ _ E (swapped master_rank real)) as N. cbv beta in N.
    rewrite arr_get_BuildRankMap, swapped_swapped, Z.eqb_refl in N
      by (try assumption; now apply swapped_range).
    assert (In (swapped master_rank real) (upto MPIprocs))
      by (apply in_upto; now apply swapped_range).
    specialize (N H). discriminate N.
Qed.

Lemma clamp_master_range MPIprocs master_arg :
  0 < MPIprocs ->
  0 <= intertrack.clamp_master MPIprocs master_arg < MPIprocs /\
  (0 <= master_arg < MPIprocs -> intertrack.clamp_master MPIprocs master_arg = master_arg).
Proof.
  intros HP. unfold intertrack.clamp_master.
  destruct (Z.ltb_spec master_arg 0), (Z.geb_spec master_arg MPIprocs); cbn [orb];
    split; lia.
Qed.

(** The master of the driver is the master of the solver.  The driver
    swaps rank 0 and the master rank asked for (put into range), and from
    then on takes the process with virtual rank 0 for the master: that
    process passes [final_time] and has the [Service_Callback].  The map
    is a permutation of the ranks that undoes itself, the virtual rank of
    a process is mapped back to its real rank, and the virtual rank is 0
    exactly for the process that [RK_MPI_SA_init], given [MPImaster],
    makes the master of the solver. *)
Theorem rank_translation (MPIprocs master_arg real_rank : Z) :
  0 < MPIprocs -> 0 <= real_rank < MPIprocs ->
  let '(MPImaster, MPIrankmap, MPIrank) :=
    intertrack.translate_ranks MPIprocs master_arg real_rank in
  0 <= MPImaster < MPIprocs /\
  (0 <= master_arg < MPIprocs -> MPImaster = master_arg) /\
  Z.of_nat (length MPIrankmap) = MPIprocs /\
  (forall i, 0 <= i < MPIprocs ->
     0 <= arr_get 0 MPIrankmap i < MPIprocs /\
     arr_get 0 MPIrankmap (arr_get 0 MPIrankmap i) = i) /\
  arr_get 0 MPIrankmap 0 = MPImaster /\
  0 <= MPIrank < MPIprocs /\
  arr_get 0 MPIrankmap MPIrank = real_rank /\
  (MPIrank = 0 <-> real_rank = MPImaster) /\
  forall max_block_size env g,
    comm_rank env = Some real_rank ->
    fst (RK_MPI_SA_init max_block_size env MPImaster g) = 0 ->
    is_master (snd (RK_MPI_SA_init max_block_size env MPImaster g)) = (MPIrank =? 0).
Proof.
  intros HP Hr. unfold intertrack.translate_ranks. cbv zeta.
  destruct (clamp_master_range MPIprocs master_arg HP) as (Hm & Hsame).
  set (M := intertrack.clamp_master MPIprocs master_arg) in *.
  rewrite (virtual_rank_swapped MPIprocs M real_rank Hm Hr).
  split; [exact Hm|]. split; [exact Hsame|].
  split. { unfold intertrack.BuildRankMap. rewrite !length_arr_set, length_upto. lia. }
  split.
  { intros i Hi. rewrite (arr_get_BuildRankMap _ _ i Hm Hi).
    split; [now apply swapped_range|].
    rewrite arr_get_BuildRankMap by (try assumption; now apply swapped_range).
    apply swapped_swapped. }
  split. { rewrite arr_get_BuildRankMap by (try assumption; lia). reflexivity. }
  split; [now apply swapped_range|].
  split.
  { rewrite arr_get_BuildRankMap by (try assumption; now apply swapped_range).
    apply swapped_swapped. }
  assert (Hiff : swapped M real_rank = 0 <-> real_rank = M).
  { unfold swapped. destruct (Z.eqb_spec real_rank 0), (Z.eqb_spec real_rank M); lia. }
  split; [exact Hiff|].
  intros m env g Hc H0.
  assert (E : MPIrank (snd (RK_MPI_SA_init m env M g)) = real_rank /\
              MPImaster (snd (RK_MPI_SA_init m env M g)) = M).
  { revert H0. unfold RK_MPI_SA_init. rewrite Hc.
    destruct (comm_size env); [|discriminate]. cbv zeta.
    destruct (negb _); [discriminate|].
    destruct (m <=? 0); [discriminate|].
    destruct (malloc_aux env); [|discriminate]. intros _. split; reflexivity. }
  unfold is_master. destruct E as (-> & ->).
  destruct (Z.eqb_spec real_rank M) as [E|E], (Z.eqb_spec (swapped M real_rank) 0) as [E'|E'];
    try reflexivity; exfalso; tauto.
Qed.

Lemma rank_translation_witness :
  let '(MPImaster, MPIrankmap, MPIrank) := intertrack.translate_ranks 3 2 2 in
  0 <= MPImaster < 3 /\
  (0 <= 2 < 3 -> MPImaster = 2) /\
  Z.of_nat (length MPIrankmap) = 3 /\
  (forall i, 0 <= i < 3 ->
     0 <= arr_get 0 MPIrankmap i < 3 /\
     arr_get 0 MPIrankmap (arr_get 0 MPIrankmap i) = i) /\
  arr_get 0 MPIrankmap 0 = MPImaster /\
  0 <= MPIrank < 3 /\
  arr_get 0 MPIrankmap MPIrank = 2 /\
  (MPIrank = 0 <-> 2 = MPImaster) /\
  forall max_block_size env g,
    comm_rank env = Some 2 ->
    fst (RK_MPI_SA_init max_block_size env MPImaster g) = 0 ->
    is_master (snd (RK_MPI_SA_init max_block_size env MPImaster g)) = (MPIrank =? 0).
Proof. apply (rank_translation 3 2 2); lia. Defined.

(* ================================================================== *)
(** ** The driver: the messages for the codes of the solver *)

Lemma check_mem_loop_code n ks : forall offset c,
  check_mem_loop n ks offset = inl c -> c = -6.
Proof.
  induction ks as [|i ks IH]; intros offset c; cbn [check_mem_loop]; [discriminate|].
  cbv zeta. destruct (_ <? _); [congruence|]. destruct (_ <=? _); [congruence|].
  apply IH.
Qed.

Section Tables.

Import String.StringSyntax.
Local Open Scope string_scope.

(** Every code of [RK_MPI_SA_check_mem] has its message in the table
    [RK_mem_dist_errors], and the codes -1 and -2 of [RK_MPI_SA_init] have
    theirs in [RK_Init_errors].  The codes -3 and -4 of
    [RK_MPI_SA_init] have none: for them the table of two entries is
    read past its end; -3 is returned only to a process that has
    initialised the solver before, and -4 only when the communicator
    does not answer. *)
Theorem messages_for_codes (n : RK_MEM_DIST) (g : Statics)
    (max_block_size : Z) (env : InitEnv) (master_rank : Z) :
  let c := fst (RK_MPI_SA_check_mem n g) in
  let q := fst (RK_MPI_SA_init max_block_size env master_rank g) in
  (c = 0 /\ intertrack.report_single intertrack.RK_mem_dist_errors (- c)
            = intertrack.no_error \/
   c = -3 /\ intertrack.report_single intertrack.RK_mem_dist_errors (- c)
             = intertrack.message "RK_MPI_SA_check_mem: unitialized." \/
   c = -5 /\ intertrack.report_single intertrack.RK_mem_dist_errors (- c)
             = intertrack.message "RK_MPI_SA_check_mem: chunks out of memory" \/
   c = -6 /\ intertrack.report_single intertrack.RK_mem_dist_errors (- c)
             = intertrack.message "RK_MPI_SA_check_mem: invalid chunk specification" \/
   c = -7 /\ intertrack.report_single intertrack.RK_mem_dist_errors (- c)
             = intertrack.message
                 "RK_MPI_SA_check_mem: number of chunks is negative or zero") /\
  (q = 0 /\ intertrack.report_single intertrack.RK_Init_errors (- q)
            = intertrack.no_error \/
   q = -1 /\ intertrack.report_single intertrack.RK_Init_errors (- q)
             = intertrack.message "RK_MPI_SA_init: Not enough memory." \/
   q = -2 /\ intertrack.report_single intertrack.RK_Init_errors (- q)
             = intertrack.message "Invalid block dimension." \/
   q = -3 /\ max_n g <> 0 /\
     intertrack.report_single intertrack.RK_Init_errors (- q) = intertrack.outside_table \/
   q = -4 /\ (comm_rank env = None \/ comm_size env = None) /\
     intertrack.report_single intertrack.RK_Init_errors (- q) = intertrack.outside_table).
Proof.
  cbv zeta. split.
  - unfold RK_MPI_SA_check_mem.
    destruct (uninitialised g); [cbn [fst]; auto 6|].
    destruct (n_chunks n <=? 0); [cbn [fst]; auto 6|].
    destruct (check_mem_loop n (upto (n_chunks n)) 0) as [c|offset] eqn:E.
    + apply check_mem_loop_code in E. subst c. cbn [fst]. auto 6.
    + destruct (offset >? max_n g); cbn [fst]; auto 6.
  - unfold RK_MPI_SA_init.
    destruct (comm_rank env); [|cbn [fst]; auto 8].
    destruct (comm_size env); [|cbn [fst]; auto 8]. cbv zeta.
    destruct (Z.eqb_spec (max_n (set_MPIprocs z0 (set_MPIrank z g))) 0) as [E|E];
      cbn [negb].
    + destruct (max_block_size <=? 0); [cbn [fst]; auto 8|].
      destruct (malloc_aux env); cbn [fst]; auto 8.
    + cbn [fst]. right. right. right. left. split; [reflexivity|]. split; [exact E|].
      reflexivity.
Qed.

End Tables.

(** The report of [CheckErrorAcrossRanks] for more than one process.
    The loop reports [i] when the process with real rank [i] has an
    error, and prints for it the message of the error of the process with
    virtual rank [i], whose real rank is [MPIrankmap[i]]: the two are the
    same process unless [i] is 0 or the master rank.  So, when the master
    rank is not 0, an error of the process with real rank 0 alone makes
    the loop read [err_messg[-1]]. *)
Theorem reports_of_ranks (MPIprocs MPImaster : Z) (errors : list Z) :
  0 <= MPImaster < MPIprocs ->
  (forall i index,
     In (i, index) (intertrack.reports MPIprocs
                      (intertrack.BuildRankMap MPIprocs MPImaster) errors) <->
     0 <= i < MPIprocs /\ arr_get 0 errors i <> 0 /\
     index = arr_get 0 errors (swapped MPImaster i) - 1) /\
  (MPImaster <> 0 -> arr_get 0 errors 0 <> 0 -> arr_get 0 errors MPImaster = 0 ->
   In (0, -1) (intertrack.reports MPIprocs
                 (intertrack.BuildRankMap MPIprocs MPImaster) errors) /\
   forall err_messg, intertrack.entry err_messg (-1) = None).
Proof.
  intros Hm.
  assert (R : forall i index,
     In (i, index) (intertrack.reports MPIprocs
                      (intertrack.BuildRankMap MPIprocs MPImaster) errors) <->
     0 <= i < MPIprocs /\ arr_get 0 errors i <> 0 /\
     index = arr_get 0 errors (swapped MPImaster i) - 1).
  { intros i index. unfold intertrack.reports. rewrite in_flat_map. split.
    - intros (i' & Hi & Hin). apply in_upto in Hi.
      rewrite arr_get_BuildRankMap in Hin by assumption.
      destruct (Z.eqb_spec (arr_get 0 errors i') 0) as [E|E]; [destruct Hin|].
      destruct Hin as [Hin|[]]. injection Hin as <- <-. auto.
    - intros (Hi & He & ->). exists i. split; [now apply in_upto|].
      rewrite arr_get_BuildRankMap by assumption.
      destruct (Z.eqb_spec (arr_get 0 errors i) 0); [contradiction|]. now left. }
  split; [exact R|].
  intros Hne H0 HM. split; [|reflexivity].
  apply R. split; [lia|]. split; [exact H0|].
  unfold swapped. cbn [Z.eqb]. rewrite HM. reflexivity.
Qed.

Lemma reports_of_ranks_witness :
  In (0, -1) (intertrack.reports 2 (intertrack.BuildRankMap 2 1) [2; 0]).
Proof.
  apply (reports_of_ranks 2 1 [2; 0]); [lia | discriminate | discriminate | reflexivity].
Defined.
